(** * Forward-only evaluator for convolutional networks: shape inference,
      layer dispatch and the configure / evaluate protocol

    A shallow embedding of [inference.py]: the layer classes
    ([SlidingLayer], [Convolution], [Pooling], [Activation], [Dropout],
    [Linear], [SoftMax]) and the [Model] graph.

    - Python objects are records; a method that mutates [self] is a state
      transformer over the pair (object, device), and an exception leaves the
      state as mutated so far.
    - Python floats are IEEE binary64 numbers, computed with the Standard
      Library's [SpecFloat] (round to nearest, ties to even); Python integers
      are [Z].
    - Tensors are handles (device pointer, shape) into a device memory, so
      that two handles to the same buffer alias.
    - cuDNN, cuBLAS and the element-wise kernels are the operations of a
      [Backend]. *)

From Stdlib Require Import ZArith Lia Reals Lra Psatz Ascii String.
From Stdlib Require Import Floats.SpecFloat.
From stdpp Require Import base gmap strings list.

Local Open Scope Z_scope.
Set Warnings "-register-all".

(** ** Python exceptions and results *)

Inductive exn :=
  | AssertionError
  | AttributeError
  | FileNotFoundError
  | IndexError
  | KeyError
  | OverflowError
  | RuntimeError
  | TypeError
  | ValueError
  | ZeroDivisionError.

Inductive result (A : Type) :=
  | Ok (a : A)
  | Raise (e : exn).
Arguments Ok {A} a.
Arguments Raise {A} e.

Definition bind {A B} (r : result A) (k : A -> result B) : result B :=
  match r with
  | Ok a => k a
  | Raise e => Raise e
  end.

Notation "'let!' x ':=' e 'in' k" := (bind e (fun x => k))
  (at level 10, x name, e at level 100, k at level 200).

(** A computation over a mutable state [S]: it returns or raises, and in
    both cases hands back the state it reached. *)
Definition St (S A : Type) : Type := S -> result A * S.

Definition ret {S A} (a : A) : St S A := fun s => (Ok a, s).
Definition raise {S A} (e : exn) : St S A := fun s => (Raise e, s).
Definition liftR {S A} (r : result A) : St S A := fun s => (r, s).
Definition bindS {S A B} (m : St S A) (k : A -> St S B) : St S B :=
  fun s =>
    match m s with
    | (Ok a, s') => k a s'
    | (Raise e, s') => (Raise e, s')
    end.

Notation "'let*' x ':=' e 'in' k" := (bindS e (fun x => k))
  (at level 10, x name, e at level 100, k at level 200).

Definition py_assert {S} (b : bool) : St S unit :=
  fun s => if b then (Ok tt, s) else (Raise AssertionError, s).

(** [self] and the device, for a method of an object of type [T]. *)
Definition get_self {T D} : St (T * D) T := fun s => (Ok (fst s), s).
Definition set_self {T D} (f : T -> T) : St (T * D) unit :=
  fun s => (Ok tt, (f (fst s), snd s)).
Definition on_dev {T D A} (m : St D A) : St (T * D) A :=
  fun s => let '(r, d) := m (snd s) in (r, (fst s, d)).

(** [obj.attr] where the attribute may be unset or [None]. *)
Definition attr {S A} (o : option A) : St S A :=
  match o with
  | Some a => ret a
  | None => raise AttributeError
  end.

(** ** Python numbers: binary64 floats and unbounded integers *)

Definition prec : Z := 53.
Definition emax : Z := 1024.

Definition SF64mul := SFmul prec emax.
Definition SF64add := SFadd prec emax.
Definition SF64sub := SFsub prec emax.
Definition SF64div := SFdiv prec emax.

(** The literals [1.0] and [0.0]. *)
Definition float_one : spec_float := S754_finite false 4503599627370496 (-52).
Definition float_zero : spec_float := S754_zero false.

(** [float(n)], also the implicit conversion of an [int] operand of a float
    operation: correctly rounded, [OverflowError] beyond the float range. *)
Definition float_of_int (n : Z) : result spec_float :=
  match binary_normalize prec emax n 0 false with
  | S754_infinity _ => Raise OverflowError
  | f => Ok f
  end.

(** [a / b] on floats. *)
Definition float_truediv (a b : spec_float) : result spec_float :=
  match b with
  | S754_zero _ => Raise ZeroDivisionError
  | _ => Ok (SF64div a b)
  end.

(** [a / b] on integers: the correctly rounded quotient. *)
Definition int_truediv (a b : Z) : result spec_float :=
  match a, b with
  | _, Z0 => Raise ZeroDivisionError
  | Z0, _ => Ok (S754_zero (b <? 0))
  | _, _ =>
      match SF64div (S754_finite (a <? 0) (Z.to_pos (Z.abs a)) 0)
                    (S754_finite (b <? 0) (Z.to_pos (Z.abs b)) 0) with
      | S754_infinity _ => Raise OverflowError
      | f => Ok f
      end
  end.

(** [int(f)]: truncation towards zero. *)
Definition int_of_float (f : spec_float) : result Z :=
  match f with
  | S754_nan => Raise ValueError
  | S754_infinity _ => Raise OverflowError
  | S754_zero _ => Ok 0
  | S754_finite s m e =>
      Ok (cond_Zopp s (if 0 <=? e then Zpos m * 2 ^ e else Zpos m / 2 ^ (- e)))
  end.

(** [math.floor(f)]. *)
Definition math_floor (f : spec_float) : result Z :=
  match f with
  | S754_nan => Raise ValueError
  | S754_infinity _ => Raise OverflowError
  | S754_zero _ => Ok 0
  | S754_finite s m e =>
      Ok (if 0 <=? e then cond_Zopp s (Zpos m) * 2 ^ e
          else cond_Zopp s (Zpos m) / 2 ^ (- e))
  end.

(** [np.prod] over a shape tuple: a product of 64-bit integers, which wraps. *)
Definition wrap64 (n : Z) : Z := (n + 2 ^ 63) mod 2 ^ 64 - 2 ^ 63.

Definition np_prod (l : list Z) : Z :=
  fold_left (fun acc d => wrap64 (acc * d)) l 1.

(** ** Output-size arithmetic of the sliding layers *)

(** [int((1.0 * inp + 2*pad - k) / d + 1)], the expression of
    [Convolution.configure]. *)
Definition conv_out_dim (inp pad k d : Z) : result Z :=
  let! fi := float_of_int inp in
  let! fp := float_of_int (2 * pad) in
  let! fk := float_of_int k in
  let! fd := float_of_int d in
  let! q := float_truediv (SF64sub (SF64add (SF64mul float_one fi) fp) fk) fd in
  let! f1 := float_of_int 1 in
  int_of_float (SF64add q f1).

(** [int((math.floor(1.0 * inp - k + 2*pad) / d) + 1)], the expression of
    [Pooling.configure]: [math.floor] is applied to the numerator and yields
    an [int], the division is the true division of two integers. *)
Definition pool_out_dim (inp pad k d : Z) : result Z :=
  let! fi := float_of_int inp in
  let! fk := float_of_int k in
  let! fp := float_of_int (2 * pad) in
  let! n := math_floor (SF64add (SF64sub (SF64mul float_one fi) fk) fp) in
  let! q := int_truediv n d in
  let! f1 := float_of_int 1 in
  int_of_float (SF64add q f1).

(** ** Layer configuration records (parsed JSON) *)

Inductive json :=
  | JNull
  | JBool (b : bool)
  | JInt (n : Z)
  | JFloat (f : spec_float)
  | JStr (s : string)
  | JList (l : list json).

Abbreviation dict := (gmap string json).

(** [d[k]] *)
Definition getitem (d : dict) (k : string) : result json :=
  match d !! k with
  | Some v => Ok v
  | None => Raise KeyError
  end.

(** [l[i]] on a JSON list. *)
Definition json_index (v : json) (i : nat) : result json :=
  match v with
  | JList l => match l !! i with Some x => Ok x | None => Raise IndexError end
  | _ => Raise TypeError
  end.

(** [v == False]: [False], [0] and [0.0] are equal to [False]. *)
Definition py_eq_False (v : json) : bool :=
  match v with
  | JBool b => negb b
  | JInt n => n =? 0
  | JFloat (S754_zero _) => true
  | _ => false
  end.

(** [v == s] for a string literal [s]. *)
Definition py_eq_str (v : json) (s : string) : bool :=
  match v with
  | JStr t => String.eqb t s
  | _ => false
  end.

(** The kernel geometry is integer arithmetic and is handed to cuDNN as C
    integers: the model reads these fields as integers and rejects other
    JSON values when the field is read. *)
Definition as_int (v : json) : result Z :=
  match v with
  | JInt n => Ok n
  | JBool b => Ok (Z.b2z b)
  | _ => Raise TypeError
  end.

Definition as_str (v : json) : result string :=
  match v with
  | JStr s => Ok s
  | _ => Raise TypeError
  end.

(** The scalar of [tensor *= p]. *)
Definition as_float (v : json) : result spec_float :=
  match v with
  | JFloat f => Ok f
  | JInt n => float_of_int n
  | JBool b => float_of_int (Z.b2z b)
  | _ => Raise TypeError
  end.

(** ** [os.path] (POSIX) *)

Definition is_slash (c : ascii) : bool := Ascii.eqb c "/"%char.

Fixpoint drop_while {A} (f : A -> bool) (l : list A) : list A :=
  match l with
  | [] => []
  | x :: l' => if f x then drop_while f l' else l
  end.

(** [os.path.dirname]: everything up to the last slash, without trailing
    slashes unless it consists of slashes only. *)
Definition os_path_dirname (p : string) : string :=
  let head_rev := drop_while (fun c => negb (is_slash c)) (rev (list_ascii_of_string p)) in
  if forallb is_slash head_rev then string_of_list_ascii (rev head_rev)
  else string_of_list_ascii (rev (drop_while is_slash head_rev)).

(** [os.path.join] of two components. *)
Definition os_path_join (a b : string) : string :=
  match list_ascii_of_string b with
  | c :: _ =>
      if is_slash c then b
      else match rev (list_ascii_of_string a) with
           | [] => b
           | d :: _ => if is_slash d then (a +:+ b)%string else (a +:+ "/" +:+ b)%string
           end
  | [] =>
      match rev (list_ascii_of_string a) with
      | [] => b
      | d :: _ => if is_slash d then a else (a +:+ "/")%string
      end
  end.

(** ** Tensors and the device *)

(** A tensor handle: the device pointer and the shape. Handles with the same
    pointer share their data. *)
Record GPUTensor := { ptr : nat; shape : list Z }.

(** [t.shape[i]] *)
Definition shape_at (t : GPUTensor) (i : nat) : result Z :=
  match shape t !! i with
  | Some d => Ok d
  | None => Raise IndexError
  end.

(** The number of elements of a tensor of shape [s]. *)
Definition shape_size (s : list Z) : Z := fold_left Z.mul s 1.

(** [t.reshape(s)]: a view on the same buffer; the element count must agree. *)
Definition reshape (t : GPUTensor) (s : list Z) : result GPUTensor :=
  if shape_size s =? shape_size (shape t)
  then Ok {| ptr := ptr t; shape := s |}
  else Raise ValueError.

(** cuDNN descriptors, as the values they are built from. *)
Inductive cudnnConvolutionMode := CUDNN_CONVOLUTION | CUDNN_CROSS_CORRELATION.
Inductive cudnnPoolingMode := CUDNN_POOLING_MAX | CUDNN_POOLING_AVERAGE.
Inductive cudnnActivationMode :=
  CUDNN_ACTIVATION_SIGMOID | CUDNN_ACTIVATION_RELU | CUDNN_ACTIVATION_TANH.
Inductive cudnnSoftmaxAlgorithm :=
  CUDNN_SOFTMAX_FAST | CUDNN_SOFTMAX_ACCURATE | CUDNN_SOFTMAX_LOG.
Inductive cudnnSoftmaxMode :=
  CUDNN_SOFTMAX_MODE_INSTANCE | CUDNN_SOFTMAX_MODE_CHANNEL.

Abbreviation TensorDesc := (list Z).

Record FilterDesc := { f_k : Z; f_c : Z; f_h : Z; f_w : Z }.

Record ConvDesc := {
  c_pad_h : Z; c_pad_w : Z; c_u : Z; c_v : Z;
  c_upscale_x : Z; c_upscale_y : Z; c_mode : cudnnConvolutionMode }.

Record PoolDesc := {
  p_mode : cudnnPoolingMode; p_h : Z; p_w : Z;
  p_pad_h : Z; p_pad_w : Z; p_stride_h : Z; p_stride_w : Z }.

Definition get_cudnn_tensor_desc (t : GPUTensor) : TensorDesc := shape t.

(** The compute backend: the element type of device buffers and the kernels
    of cuDNN, cuBLAS and the tensor library. The scaling parameters [alpha]
    and [beta] are passed on; with [beta = 0] cuDNN does not read the previous
    contents of the destination, so a kernel's result is a function of its
    inputs. *)
Class Backend := {
  elem : Type;
  elem_zero : elem;
  elem_add : elem -> elem -> elem;
  elem_mul : elem -> elem -> elem;
  (** the element-wise kernel behind [tensor *= p] *)
  elem_scale : spec_float -> elem -> elem;
  cudnnGetConvolution2dForwardOutputDim :
    ConvDesc -> TensorDesc -> FilterDesc -> Z * Z * Z * Z;
  cudnnGetConvolutionForwardAlgorithm :
    TensorDesc -> FilterDesc -> ConvDesc -> TensorDesc -> Z;
  cudnnGetConvolutionForwardWorkspaceSize :
    TensorDesc -> FilterDesc -> ConvDesc -> TensorDesc -> Z -> Z;
  cudnnConvolutionForward :
    spec_float -> TensorDesc -> list elem -> FilterDesc -> list elem ->
    ConvDesc -> Z -> spec_float -> TensorDesc -> list elem;
  cudnnPoolingForward :
    PoolDesc -> spec_float -> TensorDesc -> list elem ->
    spec_float -> TensorDesc -> list elem;
  cudnnActivationForward :
    cudnnActivationMode -> spec_float -> TensorDesc -> list elem ->
    spec_float -> TensorDesc -> list elem;
  cudnnSoftmaxForward :
    cudnnSoftmaxAlgorithm -> cudnnSoftmaxMode -> spec_float -> TensorDesc ->
    list elem -> spec_float -> TensorDesc -> list elem;
}.

(** Parameter files: path to (shape, data). *)
Abbreviation Files := (gmap string (list Z * list elem)).

Section Device.
Context {B : Backend}.

(** Device memory: the contents of the allocated buffers and the next free
    pointer. *)
Record Device := { mem : gmap nat (list elem); brk : nat }.

(** [GPUTensor(shape)]: a fresh, uninitialised buffer. *)
Definition GPUTensor_new (s : list Z) : St Device GPUTensor :=
  fun d => (Ok {| ptr := brk d; shape := s |},
            {| mem := mem d; brk := S (brk d) |}).

(** [GPUTensor(path)]: a fresh buffer holding the array stored in the file. *)
Definition GPUTensor_load (files : Files) (path : string) : St Device GPUTensor :=
  fun d =>
    match files !! path with
    | Some (s, data) =>
        (Ok {| ptr := brk d; shape := s |},
         {| mem := <[brk d := data]> (mem d); brk := S (brk d) |})
    | None => (Raise FileNotFoundError, d)
    end.

(** [drv.mem_alloc(n)] *)
Definition mem_alloc : St Device nat :=
  fun d => (Ok (brk d), {| mem := mem d; brk := S (brk d) |}).

(** The contents of a buffer ([t.get()]). *)
Definition read (d : Device) (p : nat) : list elem := default [] (mem d !! p).

Definition write (p : nat) (data : list elem) : St Device unit :=
  fun d => (Ok tt, {| mem := <[p := data]> (mem d); brk := brk d |}).

(** Modelled from the spec: [cublas_dot.cublas_gemm], whose module is not
    among the sources. The spec describes it as a dense matrix product; for
    row-major [a] of [m] rows and [k] columns and [b] of [k] rows and [n]
    columns, entry [(i, j)] of the result is the sum over [l] of
    [a[i][l] * b[l][j]]. *)
Definition gemm_entry (k n : nat) (a b : list elem) (i j : nat) : elem :=
  fold_left
    (fun acc l =>
       elem_add acc (elem_mul (default elem_zero (a !! (i * k + l)%nat))
                              (default elem_zero (b !! (l * n + j)%nat))))
    (seq 0 k) elem_zero.

Definition gemm_data (m k n : nat) (a b : list elem) : list elem :=
  flat_map (fun i => map (gemm_entry k n a b i) (seq 0 n)) (seq 0 m).

Definition cublas_gemm (A Bm C : GPUTensor) : St Device unit :=
  let* m := liftR (shape_at A 0) in
  let* k := liftR (shape_at A 1) in
  let* n := liftR (shape_at Bm 1) in
  fun d =>
    write (ptr C)
      (gemm_data (Z.to_nat m) (Z.to_nat k) (Z.to_nat n) (read d (ptr A)) (read d (ptr Bm))) d.

End Device.

(** ** The layers *)

(** [os.path.join(config["baseDir"], config["parameterFiles"][i])] *)
Definition param_path (config : dict) (i : nat) : result string :=
  let! base := getitem config "baseDir" in
  let! files := getitem config "parameterFiles" in
  let! f := json_index files i in
  let! base := as_str base in
  let! f := as_str f in
  Ok (os_path_join base f).

Module SlidingLayer.

Record t := {
  name : string;
  kW : Z; kH : Z; dH : Z; dW : Z; padH : Z; padW : Z }.

Definition geti (config : dict) (k : string) : result Z :=
  let! v := getitem config k in as_int v.

(** [for attr in ["kW", "kH", "dH", "dW", "padH", "padW"]:
       self.__dict__[attr] = config[attr]] *)
Definition init (config : dict) (name : string) : result t :=
  let! kW := geti config "kW" in
  let! kH := geti config "kH" in
  let! dH := geti config "dH" in
  let! dW := geti config "dW" in
  let! padH := geti config "padH" in
  let! padW := geti config "padW" in
  Ok {| name := name; kW := kW; kH := kH; dH := dH; dW := dW;
        padH := padH; padW := padW |}.

End SlidingLayer.

Module Convolution.
Section Convolution.
Context {B : Backend}.

Record t := {
  base : SlidingLayer.t;
  output : option GPUTensor;
  W : GPUTensor;
  bias : GPUTensor;
  alpha : spec_float;
  beta : spec_float;
  in_desc : option TensorDesc;
  out_desc : option TensorDesc;
  filt_desc : option FilterDesc;
  conv_desc : option ConvDesc;
  algo : option Z;
  ws_size : option Z;
  ws_ptr : option Z }.

Definition convolution_mode := CUDNN_CROSS_CORRELATION.

Definition init (files : Files) (config : dict) (name : string) : St Device t :=
  let* base := liftR (SlidingLayer.init config name) in
  let* wpath := liftR (param_path config 0) in
  let* W := GPUTensor_load files wpath in
  let* bpath := liftR (param_path config 1) in
  let* bias := GPUTensor_load files bpath in
  ret {| base := base; output := None; W := W; bias := bias;
         alpha := float_one; beta := float_zero;
         in_desc := None; out_desc := None; filt_desc := None;
         conv_desc := None; algo := None; ws_size := None; ws_ptr := None |}.

Definition set_output (o : GPUTensor) (c : t) : t :=
  {| base := base c; output := Some o; W := W c; bias := bias c;
     alpha := alpha c; beta := beta c;
     in_desc := in_desc c; out_desc := out_desc c; filt_desc := filt_desc c;
     conv_desc := conv_desc c; algo := algo c; ws_size := ws_size c;
     ws_ptr := ws_ptr c |}.

Definition set_descs (i : TensorDesc) (f : FilterDesc) (cd : ConvDesc) (c : t) : t :=
  {| base := base c; output := output c; W := W c; bias := bias c;
     alpha := alpha c; beta := beta c;
     in_desc := Some i; out_desc := out_desc c; filt_desc := Some f;
     conv_desc := Some cd; algo := algo c; ws_size := ws_size c;
     ws_ptr := ws_ptr c |}.

Definition set_plan (o : TensorDesc) (a : Z) (sz : Z) (p : Z) (c : t) : t :=
  {| base := base c; output := output c; W := W c; bias := bias c;
     alpha := alpha c; beta := beta c;
     in_desc := in_desc c; out_desc := Some o; filt_desc := filt_desc c;
     conv_desc := conv_desc c; algo := Some a; ws_size := Some sz;
     ws_ptr := Some p |}.

(** [cudnnSetFilter4dDescriptor(filt_desc, data_type, filter_maps,
       filter_channels, kH, kW)] *)
Definition filter_descriptor (g : SlidingLayer.t) (filter_maps filter_channels : Z)
  : FilterDesc :=
  {| f_k := filter_maps; f_c := filter_channels;
     f_h := SlidingLayer.kH g; f_w := SlidingLayer.kW g |}.

(** [cudnnSetConvolution2dDescriptor(conv_desc, padH, padW, dH, dW, 1, 1,
       convolution_mode)] *)
Definition convolution_descriptor (g : SlidingLayer.t) : ConvDesc :=
  {| c_pad_h := SlidingLayer.padH g; c_pad_w := SlidingLayer.padW g;
     c_u := SlidingLayer.dH g; c_v := SlidingLayer.dW g;
     c_upscale_x := 1; c_upscale_y := 1; c_mode := convolution_mode |}.

(** The previous descriptors are destroyed before the new ones are stored;
    a descriptor is modelled by its value, so releasing one changes nothing
    here. *)
Definition configure (input : GPUTensor) : St (t * Device) unit :=
  let* self := get_self in
  let g := base self in
  let* in_images := liftR (shape_at input 0) in
  let* in_channels := liftR (shape_at input 1) in
  let* in_height := liftR (shape_at input 2) in
  let* in_width := liftR (shape_at input 3) in
  let* filter_maps := liftR (shape_at (W self) 0) in
  let* filter_channels := liftR (shape_at (W self) 1) in
  let* _ := py_assert (in_channels =? filter_channels) in
  let* out_width :=
    liftR (conv_out_dim in_width (SlidingLayer.padW g) (SlidingLayer.kW g) (SlidingLayer.dW g)) in
  let* out_height :=
    liftR (conv_out_dim in_height (SlidingLayer.padH g) (SlidingLayer.kH g) (SlidingLayer.dH g)) in
  let* out := on_dev (GPUTensor_new [in_images; filter_maps; out_height; out_width]) in
  let* _ := set_self (set_output out) in
  let ind := get_cudnn_tensor_desc input in
  let fd := filter_descriptor g filter_maps filter_channels in
  let cd := convolution_descriptor g in
  let* _ := set_self (set_descs ind fd cd) in
  let '(_, _, out_height2, out_width2) :=
    cudnnGetConvolution2dForwardOutputDim cd ind fd in
  let* _ := py_assert (out_width =? out_width2) in
  let* _ := py_assert (out_height =? out_height2) in
  let od := get_cudnn_tensor_desc out in
  let a := cudnnGetConvolutionForwardAlgorithm ind fd cd od in
  let sz := cudnnGetConvolutionForwardWorkspaceSize ind fd cd od a in
  let* p := (if 0 <? sz
             then let* q := on_dev mem_alloc in ret (Z.of_nat q)
             else ret 0) in
  set_self (set_plan od a sz p).

Definition fprop (input : GPUTensor) : St (t * Device) unit :=
  let* self := get_self in
  let* out := attr (output self) in
  let* _ := attr (ws_ptr self) in
  let* _ := attr (ws_size self) in
  let* ind := attr (in_desc self) in
  let* fd := attr (filt_desc self) in
  let* cd := attr (conv_desc self) in
  let* a := attr (algo self) in
  let* od := attr (out_desc self) in
  on_dev (fun d =>
    write (ptr out)
      (cudnnConvolutionForward (alpha self) ind (read d (ptr input)) fd
         (read d (ptr (W self))) cd a (beta self) od) d).

End Convolution.
End Convolution.

Module Pooling.
Section Pooling.
Context {B : Backend}.

Inductive Mode := MAX | AVG.

Record t := {
  base : SlidingLayer.t;
  mode : Mode;
  alpha : spec_float;
  beta : spec_float;
  pool_desc : option PoolDesc;
  in_desc : option TensorDesc;
  out_desc : option TensorDesc;
  output : option GPUTensor }.

(** The constructor touches no device state: it reads the record, and
    [assert(config["ceil_mode"] == False)]. *)
Definition init (mode : Mode) (config : dict) (name : string) : result t :=
  let! base := SlidingLayer.init config name in
  let! ceil_mode := getitem config "ceil_mode" in
  if py_eq_False ceil_mode
  then Ok {| base := base; mode := mode; alpha := float_one; beta := float_zero;
             pool_desc := None; in_desc := None; out_desc := None; output := None |}
  else Raise AssertionError.

Definition set_output (o : GPUTensor) (c : t) : t :=
  {| base := base c; mode := mode c; alpha := alpha c; beta := beta c;
     pool_desc := pool_desc c; in_desc := in_desc c; out_desc := out_desc c;
     output := Some o |}.

Definition set_descs (i o : TensorDesc) (pd : PoolDesc) (c : t) : t :=
  {| base := base c; mode := mode c; alpha := alpha c; beta := beta c;
     pool_desc := Some pd; in_desc := Some i; out_desc := Some o;
     output := output c |}.

Definition configure (input : GPUTensor) : St (t * Device) unit :=
  let* self := get_self in
  let g := base self in
  let* in_images := liftR (shape_at input 0) in
  let* in_channels := liftR (shape_at input 1) in
  let* in_height := liftR (shape_at input 2) in
  let* in_width := liftR (shape_at input 3) in
  let* _ := py_assert (SlidingLayer.kW g <=? in_width) in
  let* _ := py_assert (SlidingLayer.kH g <=? in_height) in
  let* out_width :=
    liftR (pool_out_dim in_width (SlidingLayer.padW g) (SlidingLayer.kW g) (SlidingLayer.dW g)) in
  let* out_height :=
    liftR (pool_out_dim in_height (SlidingLayer.padH g) (SlidingLayer.kH g) (SlidingLayer.dH g)) in
  let* out := on_dev (GPUTensor_new [in_images; in_channels; out_height; out_width]) in
  let* _ := set_self (set_output out) in
  set_self (set_descs (get_cudnn_tensor_desc input) (get_cudnn_tensor_desc out)
    {| p_mode := CUDNN_POOLING_MAX;
       p_h := SlidingLayer.kH g; p_w := SlidingLayer.kW g;
       p_pad_h := SlidingLayer.padH g; p_pad_w := SlidingLayer.padW g;
       p_stride_h := SlidingLayer.dH g; p_stride_w := SlidingLayer.dW g |}).

Definition fprop (input : GPUTensor) : St (t * Device) unit :=
  let* self := get_self in
  let* out := attr (output self) in
  let* pd := attr (pool_desc self) in
  let* ind := attr (in_desc self) in
  let* od := attr (out_desc self) in
  on_dev (fun d =>
    write (ptr out)
      (cudnnPoolingForward pd (alpha self) ind (read d (ptr input)) (beta self) od) d).

End Pooling.
End Pooling.

Module Activation.
Section Activation.
Context {B : Backend}.

Inductive Func := ReLU | TanH.

Record t := {
  func : Func;
  alpha : spec_float;
  beta : spec_float;
  output : option GPUTensor;
  inout_desc : option TensorDesc }.

Definition init (function : Func) : t :=
  {| func := function; alpha := float_one; beta := float_zero;
     output := None; inout_desc := None |}.

(** [self.output = input]: the output is the input tensor itself. *)
Definition configure (input : GPUTensor) : St (t * Device) unit :=
  set_self (fun c =>
    {| func := func c; alpha := alpha c; beta := beta c;
       output := Some input;
       inout_desc := Some (get_cudnn_tensor_desc input) |}).

(** The call names [CUDNN_ACTIVATION_RELU]; [self.func] is not read. Source
    and destination are both the input buffer. *)
Definition fprop (input : GPUTensor) : St (t * Device) unit :=
  let* self := get_self in
  let* desc := attr (inout_desc self) in
  on_dev (fun d =>
    write (ptr input)
      (cudnnActivationForward CUDNN_ACTIVATION_RELU (alpha self) desc
         (read d (ptr input)) (beta self) desc) d).

End Activation.
End Activation.

Module Dropout.
Section Dropout.
Context {B : Backend}.

Record t := {
  name : string;
  p : json;
  output : option GPUTensor }.

Definition init (p : json) : t :=
  {| name := "Dropout"; p := p; output := None |}.

Definition configure (input : GPUTensor) : St (t * Device) unit :=
  set_self (fun c => {| name := name c; p := p c; output := Some input |}).

(** [input *= self.p]: the input buffer is scaled in place. *)
Definition fprop (input : GPUTensor) : St (t * Device) unit :=
  let* self := get_self in
  let* s := liftR (as_float (p self)) in
  on_dev (fun d => write (ptr input) (map (elem_scale s) (read d (ptr input))) d).

End Dropout.
End Dropout.

Module Linear.
Section Linear.
Context {B : Backend}.

Record t := {
  name : string;
  W : GPUTensor;
  bias : GPUTensor;
  output : option GPUTensor }.

Definition init (files : Files) (config : dict) : St Device t :=
  let* wpath := liftR (param_path config 0) in
  let* W := GPUTensor_load files wpath in
  let* bpath := liftR (param_path config 1) in
  let* bias := GPUTensor_load files bpath in
  ret {| name := "Linear"; W := W; bias := bias; output := None |}.

Definition set_output (o : GPUTensor) (c : t) : t :=
  {| name := name c; W := W c; bias := bias c; output := Some o |}.

Definition set_bias (b : GPUTensor) (c : t) : t :=
  {| name := name c; W := W c; bias := b; output := output c |}.

Definition configure (input : GPUTensor) : St (t * Device) unit :=
  let* self := get_self in
  let elems_per_image := np_prod (shape input) in
  let* in_features := liftR (shape_at (W self) 1) in
  let* _ := py_assert (elems_per_image =? in_features) in
  let* out_features := liftR (shape_at (W self) 0) in
  let* out := on_dev (GPUTensor_new [1; out_features; 1; 1]) in
  set_self (set_output out).

(** [self.bias] does not occur in the forward pass. *)
Definition fprop (input : GPUTensor) : St (t * Device) unit :=
  let* self := get_self in
  let* in_features := liftR (shape_at (W self) 1) in
  let* input_2d := liftR (reshape input [in_features; 1]) in
  let* out := attr (output self) in
  let* out_features := liftR (shape_at (W self) 0) in
  let* output_2d := liftR (reshape out [out_features; 1]) in
  on_dev (cublas_gemm (W self) input_2d output_2d).

End Linear.
End Linear.

Module SoftMax.
Section SoftMax.
Context {B : Backend}.

Inductive Mode := FAST | LOG.

Record t := {
  mode : Mode;
  in_desc : option TensorDesc;
  output : option GPUTensor }.

Definition init (mode : Mode) : t :=
  {| mode := mode; in_desc := None; output := None |}.

Definition configure (input : GPUTensor) : St (t * Device) unit :=
  set_self (fun c =>
    {| mode := mode c; in_desc := Some (get_cudnn_tensor_desc input);
       output := Some input |}).

Definition fprop (input : GPUTensor) : St (t * Device) unit :=
  let* self := get_self in
  let* desc := attr (in_desc self) in
  let* out := attr (output self) in
  on_dev (fun d =>
    write (ptr out)
      (cudnnSoftmaxForward CUDNN_SOFTMAX_LOG CUDNN_SOFTMAX_MODE_CHANNEL
         float_one desc (read d (ptr input)) float_zero desc) d).

End SoftMax.
End SoftMax.

(** ** Dispatch over the six layer classes *)

Section Layer.
Context {B : Backend}.

Inductive Layer :=
  | LConvolution (c : Convolution.t)
  | LPooling (c : Pooling.t)
  | LActivation (c : Activation.t)
  | LDropout (c : Dropout.t)
  | LLinear (c : Linear.t)
  | LSoftMax (c : SoftMax.t).

Inductive LayerKind :=
  KConvolution | KPooling | KActivation | KDropout | KLinear | KSoftMax.

Definition Layer_kind (l : Layer) : LayerKind :=
  match l with
  | LConvolution _ => KConvolution
  | LPooling _ => KPooling
  | LActivation _ => KActivation
  | LDropout _ => KDropout
  | LLinear _ => KLinear
  | LSoftMax _ => KSoftMax
  end.

(** [layer.output] *)
Definition Layer_output (l : Layer) : option GPUTensor :=
  match l with
  | LConvolution c => Convolution.output c
  | LPooling c => Pooling.output c
  | LActivation c => Activation.output c
  | LDropout c => Dropout.output c
  | LLinear c => Linear.output c
  | LSoftMax c => SoftMax.output c
  end.

(** A method of class [T] run on a layer of that class. *)
Definition as_layer {T A} (inj : T -> Layer) (c : T) (m : St (T * Device) A)
  : St (Layer * Device) A :=
  fun s => let '(r, (c', d)) := m (c, snd s) in (r, (inj c', d)).

Definition Layer_configure (input : GPUTensor) : St (Layer * Device) unit :=
  fun s =>
    match fst s with
    | LConvolution c => as_layer LConvolution c (Convolution.configure input) s
    | LPooling c => as_layer LPooling c (Pooling.configure input) s
    | LActivation c => as_layer LActivation c (Activation.configure input) s
    | LDropout c => as_layer LDropout c (Dropout.configure input) s
    | LLinear c => as_layer LLinear c (Linear.configure input) s
    | LSoftMax c => as_layer LSoftMax c (SoftMax.configure input) s
    end.

Definition Layer_fprop (input : GPUTensor) : St (Layer * Device) unit :=
  fun s =>
    match fst s with
    | LConvolution c => as_layer LConvolution c (Convolution.fprop input) s
    | LPooling c => as_layer LPooling c (Pooling.fprop input) s
    | LActivation c => as_layer LActivation c (Activation.fprop input) s
    | LDropout c => as_layer LDropout c (Dropout.fprop input) s
    | LLinear c => as_layer LLinear c (Linear.fprop input) s
    | LSoftMax c => as_layer LSoftMax c (SoftMax.fprop input) s
    end.

End Layer.

(** ** The model graph *)

Module Model.
Section Model.
Context {B : Backend}.

Record t := {
  layers : list Layer;
  input : option GPUTensor;
  name : string }.

(** The parsed model description: [jm["modelName"]] and [jm["layers"]]
    ([None] when the key is missing). Parsing itself is [json.load]. *)
Record ModelFile := {
  modelName : option string;
  jlayers : option (list dict) }.

Definition instantiate_layer (files : Files) (layer : dict) : St Device Layer :=
  let* layer_type := liftR (getitem layer "type") in
  if py_eq_str layer_type "SpatialConvolution" then
    let* c := Convolution.init files layer "Convolution" in ret (LConvolution c)
  else if py_eq_str layer_type "ReLU" then
    ret (LActivation (Activation.init Activation.ReLU))
  else if py_eq_str layer_type "Threshold" then
    ret (LActivation (Activation.init Activation.ReLU))
  else if py_eq_str layer_type "SpatialMaxPooling" then
    let* c := liftR (Pooling.init Pooling.MAX layer "Pooling") in ret (LPooling c)
  else if py_eq_str layer_type "Dropout" then
    let* p := liftR (getitem layer "p") in ret (LDropout (Dropout.init p))
  else if py_eq_str layer_type "Linear" then
    let* c := Linear.init files layer in ret (LLinear c)
  else if py_eq_str layer_type "LogSoftMax" then
    ret (LSoftMax (SoftMax.init SoftMax.LOG))
  else raise RuntimeError.

(** The loop of [__init__] over [jm["layers"]]. *)
Fixpoint build_layers (files : Files) (json_model_file : string) (recs : list dict)
  : St Device (list Layer) :=
  match recs with
  | [] => ret []
  | layer :: rest =>
      let* ty := liftR (getitem layer "type") in
      if py_eq_str ty "View" then build_layers files json_model_file rest
      else
        let layer := <["baseDir" := JStr (os_path_dirname json_model_file)]> layer in
        let* l := instantiate_layer files layer in
        let* ls := build_layers files json_model_file rest in
        ret (l :: ls)
  end.

Definition init (files : Files) (json_model_file : string) (jm : ModelFile)
  : St Device t :=
  let* name := liftR (match modelName jm with Some n => Ok n | None => Raise KeyError end) in
  let* recs := liftR (match jlayers jm with Some l => Ok l | None => Raise KeyError end) in
  let* ls := build_layers files json_model_file recs in
  ret {| layers := ls; input := None; name := name |}.

(** [layers[0].configure(x)], then each [layers[i].configure(layers[i-1].output)]. *)
Fixpoint configure_chain (ls : list Layer) (x : GPUTensor) (d : Device)
  : result unit * (list Layer * Device) :=
  match ls with
  | [] => (Ok tt, ([], d))
  | l :: rest =>
      match Layer_configure x (l, d) with
      | (Raise e, (l', d')) => (Raise e, (l' :: rest, d'))
      | (Ok _, (l', d')) =>
          match rest with
          | [] => (Ok tt, ([l'], d'))
          | _ :: _ =>
              match Layer_output l' with
              | None => (Raise AttributeError, (l' :: rest, d'))
              | Some o =>
                  let '(r, (rest', d'')) := configure_chain rest o d' in
                  (r, (l' :: rest', d''))
              end
          end
      end
  end.

Definition configure (x : GPUTensor) : St (t * Device) unit :=
  fun s =>
    let m := {| layers := layers (fst s); input := Some x; name := name (fst s) |} in
    match layers m with
    | [] => (Ok tt, (m, snd s))
    | _ :: _ =>
        let '(r, (ls, d)) := configure_chain (layers m) x (snd s) in
        (r, ({| layers := ls; input := input m; name := name m |}, d))
    end.

Fixpoint fprop_chain (ls : list Layer) (x : GPUTensor) (d : Device)
  : result unit * (list Layer * Device) :=
  match ls with
  | [] => (Ok tt, ([], d))
  | l :: rest =>
      match Layer_fprop x (l, d) with
      | (Raise e, (l', d')) => (Raise e, (l' :: rest, d'))
      | (Ok _, (l', d')) =>
          match rest with
          | [] => (Ok tt, ([l'], d'))
          | _ :: _ =>
              match Layer_output l' with
              | None => (Raise AttributeError, (l' :: rest, d'))
              | Some o =>
                  let '(r, (rest', d'')) := fprop_chain rest o d' in
                  (r, (l' :: rest', d''))
              end
          end
      end
  end.

(** [self.layers[0]] raises [IndexError] on an empty list; the result is
    [self.layers[-1].output.get()]. *)
Definition evaluate (x : GPUTensor) : St (t * Device) (list elem) :=
  fun s =>
    match layers (fst s) with
    | [] => (Raise IndexError, s)
    | _ :: _ =>
        let '(r, (ls, d)) := fprop_chain (layers (fst s)) x (snd s) in
        let m := {| layers := ls; input := input (fst s); name := name (fst s) |} in
        match r with
        | Raise e => (Raise e, (m, d))
        | Ok _ =>
            match last ls with
            | None => (Raise IndexError, (m, d))
            | Some l =>
                match Layer_output l with
                | None => (Raise AttributeError, (m, d))
                | Some o => (Ok (read d (ptr o)), (m, d))
                end
            end
        end
    end.

End Model.
End Model.

(** ** A backend that computes, for running examples

    Buffers hold binary32 numbers. Scaling, ReLU and the arithmetic of the
    matrix product are computed with [SpecFloat]; the output size of a
    convolution follows cuDNN's documented formula. The kernels that no
    example below runs (convolution, pooling, soft-max, the other activation
    modes) hand back their source data. *)

Definition f32_of_f64 (f : spec_float) : spec_float :=
  match f with
  | S754_finite s m e => binary_round 24 128 s m e
  | _ => f
  end.

Definition relu32 (v : spec_float) : spec_float :=
  if SFltb v (S754_zero false) then S754_zero false else v.

Definition test_backend : Backend := {|
  elem := spec_float;
  elem_zero := S754_zero false;
  elem_add := SFadd 24 128;
  elem_mul := SFmul 24 128;
  elem_scale := fun p v => SFmul 24 128 (f32_of_f64 p) v;
  cudnnGetConvolution2dForwardOutputDim := fun cd ind fd =>
    (nth 0 ind 0, f_k fd,
     1 + (nth 2 ind 0 + 2 * c_pad_h cd - f_h fd) ÷ c_u cd,
     1 + (nth 3 ind 0 + 2 * c_pad_w cd - f_w fd) ÷ c_v cd);
  cudnnGetConvolutionForwardAlgorithm := fun _ _ _ _ => 0;
  cudnnGetConvolutionForwardWorkspaceSize := fun _ _ _ _ _ => 0;
  cudnnConvolutionForward := fun _ _ x _ _ _ _ _ _ => x;
  cudnnPoolingForward := fun _ _ _ x _ _ => x;
  cudnnActivationForward := fun mode _ _ x _ _ =>
    match mode with
    | CUDNN_ACTIVATION_RELU => map relu32 x
    | _ => x
    end;
  cudnnSoftmaxForward := fun _ _ _ _ x _ _ => x |}.

(** Binary32 and binary64 constants of the examples. *)
Definition f32_1 : spec_float := S754_finite false 8388608 (-23).
Definition f32_half : spec_float := S754_finite false 8388608 (-24).
Definition f32_quarter : spec_float := S754_finite false 8388608 (-25).
Definition f64_half : spec_float := S754_finite false 4503599627370496 (-53).

(** * Proofs *)

(** ** Binary64 arithmetic on integers of moderate size

    The value of a finite float is read in the reals; the rounding performed
    by [binary_round_aux] is characterised by the grid of the result's
    exponent, from which follow exactness on integers below [2^53] and the
    error bound used for the quotient. *)

Module F64.
Local Open Scope R_scope.

Definition bpow (e : Z) : R := powerRZ 2 e.

Lemma bpow_pos e : 0 < bpow e.
Proof. apply powerRZ_lt; lra. Qed.

Lemma bpow_add a b : bpow (a + b) = bpow a * bpow b.
Proof. apply powerRZ_add; lra. Qed.

Lemma bpow_succ a : bpow (a + 1) = 2 * bpow a.
Proof. rewrite bpow_add. unfold bpow at 2. simpl. lra. Qed.

Lemma bpow_IZR (n : Z) : (0 <= n)%Z -> bpow n = IZR (2 ^ n).
Proof.
  intros Hn. unfold bpow. rewrite <- (Z2Nat.id n) by lia.
  rewrite <- pow_powerRZ. rewrite <- pow_IZR. reflexivity.
Qed.

Lemma bpow_le a b : (a <= b)%Z -> bpow a <= bpow b.
Proof.
  intros H. replace b with (a + (b - a))%Z by lia. rewrite bpow_add.
  rewrite (bpow_IZR (b - a)) by lia.
  assert (1 <= IZR (2 ^ (b - a))).
  { apply IZR_le. assert (0 < 2 ^ (b - a))%Z by (apply Z.pow_pos_nonneg; lia). lia. }
  pose proof (bpow_pos a). nra.
Qed.

Lemma bpow_lt a b : (a < b)%Z -> bpow a < bpow b.
Proof.
  intros H. replace b with (a + (b - a))%Z by lia. rewrite bpow_add.
  rewrite (bpow_IZR (b - a)) by lia.
  assert (2 <= IZR (2 ^ (b - a))).
  { apply IZR_le. replace (b - a)%Z with (Z.succ (b - a - 1)) by lia.
    rewrite Z.pow_succ_r by lia.
    assert (0 < 2 ^ (b - a - 1))%Z by (apply Z.pow_pos_nonneg; lia). lia. }
  pose proof (bpow_pos a). nra.
Qed.

Lemma bpow_lt_inv a b : bpow a < bpow b -> (a < b)%Z.
Proof.
  intros H. destruct (Z_lt_le_dec a b) as [|Hle]; [assumption|].
  apply bpow_le in Hle. lra.
Qed.

Lemma bpow_le_inv a b : bpow a <= bpow b -> (a <= b)%Z.
Proof.
  intros H. destruct (Z_le_gt_dec a b) as [|Hgt]; [assumption|].
  assert (b < a)%Z as Hlt by lia. apply bpow_lt in Hlt. lra.
Qed.

(** digits *)
Lemma digits2_size p : digits2_pos p = Pos.size p.
Proof. induction p; simpl; congruence. Qed.

Lemma digits_bounds p :
  (2 ^ (Zpos (digits2_pos p) - 1) <= Zpos p < 2 ^ Zpos (digits2_pos p))%Z.
Proof.
  rewrite digits2_size. split.
  - pose proof (Pos.size_le p) as H.
    assert (Zpos (2 ^ Pos.size p) <= Zpos p~0)%Z as H' by exact H.
    rewrite Pos2Z.inj_pow in H'. rewrite (Pos2Z.inj_xO p) in H'.
    replace (Zpos (Pos.size p)) with (Z.succ (Zpos (Pos.size p) - 1)) in H' by lia.
    rewrite Z.pow_succ_r in H' by lia. lia.
  - pose proof (Pos.size_gt p) as H.
    assert (Zpos p < Zpos (2 ^ Pos.size p))%Z as H' by exact H.
    rewrite Pos2Z.inj_pow in H'. exact H'.
Qed.

Lemma digits_unique p k :
  (2 ^ (k - 1) <= Zpos p < 2 ^ k)%Z -> Zpos (digits2_pos p) = k.
Proof.
  intros [H1 H2]. pose proof (digits_bounds p) as [H3 H4].
  assert (0 < k)%Z.
  { destruct (Z_lt_le_dec 0 k); [assumption|].
    assert (k = 0 \/ k < 0)%Z as [->| Hk] by lia; simpl in *; [lia|].
    rewrite (Z.pow_neg_r 2 k) in H2 by lia. lia. }
  assert (Zpos (digits2_pos p) - 1 < k)%Z.
  { apply (Z.pow_lt_mono_r_iff 2); lia. }
  assert (k - 1 < Zpos (digits2_pos p))%Z.
  { apply (Z.pow_lt_mono_r_iff 2); lia. }
  lia.
Qed.

(** locations *)
Definition inb (y : R) (m : Z) (l : location) (e : Z) : Prop :=
  match l with
  | loc_Exact => y = IZR m * bpow e
  | loc_Inexact Lt => IZR m * bpow e < y < (IZR m + /2) * bpow e
  | loc_Inexact Eq => y = (IZR m + /2) * bpow e
  | loc_Inexact Gt => (IZR m + /2) * bpow e < y < (IZR m + 1) * bpow e
  end.

Definition inb_rec (y : R) (mrs : shr_record) (e : Z) : Prop :=
  (0 <= shr_m mrs)%Z /\ inb y (shr_m mrs) (loc_of_shr_record mrs) e.

Lemma loc_of_record m l : loc_of_shr_record (shr_record_of_loc m l) = l.
Proof. destruct l as [|[]]; reflexivity. Qed.

Lemma shr_m_of_loc m l : shr_m (shr_record_of_loc m l) = m.
Proof. destruct l as [|[]]; reflexivity. Qed.

Lemma shr_1_inb y mrs e :
  inb_rec y mrs e ->
  inb_rec y (shr_1 mrs) (e + 1) /\ shr_m (shr_1 mrs) = (shr_m mrs / 2)%Z.
Proof.
  unfold inb_rec. destruct mrs as [m r s]. simpl. intros [Hm H].
  pose proof (bpow_pos e) as Hu.
  destruct m as [|p|p]; [| |lia].
  - split; [|reflexivity]. split; [simpl; lia|].
    destruct r, s; simpl in *; rewrite bpow_succ; lra.
  - destruct p as [p|p|].
    + split.
      * split; [simpl; lia|].
        destruct r, s; unfold inb in *; simpl in *;
          rewrite (Pos2Z.inj_xI p), plus_IZR, mult_IZR in H;
          rewrite bpow_succ; nra.
      * simpl shr_m. rewrite (Pos2Z.inj_xI p).
        apply (Z.div_unique _ _ _ 1); lia.
    + split.
      * split; [simpl; lia|].
        destruct r, s; unfold inb in *; simpl in *;
          rewrite (Pos2Z.inj_xO p), mult_IZR in H;
          rewrite bpow_succ; nra.
      * simpl shr_m. rewrite (Pos2Z.inj_xO p).
        apply (Z.div_unique _ _ _ 0); lia.
    + split; [|reflexivity]. split; [simpl; lia|].
      destruct r, s; unfold inb in *; simpl in *; rewrite bpow_succ; nra.
Qed.

Lemma iter_shr_inb p : forall y mrs e,
  inb_rec y mrs e ->
  inb_rec y (SpecFloat.iter_pos shr_1 p mrs) (e + Zpos p) /\
  shr_m (SpecFloat.iter_pos shr_1 p mrs) = (shr_m mrs / 2 ^ Zpos p)%Z.
Proof.
  induction p as [p IH|p IH|]; intros y mrs e H; simpl SpecFloat.iter_pos.
  - destruct (shr_1_inb _ _ _ H) as [H1 E1].
    destruct (IH _ _ _ H1) as [H2 E2].
    destruct (IH _ _ _ H2) as [H3 E3].
    split.
    + replace (e + Zpos p~1)%Z with (e + 1 + Zpos p + Zpos p)%Z by lia. exact H3.
    + rewrite E3, E2, E1.
      rewrite !Z.div_div by (try apply Z.pow_pos_nonneg; lia).
      f_equal. rewrite (Pos2Z.inj_xI p).
      replace (2 * Zpos p + 1)%Z with (1 + Zpos p + Zpos p)%Z by lia.
      rewrite !Z.pow_add_r by lia. change (2 ^ 1)%Z with 2%Z. ring.
  - destruct (IH _ _ _ H) as [H2 E2].
    destruct (IH _ _ _ H2) as [H3 E3].
    split.
    + replace (e + Zpos p~0)%Z with (e + Zpos p + Zpos p)%Z by lia. exact H3.
    + rewrite E3, E2.
      rewrite !Z.div_div by (try apply Z.pow_pos_nonneg; lia).
      f_equal. rewrite (Pos2Z.inj_xO p).
      replace (2 * Zpos p)%Z with (Zpos p + Zpos p)%Z by lia.
      rewrite !Z.pow_add_r by lia. reflexivity.
  - destruct (shr_1_inb _ _ _ H) as [H1 E1]. split; [exact H1|].
    rewrite E1. reflexivity.
Qed.

(** rounding *)
Lemma fexp_normal t : (-1021 <= t)%Z -> fexp prec emax t = (t - 53)%Z.
Proof. unfold fexp, emin, prec, emax. lia. Qed.

Lemma shr_fexp_correct y mx ex lx :
  (0 < mx)%Z -> (53 <= Zdigits2 mx)%Z -> (-1021 <= Zdigits2 mx + ex)%Z ->
  inb y mx lx ex ->
  exists mrs,
    shr_fexp prec emax mx ex lx = (mrs, (Zdigits2 mx + ex - 53)%Z) /\
    inb_rec y mrs (Zdigits2 mx + ex - 53) /\
    (2 ^ 52 <= shr_m mrs < 2 ^ 53)%Z.
Proof.
  intros Hpos Hd Hn Hin.
  destruct mx as [|p|p]; try lia. simpl Zdigits2 in *.
  pose proof (digits_bounds p) as [Hlo Hhi].
  set (d := Zpos (digits2_pos p)) in *.
  unfold shr_fexp. simpl Zdigits2. fold d. rewrite fexp_normal by lia.
  assert (Hrec : inb_rec y (shr_record_of_loc (Zpos p) lx) ex).
  { split; rewrite ?shr_m_of_loc, ?loc_of_record; [lia|exact Hin]. }
  destruct (Z.eq_dec d 53%Z) as [E|NE].
  - exists (shr_record_of_loc (Zpos p) lx).
    replace (d + ex - 53 - ex)%Z with 0%Z by lia. simpl shr.
    replace (d + ex - 53)%Z with ex by lia.
    rewrite shr_m_of_loc. rewrite E in Hlo, Hhi.
    split; [reflexivity|]. split; [exact Hrec|]. split; [exact Hlo|exact Hhi].
  - assert (exists q, (d + ex - 53 - ex = Zpos q)%Z) as [q Hq].
    { destruct (d + ex - 53 - ex)%Z as [|q|q] eqn:E; try lia. eauto. }
    rewrite Hq. simpl shr.
    destruct (iter_shr_inb q _ _ _ Hrec) as [H1 E1].
    exists (SpecFloat.iter_pos shr_1 q (shr_record_of_loc (Zpos p) lx)).
    replace (ex + Zpos q)%Z with (d + ex - 53)%Z in * by lia.
    split; [reflexivity|]. split; [exact H1|].
    rewrite E1, shr_m_of_loc.
    assert (Zpos q = d - 53)%Z as -> by lia.
    assert (0 < 2 ^ (d - 53))%Z by (apply Z.pow_pos_nonneg; lia).
    assert (2 ^ (d - 1) = 2 ^ 52 * 2 ^ (d - 53))%Z as E2.
    { rewrite <- Z.pow_add_r by lia. f_equal. lia. }
    assert (2 ^ d = 2 ^ 53 * 2 ^ (d - 53))%Z as E3.
    { rewrite <- Z.pow_add_r by lia. f_equal. lia. }
    split.
    + apply Z.div_le_lower_bound; lia.
    + apply Z.div_lt_upper_bound; lia.
Qed.

(** [rnd_spec y v e]: [v] is one of the two neighbours of [y] on the grid of
    step [2^e], at distance at most half a step, and [y] itself when [y] is on
    the grid. *)
Definition rnd_spec (y v : R) (e : Z) : Prop :=
  exists k : Z,
    (2 ^ 52 <= k)%Z /\
    IZR k * bpow e <= y < (IZR k + 1) * bpow e /\
    (v = IZR k * bpow e \/ v = (IZR k + 1) * bpow e) /\
    - (bpow e / 2) <= v - y <= bpow e / 2 /\
    (y = IZR k * bpow e -> v = y).

Lemma bra_correct y mx ex lx :
  (0 < mx)%Z -> (53 <= Zdigits2 mx)%Z ->
  (-1021 <= Zdigits2 mx + ex <= 1023)%Z ->
  inb y mx lx ex ->
  exists m e,
    binary_round_aux prec emax false mx ex lx = S754_finite false m e /\
    (2 ^ 52 <= Zpos m < 2 ^ 53)%Z /\
    (Zdigits2 mx + ex - 53 <= e <= Zdigits2 mx + ex - 52)%Z /\
    rnd_spec y (IZR (Zpos m) * bpow e) (Zdigits2 mx + ex - 53).
Proof.
  intros Hpos Hd Hn Hin.
  destruct (shr_fexp_correct y mx ex lx Hpos Hd ltac:(lia) Hin) as (mrs & Hs & [Hm0 Hi] & Hm).
  set (e1 := (Zdigits2 mx + ex - 53)%Z) in *.
  unfold binary_round_aux. rewrite Hs.
  set (m1 := shr_m mrs) in *. set (l1 := loc_of_shr_record mrs) in *.
  pose proof (bpow_pos e1) as Hu.
  assert (Hfin : forall m2 : Z, (2 ^ 52 <= m2 <= 2 ^ 53)%Z ->
     exists m e,
       (let '(mrs'', e'') := shr_fexp prec emax m2 e1 loc_Exact in
        match shr_m mrs'' with
        | 0%Z => S754_zero false
        | Zpos m => if (e'' <=? emax - prec)%Z then S754_finite false m e'' else S754_infinity false
        | Zneg _ => S754_nan
        end) = S754_finite false m e /\
       (2 ^ 52 <= Zpos m < 2 ^ 53)%Z /\ (e1 <= e <= e1 + 1)%Z /\
       IZR (Zpos m) * bpow e = IZR m2 * bpow e1).
  { intros m2 Hm2. destruct (Z.eq_dec m2 (2 ^ 53)%Z) as [->|NE].
    - unfold shr_fexp. change (Zdigits2 (2 ^ 53)) with 54%Z.
      rewrite fexp_normal by lia.
      replace (54 + e1 - 53 - e1)%Z with 1%Z by lia. simpl.
      exists (4503599627370496%positive), (e1 + 1)%Z.
      destruct (Z.leb_spec (e1 + 1) (emax - prec)) as [_|Hbad];
        [|unfold emax, prec in Hbad; lia].
      split; [reflexivity|]. split; [lia|]. split; [lia|].
      rewrite bpow_succ. lra.
    - destruct m2 as [|p2|p2]; try lia.
      assert (Zpos (digits2_pos p2) = 53)%Z as Hd2 by (apply digits_unique; lia).
      unfold shr_fexp. simpl Zdigits2. rewrite Hd2.
      rewrite fexp_normal by lia. replace (53 + e1 - 53 - e1)%Z with 0%Z by lia.
      simpl. exists p2, e1.
      destruct (Z.leb_spec e1 (emax - prec)) as [_|Hbad];
        [|unfold emax, prec in Hbad; lia].
      split; [reflexivity|]. split; [lia|]. split; [lia|]. reflexivity. }
  assert (Hr : (round_nearest_even m1 l1 = m1 \/ round_nearest_even m1 l1 = m1 + 1)%Z).
  { destruct l1 as [|[]]; simpl; auto. destruct (Z.even m1); auto. }
  destruct (Hfin (round_nearest_even m1 l1) ltac:(lia)) as (m & e & E & Hmb & He & Hv).
  exists m, e. split; [exact E|]. split; [exact Hmb|]. split; [lia|].
  rewrite Hv. exists m1. split; [lia|].
  destruct l1 as [|[]]; simpl in Hi |- *.
  - split; [lra|]. split; [left; reflexivity|].
    split; [lra|]. intros; lra.
  - destruct (Z.even m1).
    + split; [lra|]. split; [left; reflexivity|].
      split; [lra|]. intros; lra.
    + rewrite plus_IZR. split; [lra|]. split; [right; reflexivity|].
      split; [lra|]. intros; lra.
  - split; [lra|]. split; [left; reflexivity|].
    split; [lra|]. intros; lra.
  - rewrite plus_IZR. split; [lra|]. split; [right; reflexivity|].
    split; [lra|]. intros; lra.
Qed.

Lemma rnd_rel y v e :
  rnd_spec y v e -> - (y / IZR (2 ^ 53)) <= v - y <= y / IZR (2 ^ 53).
Proof.
  intros (k & Hk & Hy & _ & Hab & _).
  pose proof (bpow_pos e) as Hu.
  apply IZR_le in Hk. change (IZR (2 ^ 52)) with 4503599627370496 in Hk.
  change (IZR (2 ^ 53)) with 9007199254740992.
  assert (4503599627370496 * bpow e <= y) by nra. lra.
Qed.

Lemma rnd_exp y v e : rnd_spec y v e -> y < bpow 53 -> (e <= 0)%Z.
Proof.
  intros (k & Hk & Hy & _) Hlt.
  pose proof (bpow_pos e) as Hu.
  apply IZR_le in Hk. rewrite <- (bpow_IZR 52) in Hk by lia.
  assert (bpow (52 + e) < bpow 53) as H.
  { rewrite bpow_add. nra. }
  apply bpow_lt_inv in H. lia.
Qed.

Lemma IZR_grid (N e : Z) : (e <= 0)%Z -> IZR N = IZR (N * 2 ^ (- e)) * bpow e.
Proof.
  intros He. rewrite mult_IZR, <- bpow_IZR by lia.
  rewrite Rmult_assoc, <- bpow_add. replace (- e + e)%Z with 0%Z by lia.
  unfold bpow; simpl; ring.
Qed.

Lemma rnd_grid y v e :
  rnd_spec y v e -> (e <= 0)%Z ->
  forall N : Z, (IZR N <= y -> IZR N <= v) /\ (y <= IZR N -> v <= IZR N).
Proof.
  intros (k & Hk & Hy & Hv & _ & Hex) He N.
  pose proof (bpow_pos e) as Hu.
  rewrite (IZR_grid N e He). set (K := (N * 2 ^ (- e))%Z).
  split; intros H.
  - assert (K < k + 1)%Z as HK.
    { apply lt_IZR. rewrite plus_IZR. nra. }
    assert (IZR K <= IZR k) by (apply IZR_le; lia).
    destruct Hv as [-> | ->]; nra.
  - destruct Hv as [-> | ->]; [nra|].
    destruct (Req_dec y (IZR k * bpow e)) as [E|NE].
    + specialize (Hex E). nra.
    + assert (k < K)%Z as HK.
      { apply lt_IZR. nra. }
      assert (IZR k + 1 <= IZR K) by (rewrite <- plus_IZR; apply IZR_le; lia).
      nra.
Qed.

(** positive normal binary64 numbers *)
Definition FV (f : spec_float) (v : R) : Prop :=
  exists m e, f = S754_finite false m e /\
    (2 ^ 52 <= Zpos m < 2 ^ 53)%Z /\ v = IZR (Zpos m) * bpow e.

Definition rounded (y : R) (f : spec_float) (v : R) : Prop :=
  FV f v /\ exists e, rnd_spec y v e.

Lemma iter_xO mx d : Zpos (Pos.iter xO mx d) = (Zpos mx * 2 ^ Zpos d)%Z.
Proof.
  induction d as [|d IH] using Pos.peano_ind.
  - simpl. lia.
  - rewrite Pos.iter_succ, Pos2Z.inj_xO, IH, Pos2Z.inj_succ, Z.pow_succ_r by lia. ring.
Qed.

Lemma shl_align_correct mx ex ex' :
  exists mz ez, shl_align mx ex ex' = (mz, ez) /\
    ez = Z.min ex ex' /\ Zpos mz = (Zpos mx * 2 ^ (ex - ez))%Z.
Proof.
  unfold shl_align. destruct (ex' - ex)%Z as [|d|d] eqn:E.
  - exists mx, ex. split; [reflexivity|]. split; [lia|].
    rewrite Z.sub_diag. simpl. lia.
  - exists mx, ex. split; [reflexivity|]. split; [lia|].
    rewrite Z.sub_diag. simpl. lia.
  - exists (Pos.iter xO mx d), ex'. split; [reflexivity|]. split; [lia|].
    rewrite iter_xO. f_equal. f_equal. lia.
Qed.

Lemma digits_shift p q k :
  (0 <= k)%Z -> Zpos q = (Zpos p * 2 ^ k)%Z ->
  Zpos (digits2_pos q) = (Zpos (digits2_pos p) + k)%Z.
Proof.
  intros Hk E. apply digits_unique. rewrite E.
  pose proof (digits_bounds p) as [H1 H2].
  assert (0 < 2 ^ k)%Z by (apply Z.pow_pos_nonneg; lia).
  replace (Zpos (digits2_pos p) + k - 1)%Z with ((Zpos (digits2_pos p) - 1) + k)%Z by lia.
  rewrite !Z.pow_add_r by lia. nia.
Qed.

Lemma val_digits_lo p e y : IZR (Zpos p) * bpow e <= y -> bpow (Zpos (digits2_pos p) - 1 + e) <= y.
Proof.
  intros H. pose proof (digits_bounds p) as [H1 _].
  apply IZR_le in H1. rewrite <- bpow_IZR in H1 by lia.
  rewrite bpow_add. pose proof (bpow_pos e). nra.
Qed.

Lemma val_digits_hi p e y : y < (IZR (Zpos p) + 1) * bpow e -> y < bpow (Zpos (digits2_pos p) + e).
Proof.
  intros H. pose proof (digits_bounds p) as [_ H2].
  assert (Zpos p + 1 <= 2 ^ Zpos (digits2_pos p))%Z as H3 by lia.
  apply IZR_le in H3. rewrite plus_IZR, <- bpow_IZR in H3 by lia.
  rewrite bpow_add. pose proof (bpow_pos e). nra.
Qed.

Lemma inb_bounds y m l e : inb y m l e -> IZR m * bpow e <= y < (IZR m + 1) * bpow e.
Proof.
  pose proof (bpow_pos e). destruct l as [|[]]; simpl; intros; nra.
Qed.

(** rounding with bounds stated on the value *)
Lemma bra_val y p ex lx :
  (53 <= Zpos (digits2_pos p))%Z -> inb y (Zpos p) lx ex ->
  bpow (-1021) <= y < bpow 1023 ->
  exists v, rounded y (binary_round_aux prec emax false (Zpos p) ex lx) v.
Proof.
  intros Hd Hin [Hlo Hhi].
  pose proof (inb_bounds _ _ _ _ Hin) as [Hb1 Hb2].
  apply val_digits_lo in Hb1. apply val_digits_hi in Hb2.
  assert (Zpos (digits2_pos p) - 1 + ex < 1023)%Z by (apply bpow_lt_inv; lra).
  assert (-1021 < Zpos (digits2_pos p) + ex)%Z by (apply bpow_lt_inv; lra).
  destruct (bra_correct y (Zpos p) ex lx) as (m & e & E & Hm & He & Hr);
    [lia|exact Hd|simpl Zdigits2; lia|exact Hin|].
  exists (IZR (Zpos m) * bpow e). split.
  - exists m, e. auto.
  - eauto.
Qed.

Lemma binary_round_correct mx ex :
  bpow (-1021) <= IZR (Zpos mx) * bpow ex < bpow 1023 ->
  exists v, rounded (IZR (Zpos mx) * bpow ex) (binary_round prec emax false mx ex) v.
Proof.
  intros Hy. set (y := IZR (Zpos mx) * bpow ex) in *.
  assert (-1021 < Zpos (digits2_pos mx) + ex)%Z as Hn.
  { apply bpow_lt_inv. eapply Rle_lt_trans; [apply Hy|].
    apply val_digits_hi. unfold y. pose proof (bpow_pos ex). lra. }
  unfold binary_round. rewrite fexp_normal by lia.
  destruct (shl_align_correct mx ex (Zpos (digits2_pos mx) + ex - 53)) as (mz & ez & -> & Hez & Hmz).
  assert (Zpos (digits2_pos mz) = Zpos (digits2_pos mx) + (ex - ez))%Z as Hdz.
  { apply digits_shift; [lia|exact Hmz]. }
  apply bra_val; [lia| |exact Hy].
  simpl. unfold y. rewrite Hmz, mult_IZR, <- bpow_IZR by lia.
  rewrite Rmult_assoc, <- bpow_add. f_equal. f_equal. lia.
Qed.

Lemma rounded_int (N : Z) f v :
  rounded (IZR N) f v -> IZR N < bpow 53 -> v = IZR N.
Proof.
  intros [_ (e & Hr)] Hlt.
  pose proof (rnd_exp _ _ _ Hr Hlt) as He.
  destruct (rnd_grid _ _ _ Hr He N) as [H1 H2].
  apply Rle_antisym; [apply H2|apply H1]; lra.
Qed.

Lemma rounded_le y f v (N : Z) :
  rounded y f v -> y < bpow 53 -> y <= IZR N -> v <= IZR N.
Proof.
  intros [_ (e & Hr)] Hlt. apply (rnd_grid _ _ _ Hr (rnd_exp _ _ _ Hr Hlt) N).
Qed.

Lemma rounded_ge y f v (N : Z) :
  rounded y f v -> y < bpow 53 -> IZR N <= y -> IZR N <= v.
Proof.
  intros [_ (e & Hr)] Hlt. apply (rnd_grid _ _ _ Hr (rnd_exp _ _ _ Hr Hlt) N).
Qed.

Lemma rounded_err y f v :
  rounded y f v -> - (y / IZR (2 ^ 53)) <= v - y <= y / IZR (2 ^ 53).
Proof. intros [_ (e & Hr)]. exact (rnd_rel _ _ _ Hr). Qed.

(** operations *)
Lemma SFmul_correct x y vx vy :
  FV x vx -> FV y vy -> bpow (-1021) <= vx * vy < bpow 1023 ->
  exists v, rounded (vx * vy) (SFmul prec emax x y) v.
Proof.
  intros (mx & ex & -> & Hmx & ->) (my & ey & -> & Hmy & ->) Hb.
  simpl. apply bra_val; [| |exact Hb].
  - pose proof (digits_bounds (mx * my)) as [_ H].
    assert (2 ^ 52 < 2 ^ Zpos (digits2_pos (mx * my)))%Z as H'.
    { rewrite Pos2Z.inj_mul in H. nia. }
    apply Z.pow_lt_mono_r_iff in H'; lia.
  - simpl. rewrite Pos2Z.inj_mul, mult_IZR, bpow_add. ring.
Qed.

Lemma SFadd_correct x y vx vy :
  FV x vx -> FV y vy -> bpow (-1021) <= vx + vy < bpow 1023 ->
  exists v, rounded (vx + vy) (SFadd prec emax x y) v.
Proof.
  intros (mx & ex & -> & Hmx & ->) (my & ey & -> & Hmy & ->) Hb.
  simpl SFadd.
  destruct (shl_align_correct mx ex (Z.min ex ey)) as (ax & ezx & -> & Hzx & Hax).
  destruct (shl_align_correct my ey (Z.min ex ey)) as (ay & ezy & -> & Hzy & Hay).
  simpl. 
  assert (E : IZR (Zpos (ax + ay)) * bpow (Z.min ex ey) =
              IZR (Zpos mx) * bpow ex + IZR (Zpos my) * bpow ey).
  { rewrite Pos2Z.inj_add, plus_IZR, Hax, Hay, !mult_IZR, <- !bpow_IZR by lia.
    rewrite Rmult_plus_distr_r, !Rmult_assoc, <- !bpow_add.
    f_equal; f_equal; f_equal; lia. }
  rewrite <- E in *. apply binary_round_correct. exact Hb.
Qed.

Lemma SFsub_correct x y vx vy :
  FV x vx -> FV y vy -> vy < vx -> bpow (-1021) <= vx - vy < bpow 1023 ->
  exists v, rounded (vx - vy) (SFsub prec emax x y) v.
Proof.
  intros (mx & ex & -> & Hmx & ->) (my & ey & -> & Hmy & ->) Hlt Hb.
  simpl SFsub.
  destruct (shl_align_correct mx ex (Z.min ex ey)) as (ax & ezx & -> & Hzx & Hax).
  destruct (shl_align_correct my ey (Z.min ex ey)) as (ay & ezy & -> & Hzy & Hay).
  simpl fst. unfold cond_Zopp.
  assert (E : IZR (Zpos ax - Zpos ay) * bpow (Z.min ex ey) =
              IZR (Zpos mx) * bpow ex - IZR (Zpos my) * bpow ey).
  { rewrite minus_IZR, Hax, Hay, !mult_IZR, <- !bpow_IZR by lia.
    rewrite Rmult_minus_distr_r, !Rmult_assoc, <- !bpow_add.
    f_equal; f_equal; f_equal; lia. }
  destruct (Zpos ax - Zpos ay)%Z as [|d|d] eqn:Ed.
  - exfalso. simpl in E. lra.
  - simpl binary_normalize. rewrite <- E in *. apply binary_round_correct. exact Hb.
  - exfalso. pose proof (bpow_pos (Z.min ex ey)).
    assert (IZR (Zneg d) < 0) by (apply IZR_lt; lia). nra.
Qed.

Lemma SFsub_self x y v :
  FV x v -> FV y v -> SFsub prec emax x y = S754_zero false.
Proof.
  intros (mx & ex & -> & Hmx & ->) (my & ey & -> & Hmy & E).
  simpl SFsub.
  destruct (shl_align_correct mx ex (Z.min ex ey)) as (ax & ezx & -> & Hzx & Hax).
  destruct (shl_align_correct my ey (Z.min ex ey)) as (ay & ezy & -> & Hzy & Hay).
  simpl fst. unfold cond_Zopp.
  assert (E' : IZR (Zpos ax - Zpos ay) * bpow (Z.min ex ey) = 0).
  { rewrite minus_IZR, Hax, Hay, !mult_IZR, <- !bpow_IZR by lia.
    rewrite Rmult_minus_distr_r, !Rmult_assoc, <- !bpow_add.
    replace (ex - ezx + Z.min ex ey)%Z with ex by lia.
    replace (ey - ezy + Z.min ex ey)%Z with ey by lia. lra. }
  pose proof (bpow_pos (Z.min ex ey)).
  assert (IZR (Zpos ax - Zpos ay) = 0) as E0 by nra.
  apply eq_IZR in E0. rewrite E0. reflexivity.
Qed.

Lemma new_location_correct (m2 r q e : Z) :
  (0 <= r < m2)%Z ->
  inb ((IZR q + IZR r / IZR m2) * bpow e) q (new_location m2 r) e.
Proof.
  intros Hr. pose proof (bpow_pos e) as Hu.
  assert (0 < IZR m2) as Hm2 by (apply IZR_lt; lia).
  set (t := IZR r / IZR m2).
  assert (Ht : t * IZR m2 = IZR r) by (unfold t; field; lra).
  clearbody t. unfold new_location.
  assert (Hodd : IntDef.Z.even m2 = false -> (2 * r <> m2)%Z).
  { intros Hev <-. change (Z.even (2 * r) = false) in Hev.
    rewrite Z.even_mul in Hev. discriminate. }
  destruct (IntDef.Z.even m2);
    cbv beta delta [new_location_even new_location_odd];
    (destruct (Z.eqb_spec r 0) as [->|Hr0];
     [assert (t = 0) as -> by nra; cbv beta iota delta [inb]; ring|]).
  - assert (0 < IZR r) as Hrp by (apply IZR_lt; lia).
    destruct (Z.compare_spec (2 * r) m2) as [E|L|G]; cbv beta iota delta [inb].
    + apply (f_equal IZR) in E. rewrite mult_IZR in E.
      assert (Et : t = (/ 2)%R) by nra. rewrite Et. reflexivity.
    + apply IZR_lt in L. rewrite mult_IZR in L. nra.
    + apply IZR_lt in G. rewrite mult_IZR in G.
      destruct Hr as [_ Hr]. apply IZR_lt in Hr. nra.
  - assert (0 < IZR r) as Hrp by (apply IZR_lt; lia).
    specialize (Hodd eq_refl).
    destruct Hr as [_ Hr']. apply IZR_lt in Hr'.
    destruct (Z.compare_spec (2 * r + 1) m2) as [E|L|G]; cbv beta iota delta [inb].
    + assert (2 * r < m2)%Z as L by lia.
      apply IZR_lt in L. rewrite mult_IZR in L. nra.
    + assert (2 * r < m2)%Z as L' by lia.
      apply IZR_lt in L'. rewrite mult_IZR in L'. nra.
    + assert (m2 < 2 * r)%Z as G' by lia.
      apply IZR_lt in G'. rewrite mult_IZR in G'. nra.
Qed.

Lemma div_core_correct m1 e1 m2 e2 :
  (-1021 <= Zpos (digits2_pos m1) + e1 - (Zpos (digits2_pos m2) + e2))%Z ->
  exists q e' r,
    SFdiv_core_binary prec emax (Zpos m1) e1 (Zpos m2) e2 =
      (q, e', new_location (Zpos m2) r) /\
    (2 ^ 52 <= q)%Z /\ (0 <= r < Zpos m2)%Z /\ (e' <= e1 - e2)%Z /\
    (Zpos m1 * 2 ^ (e1 - e2 - e') = Zpos m2 * q + r)%Z.
Proof.
  intros Ht. unfold SFdiv_core_binary. simpl Zdigits2.
  set (d1 := Zpos (digits2_pos m1)) in *. set (d2 := Zpos (digits2_pos m2)) in *.
  rewrite fexp_normal by lia.
  set (e' := Z.min (d1 + e1 - (d2 + e2) - 53) (e1 - e2)).
  set (s := (e1 - e2 - e')%Z).
  assert (0 <= s)%Z as Hs by lia.
  assert (53 + d2 - d1 <= s)%Z as Hs' by lia.
  assert (Hm' : match s with
                | 0%Z => Zpos m1
                | Zpos _ => Z.shiftl (Zpos m1) s
                | Zneg _ => 0%Z
                end = (Zpos m1 * 2 ^ s)%Z).
  { destruct s as [|p|p] eqn:Es.
    - simpl. lia.
    - rewrite Z.shiftl_mul_pow2 by lia. reflexivity.
    - lia. }
  rewrite Hm'. set (m' := (Zpos m1 * 2 ^ s)%Z).
  pose proof (Z.div_mod m' (Zpos m2) ltac:(lia)) as Hdm.
  pose proof (Z.mod_pos_bound m' (Zpos m2) ltac:(lia)) as Hmod.
  unfold Z.div, Z.modulo in Hdm, Hmod.
  destruct (Z.div_eucl m' (Zpos m2)) as [q r].
  exists q, e', r. split; [reflexivity|].
  split; [|split; [exact Hmod|split; [lia|exact Hdm]]].
  pose proof (digits_bounds m1) as [H1 _]. pose proof (digits_bounds m2) as [_ H2].
  fold d1 in H1. fold d2 in H2.
  assert (0 < 2 ^ s)%Z by (apply Z.pow_pos_nonneg; lia).
  assert (2 ^ 52 * 2 ^ d2 <= 2 ^ (d1 - 1) * 2 ^ s)%Z as Hp.
  { rewrite <- !Z.pow_add_r by lia. apply Z.pow_le_mono_r; lia. }
  assert (2 ^ 52 * Zpos m2 < m')%Z as Hlt by (unfold m'; nia).
  assert (0 < 2 ^ 52)%Z by lia.
  nia.
Qed.

Lemma SFdiv_correct m1 e1 m2 e2 :
  let v1 := IZR (Zpos m1) * bpow e1 in
  let v2 := IZR (Zpos m2) * bpow e2 in
  bpow (-1000) <= v1 / v2 < bpow 1000 ->
  exists v, rounded (v1 / v2)
    (SFdiv prec emax (S754_finite false m1 e1) (S754_finite false m2 e2)) v.
Proof.
  intros v1 v2 Hb.
  pose proof (bpow_pos e1) as Hu1. pose proof (bpow_pos e2) as Hu2.
  assert (0 < IZR (Zpos m1)) as Hp1 by (apply IZR_lt; lia).
  assert (0 < IZR (Zpos m2)) as Hp2 by (apply IZR_lt; lia).
  assert (0 < v2) as Hv2 by (unfold v2; nra).
  assert (0 < v1) as Hv1 by (unfold v1; nra).
  set (d1 := Zpos (digits2_pos m1)). set (d2 := Zpos (digits2_pos m2)).
  assert (Hv1hi : v1 < bpow (d1 + e1)).
  { apply val_digits_hi. unfold v1. lra. }
  assert (Hv2lo : bpow (d2 - 1 + e2) <= v2).
  { apply val_digits_lo. unfold v2. lra. }
  set (y := v1 / v2) in *.
  assert (Hy : y * v2 = v1) by (unfold y; field; lra).
  assert (Ht : (-1021 <= d1 + e1 - (d2 + e2))%Z).
  { assert (bpow (-1000) < bpow (d1 + e1 - (d2 + e2) + 1)) as H.
    { eapply Rle_lt_trans; [apply Hb|].
      pose proof (bpow_pos (d2 - 1 + e2)) as Hq.
      pose proof (bpow_pos (d1 + e1 - (d2 + e2) + 1)) as Hq'.
      assert (bpow (d1 + e1) = bpow (d1 + e1 - (d2 + e2) + 1) * bpow (d2 - 1 + e2)) as E.
      { rewrite <- bpow_add. f_equal. lia. }
      assert (0 < y) by (pose proof (bpow_pos (-1000)); lra).
      clearbody y v1 v2. nra. }
    apply bpow_lt_inv in H. lia. }
  destruct (div_core_correct m1 e1 m2 e2 Ht) as (q & e' & r & Ec & Hq & Hr & He' & Hdiv).
  unfold SFdiv. rewrite Ec. simpl xorb.
  destruct q as [|qp|qp]; try lia.
  apply bra_val.
  - pose proof (digits_bounds qp) as [_ H].
    assert (2 ^ 52 < 2 ^ Zpos (digits2_pos qp))%Z as H' by lia.
    apply Z.pow_lt_mono_r_iff in H'; lia.
  - replace y with ((IZR (Zpos qp) + IZR r / IZR (Zpos m2)) * bpow e');
      [apply new_location_correct; exact Hr|].
    apply (f_equal IZR) in Hdiv.
    rewrite plus_IZR, !mult_IZR, <- bpow_IZR in Hdiv by lia.
    assert (bpow e1 = bpow (e1 - e2 - e') * bpow e2 * bpow e') as E.
    { rewrite <- !bpow_add. f_equal. lia. }
    unfold y, v1, v2. rewrite E.
    pose proof (bpow_pos (e1 - e2 - e')) as Hs.
    replace (IZR (Z.pos m1) * (bpow (e1 - e2 - e') * bpow e2 * bpow e') /
             (IZR (Z.pos m2) * bpow e2))
      with ((IZR (Z.pos m1) * bpow (e1 - e2 - e')) * bpow e' / IZR (Z.pos m2))
      by (field; lra).
    rewrite Hdiv. field. lra.
  - destruct Hb as [Hb1 Hb2]. split.
    + eapply Rle_trans; [|exact Hb1]. apply bpow_le. lia.
    + eapply Rlt_le_trans; [exact Hb2|]. apply bpow_le. lia.
Qed.

(** integers held in binary64 *)
Definition Fint (f : spec_float) (n : Z) : Prop :=
  (n = 0%Z /\ f = S754_zero false) \/ ((0 < n)%Z /\ FV f (IZR n)).

Lemma bpow_53 : bpow 53 = IZR (2 ^ 53).
Proof. apply bpow_IZR. lia. Qed.

Lemma int_range (n : Z) :
  (0 < n < 2 ^ 53)%Z -> bpow (-1021) <= IZR n < bpow 1023.
Proof.
  intros [H1 H2]. split.
  - apply Rle_trans with (bpow 0); [apply bpow_le; lia|].
    change (bpow 0) with 1. apply IZR_le. lia.
  - apply Rlt_le_trans with (bpow 53); [rewrite bpow_53; apply IZR_lt; lia|].
    apply bpow_le. lia.
Qed.

Lemma int_lt_53 (n : Z) : (n < 2 ^ 53)%Z -> IZR n < bpow 53.
Proof. intros. rewrite bpow_53. apply IZR_lt. assumption. Qed.

Lemma rounded_Fint (n : Z) f v :
  (0 < n < 2 ^ 53)%Z -> rounded (IZR n) f v -> Fint f n.
Proof.
  intros Hn Hr. right. split; [lia|].
  rewrite <- (rounded_int n f v Hr (int_lt_53 n ltac:(lia))). apply Hr.
Qed.

Lemma FV_one : FV float_one 1.
Proof.
  exists 4503599627370496%positive, (-52)%Z. split; [reflexivity|]. split; [lia|].
  unfold bpow. simpl. lra.
Qed.

Lemma float_of_int_Fint (n : Z) :
  (0 <= n < 2 ^ 53)%Z -> exists f, float_of_int n = Ok f /\ Fint f n.
Proof.
  intros Hn. unfold float_of_int. destruct n as [|p|p]; try lia.
  - exists (S754_zero false). split; [reflexivity|]. left. auto.
  - simpl binary_normalize.
    destruct (binary_round_correct p 0) as (v & Hr).
    { change (bpow 0) with 1. rewrite Rmult_1_r. apply int_range. lia. }
    change (bpow 0) with 1 in Hr. rewrite Rmult_1_r in Hr.
    pose proof (rounded_Fint (Zpos p) _ _ ltac:(lia) Hr) as HF.
    destruct Hr as [(m & e & E & _) _]. rewrite E in *.
    eexists. split; [reflexivity|exact HF].
Qed.

Lemma Fint_mul_one f n :
  Fint f n -> (n < 2 ^ 53)%Z -> Fint (SF64mul float_one f) n.
Proof.
  intros [[-> ->]|[Hn HF]] Hb.
  - left. auto.
  - destruct (SFmul_correct _ _ _ _ FV_one HF) as (v & Hr).
    { rewrite Rmult_1_l. apply int_range. lia. }
    rewrite Rmult_1_l in Hr. exact (rounded_Fint n _ _ ltac:(lia) Hr).
Qed.

Lemma Fint_add a b n m :
  Fint a n -> Fint b m -> (n + m < 2 ^ 53)%Z -> Fint (SF64add a b) (n + m).
Proof.
  intros [[-> ->]|[Hn Ha]] [[-> ->]|[Hm Hb]] Hlt.
  - left. auto.
  - right. split; [lia|]. destruct Hb as (mb & eb & -> & Hb). simpl.
    exists mb, eb. auto.
  - right. rewrite Z.add_0_r. split; [lia|]. destruct Ha as (ma & ea & -> & Ha). simpl.
    exists ma, ea. auto.
  - destruct (SFadd_correct _ _ _ _ Ha Hb) as (v & Hr).
    { rewrite <- plus_IZR. apply int_range. lia. }
    rewrite <- plus_IZR in Hr. exact (rounded_Fint (n + m) _ _ ltac:(lia) Hr).
Qed.

Lemma Fint_sub a b n m :
  Fint a n -> Fint b m -> (m <= n < 2 ^ 53)%Z -> Fint (SF64sub a b) (n - m).
Proof.
  intros [[-> ->]|[Hn Ha]] [[-> ->]|[Hm Hb]] Hlt.
  - left. auto.
  - lia.
  - right. rewrite Z.sub_0_r. split; [lia|]. destruct Ha as (ma & ea & -> & Ha). simpl.
    exists ma, ea. auto.
  - destruct (Z.eq_dec n m) as [->|Hne].
    + left. split; [lia|]. exact (SFsub_self _ _ _ Ha Hb).
    + destruct (SFsub_correct _ _ _ _ Ha Hb) as (v & Hr).
      { apply IZR_lt. lia. }
      { rewrite <- minus_IZR. apply int_range. lia. }
      rewrite <- minus_IZR in Hr. exact (rounded_Fint (n - m) _ _ ltac:(lia) Hr).
Qed.

(** truncation *)
Lemma FV_trunc f v (N : Z) :
  FV f v -> IZR N <= v < IZR N + 1 ->
  int_of_float f = Ok N /\ math_floor f = Ok N.
Proof.
  intros (m & e & -> & Hm & ->) [H1 H2]. simpl. unfold cond_Zopp.
  destruct (Z.leb_spec 0 e) as [He|He].
  - rewrite bpow_IZR, <- mult_IZR, <- ?plus_IZR in * by lia.
    apply le_IZR in H1. apply lt_IZR in H2.
    assert (Zpos m * 2 ^ e = N)%Z as -> by lia. auto.
  - set (P := (2 ^ (- e))%Z).
    assert (0 < P)%Z as HP by (apply Z.pow_pos_nonneg; lia).
    assert (bpow e * IZR P = 1) as E.
    { unfold P. rewrite <- bpow_IZR, <- bpow_add by lia.
      replace (e + - e)%Z with 0%Z by lia. reflexivity. }
    assert (0 < IZR P) as HP' by (apply IZR_lt; lia).
    pose proof (bpow_pos e) as Hu.
    assert (IZR (N * P) <= IZR (Zpos m)) as L1.
    { rewrite mult_IZR.
      assert (IZR N * IZR P <= IZR (Zpos m) * bpow e * IZR P) as H0
        by (apply Rmult_le_compat_r; lra).
      rewrite Rmult_assoc, E in H0. lra. }
    assert (IZR (Zpos m) < IZR ((N + 1) * P)) as L2.
    { rewrite mult_IZR, plus_IZR.
      assert (IZR (Zpos m) * bpow e * IZR P < (IZR N + 1) * IZR P) as H0
        by (apply Rmult_lt_compat_r; lra).
      rewrite Rmult_assoc, E in H0. lra. }
    apply le_IZR in L1. apply lt_IZR in L2.
    assert (Zpos m / P = N)%Z as ->.
    { symmetry. apply (Z.div_unique _ _ _ (Zpos m - N * P)); lia. }
    auto.
Qed.

Lemma Fint_trunc f n :
  Fint f n -> int_of_float f = Ok n /\ math_floor f = Ok n.
Proof.
  intros [[-> ->]|[Hn HF]]; [auto|].
  apply (FV_trunc f (IZR n)); [exact HF|lra].
Qed.

(** the quotient, plus one, truncated *)
Lemma quot_succ_trunc (x s : Z) q vq :
  (0 < x)%Z -> (0 < s)%Z -> (2 * x + 3 * s < 2 ^ 53)%Z ->
  rounded (IZR x / IZR s) q vq ->
  int_of_float (SF64add q float_one) = Ok (x / s + 1)%Z.
Proof.
  intros Hx Hs Hb Hq.
  assert (0 < IZR s) as Hs' by (apply IZR_lt; lia).
  assert (0 < IZR x) as Hx' by (apply IZR_lt; lia).
  set (n := (x / s)%Z). set (r := (x mod s)%Z).
  pose proof (Z.div_mod x s ltac:(lia)) as Hdm. fold n r in Hdm.
  pose proof (Z.mod_pos_bound x s Hs) as Hr. fold r in Hr.
  assert (0 <= n)%Z as Hn by (apply Z.div_pos; lia).
  set (y := IZR x / IZR s) in *.
  assert (Hy : y * IZR s = IZR n * IZR s + IZR r).
  { unfold y. rewrite <- mult_IZR, <- plus_IZR.
    replace (n * s + r)%Z with x by lia. field. lra. }
  assert (0 <= IZR r < IZR s) as Hr'.
  { split; [apply IZR_le|apply IZR_lt]; lia. }
  assert (0 <= IZR n) as Hn' by (apply IZR_le; lia).
  assert (IZR n * IZR s <= IZR x) as Hns.
  { rewrite <- mult_IZR. apply IZR_le. lia. }
  assert (2 * IZR x + 3 * IZR s < 9007199254740992) as Hb'.
  { change 9007199254740992 with (IZR (2 ^ 53)).
    replace (2 * IZR x + 3 * IZR s) with (IZR (2 * x + 3 * s))
      by (rewrite plus_IZR, !mult_IZR; reflexivity).
    apply IZR_lt. exact Hb. }
  assert (Hnx : IZR n <= IZR x) by (apply IZR_le; nia).
  assert (Hs1 : 1 <= IZR s) by (apply IZR_le; lia).
  clearbody y n r.
  assert (Hyn : IZR n <= y) by nra.
  assert (Hyn1 : y <= IZR (n + 1)).
  { rewrite plus_IZR. nra. }
  assert (Hy53 : y < bpow 53).
  { rewrite bpow_53. change (IZR (2 ^ 53)) with 9007199254740992. rewrite plus_IZR in Hyn1. lra. }
  pose proof (rounded_ge _ _ _ n Hq Hy53 Hyn) as Hv1.
  pose proof (rounded_le _ _ _ (n + 1) Hq Hy53 Hyn1) as Hv2.
  rewrite plus_IZR in Hv2.
  pose proof (rounded_err _ _ _ Hq) as Herr.
  change (IZR (2 ^ 53)) with 9007199254740992 in Herr.
  pose proof Hq as [HFq _].
  destruct (SFadd_correct _ _ _ _ HFq FV_one) as (v & Hr2).
  { split.
    - apply Rle_trans with (bpow 0); [apply bpow_le; lia|]. change (bpow 0) with 1. lra.
    - apply Rlt_le_trans with (bpow 53); [|apply bpow_le; lia].
      rewrite bpow_53. change (IZR (2 ^ 53)) with 9007199254740992. nra. }
  assert (Hy2 : vq + 1 < bpow 53).
  { rewrite bpow_53. change (IZR (2 ^ 53)) with 9007199254740992. nra. }
  assert (IZR (n + 1) <= v) as Hlo.
  { apply (rounded_ge _ _ _ (n + 1) Hr2 Hy2). rewrite plus_IZR. lra. }
  apply (FV_trunc _ v (n + 1)); [apply Hr2|].
  split; [exact Hlo|]. rewrite plus_IZR.
  destruct (Z.eq_dec r 0%Z) as [Hr0|Hr0].
  - assert (y = IZR n) as Ey.
    { rewrite Hr0 in Hy. apply Rmult_eq_reg_r with (IZR s); lra. }
    rewrite Ey in Hq, Hy53.
    rewrite (rounded_int n q vq Hq Hy53) in Hr2, Hy2.
    replace (IZR n + 1) with (IZR (n + 1)) in Hr2, Hy2 by (rewrite plus_IZR; reflexivity).
    rewrite (rounded_int (n + 1) _ v Hr2 Hy2), plus_IZR. lra.
  - pose proof (rounded_err _ _ _ Hr2) as Herr2.
    change (IZR (2 ^ 53)) with 9007199254740992 in Herr2.
    assert (1 <= IZR r) as Hr1 by (apply IZR_le; lia).
    set (E := 9007199254740992) in *.
    set (A := (IZR n + 1) * IZR s).
    assert (HA : A <= IZR x + IZR s) by (unfold A; lra).
    assert (Hrs : IZR r + 1 <= IZR s) by (rewrite <- plus_IZR; apply IZR_le; lia).
    assert (Hys : y * IZR s <= A - 1) by (unfold A; lra).
    assert (S1 : vq * IZR s * E <= (A - 1) * (E + 1)).
    { assert (vq * E <= y * (E + 1)) as H0 by (unfold E in *; lra).
      assert (vq * E * IZR s <= y * (E + 1) * IZR s) as H1
        by (apply Rmult_le_compat_r; lra).
      unfold E in *. nra. }
    assert (S2 : v * IZR s * (E * E) <= ((A - 1) * (E + 1) + IZR s * E) * (E + 1)).
    { assert (v * E <= (vq + 1) * (E + 1)) as H0 by (unfold E in *; lra).
      assert (v * E * (IZR s * E) <= (vq + 1) * (E + 1) * (IZR s * E)) as H1.
      { apply Rmult_le_compat_r; [unfold E; nra|exact H0]. }
      unfold E in *. nra. }
    assert (S3 : ((A - 1) * (E + 1) + IZR s * E) * (E + 1) < (IZR n + 2) * IZR s * (E * E)).
    { unfold A in *. unfold E in *. nra. }
    assert (S4 : v * (IZR s * (E * E)) < (IZR n + 2) * (IZR s * (E * E))) by lra.
    apply Rmult_lt_reg_r in S4; [lra|unfold E; nra].
Qed.

Lemma quot_range (x d : Z) :
  (0 < x < 2 ^ 53)%Z -> (0 < d < 2 ^ 53)%Z ->
  bpow (-1000) <= IZR x / IZR d < bpow 1000.
Proof.
  intros Hx Hd.
  assert (1 <= IZR x) by (apply IZR_le; lia).
  assert (1 <= IZR d) by (apply IZR_le; lia).
  assert (IZR x < 9007199254740992) by (apply (IZR_lt x (2 ^ 53)); lia).
  assert (IZR d < 9007199254740992) by (apply (IZR_lt d (2 ^ 53)); lia).
  set (y := IZR x / IZR d).
  assert (Hy : y * IZR d = IZR x) by (unfold y; field; lra).
  clearbody y. split.
  - apply Rle_trans with (bpow (-53)); [apply bpow_le; lia|].
    assert (bpow (-53) * 9007199254740992 = 1) as E.
    { change 9007199254740992 with (IZR (2 ^ 53)). rewrite <- bpow_53, <- bpow_add. reflexivity. }
    pose proof (bpow_pos (-53)). nra.
  - apply Rlt_le_trans with (bpow 53); [|apply bpow_le; lia].
    rewrite bpow_53. change (IZR (2 ^ 53)) with 9007199254740992. nra.
Qed.

Lemma float_of_int_one : float_of_int 1 = Ok float_one.
Proof. reflexivity. Qed.

Theorem conv_out_dim_correct (inp pad k d : Z) :
  (0 <= inp)%Z -> (0 <= pad)%Z -> (0 <= k)%Z -> (0 < d)%Z ->
  (k <= inp + 2 * pad)%Z ->
  (inp + 2 * pad < 2 ^ 53)%Z ->
  (2 * (inp + 2 * pad - k) + 3 * d < 2 ^ 53)%Z ->
  conv_out_dim inp pad k d = Ok ((inp + 2 * pad - k) / d + 1)%Z.
Proof.
  intros Hi Hp Hk Hd Hge Hb1 Hb2. unfold conv_out_dim.
  destruct (float_of_int_Fint inp ltac:(lia)) as (fi & -> & Hfi).
  destruct (float_of_int_Fint (2 * pad) ltac:(lia)) as (fp & -> & Hfp).
  destruct (float_of_int_Fint k ltac:(lia)) as (fk & -> & Hfk).
  destruct (float_of_int_Fint d ltac:(lia)) as (fd & -> & Hfd).
  cbn [bind].
  pose proof (Fint_mul_one _ _ Hfi ltac:(lia)) as Ha.
  pose proof (Fint_add _ _ _ _ Ha Hfp ltac:(lia)) as Hbb.
  pose proof (Fint_sub _ _ _ _ Hbb Hfk ltac:(lia)) as Hc.
  set (x := (inp + 2 * pad - k)%Z) in *.
  set (c := SF64sub (SF64add (SF64mul float_one fi) fp) fk) in *.
  destruct Hfd as [[? _]|[_ (md & ed & -> & Hmd & Ed)]]; [lia|].
  cbn [float_truediv]. rewrite float_of_int_one. cbn [bind].
  destruct Hc as [[-> ->]|[Hx (mc & ec & -> & Hmc & Ec)]].
  - reflexivity.
  - destruct (SFdiv_correct mc ec md ed) as (vq & Hq).
    { rewrite <- Ec, <- Ed. apply quot_range; lia. }
    rewrite <- Ec, <- Ed in Hq.
    apply (quot_succ_trunc x d _ vq); try lia. exact Hq.
Qed.

Theorem pool_out_dim_correct (inp pad k d : Z) :
  (0 <= pad)%Z -> (0 <= k)%Z -> (0 < d)%Z ->
  (k <= inp)%Z ->
  (inp + 2 * pad < 2 ^ 53)%Z ->
  (2 * (inp - k + 2 * pad) + 3 * d < 2 ^ 53)%Z ->
  pool_out_dim inp pad k d = Ok ((inp - k + 2 * pad) / d + 1)%Z.
Proof.
  intros Hp Hk Hd Hge Hb1 Hb2. unfold pool_out_dim.
  destruct (float_of_int_Fint inp ltac:(lia)) as (fi & -> & Hfi).
  destruct (float_of_int_Fint k ltac:(lia)) as (fk & -> & Hfk).
  destruct (float_of_int_Fint (2 * pad) ltac:(lia)) as (fp & -> & Hfp).
  cbn [bind].
  pose proof (Fint_mul_one _ _ Hfi ltac:(lia)) as Ha.
  pose proof (Fint_sub _ _ _ _ Ha Hfk ltac:(lia)) as Hbb.
  pose proof (Fint_add _ _ _ _ Hbb Hfp ltac:(lia)) as Hc.
  set (x := (inp - k + 2 * pad)%Z) in *.
  destruct (Fint_trunc _ _ Hc) as [_ ->]. cbn [bind].
  rewrite float_of_int_one.
  destruct d as [|dp|dp]; try lia.
  destruct x as [|xp|xp] eqn:Ex; try lia.
  - reflexivity.
  - change (int_truediv (Zpos xp) (Zpos dp)) with
      (match SF64div (S754_finite false xp 0) (S754_finite false dp 0) with
       | S754_infinity _ => Raise OverflowError
       | f => Ok f
       end).
    destruct (SFdiv_correct xp 0 dp 0) as (vq & Hq).
    { change (bpow 0) with 1. rewrite !Rmult_1_r. apply quot_range; lia. }
    change (bpow 0) with 1 in Hq. rewrite !Rmult_1_r in Hq.
    pose proof Hq as [(mq & eq & Eq & _) _].
    fold SF64div in Eq. rewrite Eq. cbn [bind]. rewrite <- Eq.
    apply (quot_succ_trunc (Zpos xp) (Zpos dp) _ vq); try lia. exact Hq.
Qed.

End F64.

(** ** The layers and the model *)

Ltac st_unfold :=
  repeat progress
    (unfold bindS, liftR, py_assert, attr, get_self, set_self, on_dev, ret, raise,
       bind, shape_at in *; cbn [fst snd] in *).

Section Claims.
Context {B : Backend}.

(** C6. A Convolution whose filter-channel count differs from the input's
    channel count: [configure] raises the assertion error before anything is
    allocated or stored, so the layer (its [output] field included) and the
    device are as before the call. *)
Theorem Convolution_configure_channel_mismatch
    (c : Convolution.t) (x : GPUTensor) (d : Device)
    (n ch h w fm fc : Z) (rest rest' : list Z) :
  shape x = n :: ch :: h :: w :: rest ->
  shape (Convolution.W c) = fm :: fc :: rest' ->
  ch <> fc ->
  Convolution.configure x (c, d) = (Raise AssertionError, (c, d)).
Proof.
  intros Hx HW Hne. unfold Convolution.configure. st_unfold.
  rewrite Hx, HW. cbn.
  destruct (Z.eqb_spec ch fc) as [E|_]; [contradiction|]. reflexivity.
Qed.

(** C7. A Pooling configuration record whose ceiling-rounding flag is true:
    the constructor fails. It raises the assertion error when the six geometry
    fields are present, and the error of reading them otherwise. The
    constructor is a pure function of the record: no device state exists for
    it to allocate in. *)
Theorem Pooling_init_ceil_mode
    (mode : Pooling.Mode) (config : dict) (name : string) :
  config !! "ceil_mode" = Some (JBool true) ->
  Pooling.init mode config name =
    match SlidingLayer.init config name with
    | Ok _ => Raise AssertionError
    | Raise e => Raise e
    end.
Proof.
  intros H. unfold Pooling.init.
  destruct (SlidingLayer.init config name) as [g|e]; [|reflexivity].
  cbn. unfold getitem. rewrite H. reflexivity.
Qed.

(** C10. A model without layers: [configure] only records the input and
    returns; [evaluate] raises [IndexError] and returns no tensor. *)
Theorem Model_empty_configure_evaluate
    (inp : option GPUTensor) (name : string) (x : GPUTensor) (d : Device) :
  let m := {| Model.layers := []; Model.input := inp; Model.name := name |} in
  Model.configure x (m, d) =
    (Ok tt, ({| Model.layers := []; Model.input := Some x; Model.name := name |}, d)) /\
  Model.evaluate x (m, d) = (Raise IndexError, (m, d)).
Proof. split; reflexivity. Qed.

(** C4 (the code at the failing input). Whatever the selector, and for
    [TanH] in particular, the forward pass of a configured Activation layer
    runs the backend's ReLU operation on the input buffer, in place. *)
Theorem Activation_fprop_runs_ReLU
    (f : Activation.Func) (a b : spec_float) (o : option GPUTensor)
    (desc : TensorDesc) (x : GPUTensor) (d : Device) :
  let l := {| Activation.func := f; Activation.alpha := a; Activation.beta := b;
              Activation.output := o; Activation.inout_desc := Some desc |} in
  Activation.fprop x (l, d) =
    (Ok tt, (l, {| mem := <[ptr x :=
                     cudnnActivationForward CUDNN_ACTIVATION_RELU a desc
                       (read d (ptr x)) b desc]> (mem d);
                   brk := brk d |})).
Proof. reflexivity. Qed.

(** The sizes of one spatial axis for which the binary64 computation of the
    output size is exact: non-negative sizes, a positive stride, and
    [inp + 2*pad] and [2*(inp + 2*pad - k) + 3*d] below [2^53]. *)
Definition axis_ok (inp pad k d : Z) : Prop :=
  0 <= inp /\ 0 <= pad /\ 0 <= k /\ 0 < d /\
  inp + 2 * pad < 2 ^ 53 /\
  2 * (inp + 2 * pad - k) + 3 * d < 2 ^ 53.

(** What cuDNN takes as a C [int]: every axis of such sizes is covered. *)
Definition c_int (n : Z) : Prop := 0 <= n < 2 ^ 31.

Lemma c_int_axis_ok (inp pad k d : Z) :
  c_int inp -> c_int pad -> c_int k -> c_int d -> 0 < d -> axis_ok inp pad k d.
Proof. unfold c_int, axis_ok. lia. Qed.

Lemma conv_out_dim_axis (inp pad k d : Z) :
  axis_ok inp pad k d -> k <= inp + 2 * pad ->
  conv_out_dim inp pad k d = Ok ((inp + 2 * pad - k) / d + 1).
Proof.
  unfold axis_ok. intros. apply F64.conv_out_dim_correct; lia.
Qed.

Lemma pool_out_dim_axis (inp pad k d : Z) :
  axis_ok inp pad k d -> k <= inp ->
  pool_out_dim inp pad k d = Ok ((inp - k + 2 * pad) / d + 1).
Proof.
  unfold axis_ok. intros. apply F64.pool_out_dim_correct; lia.
Qed.

(** C1, as amended. A Convolution with kernel [k], stride [s], padding [p]
    configured on an input of spatial size [in] with [in + 2p >= k] per axis
    (and matching channels), for sizes in the exact range of [axis_ok]: the
    layer's [output] is a freshly allocated tensor of shape
    (images, filter maps, out_h, out_w) with
    [out = floor((in + 2p - k) / s) + 1] on each spatial axis, an equation
    in integers although the code computes in binary64. The field has this
    value whatever the backend then reports, and [configure] returns when the
    backend reports the same two sizes. *)
Theorem Convolution_configure_output_shape
    (c : Convolution.t) (x : GPUTensor) (d : Device)
    (n ch h w fm : Z) (rest : list Z) :
  let g := Convolution.base c in
  let oh := (h + 2 * SlidingLayer.padH g - SlidingLayer.kH g) / SlidingLayer.dH g + 1 in
  let ow := (w + 2 * SlidingLayer.padW g - SlidingLayer.kW g) / SlidingLayer.dW g + 1 in
  shape x = [n; ch; h; w] ->
  shape (Convolution.W c) = fm :: ch :: rest ->
  axis_ok h (SlidingLayer.padH g) (SlidingLayer.kH g) (SlidingLayer.dH g) ->
  axis_ok w (SlidingLayer.padW g) (SlidingLayer.kW g) (SlidingLayer.dW g) ->
  SlidingLayer.kH g <= h + 2 * SlidingLayer.padH g ->
  SlidingLayer.kW g <= w + 2 * SlidingLayer.padW g ->
  Convolution.output (fst (snd (Convolution.configure x (c, d)))) =
    Some {| ptr := brk d; shape := [n; fm; oh; ow] |} /\
  (forall a b : Z,
     cudnnGetConvolution2dForwardOutputDim (Convolution.convolution_descriptor g)
       (get_cudnn_tensor_desc x) (Convolution.filter_descriptor g fm ch) =
       (a, b, oh, ow) ->
     fst (Convolution.configure x (c, d)) = Ok tt).
Proof.
  intros g oh ow Hx HW HaH HaW HgeH HgeW.
  unfold Convolution.configure. st_unfold. fold g.
  rewrite Hx, HW. cbn [lookup list_lookup]. rewrite Z.eqb_refl.
  rewrite (conv_out_dim_axis w _ _ _ HaW HgeW).
  rewrite (conv_out_dim_axis h _ _ _ HaH HgeH).
  fold oh ow. unfold GPUTensor_new, mem_alloc. cbn [fst snd].
  split.
  - destruct (cudnnGetConvolution2dForwardOutputDim _ _ _) as [[[? ?] oh2] ow2].
    repeat match goal with
           | |- context [if ?b then _ else _] => destruct b
           end; reflexivity.
  - intros a b E. rewrite E. rewrite !Z.eqb_refl.
    match goal with
    | |- context [if ?b then _ else _] => destruct b
    end; reflexivity.
Qed.

(** C2, as amended. A Pooling layer with kernel [k], stride [s], padding
    [p]: [configure] asserts [in >= k] on both spatial axes, and when the
    assertions hold, for sizes in the exact range of [axis_ok], it succeeds
    with a freshly allocated output of shape (images, channels, out_h,
    out_w), [out = floor((in - k + 2p) / s) + 1] on each spatial axis, as an
    equation in integers. *)
Theorem Pooling_configure_output_shape
    (p : Pooling.t) (x : GPUTensor) (d : Device) (n ch h w : Z) :
  let g := Pooling.base p in
  shape x = [n; ch; h; w] ->
  axis_ok h (SlidingLayer.padH g) (SlidingLayer.kH g) (SlidingLayer.dH g) ->
  axis_ok w (SlidingLayer.padW g) (SlidingLayer.kW g) (SlidingLayer.dW g) ->
  (SlidingLayer.kW g <= w /\ SlidingLayer.kH g <= h ->
   fst (Pooling.configure x (p, d)) = Ok tt /\
   Pooling.output (fst (snd (Pooling.configure x (p, d)))) =
     Some {| ptr := brk d;
             shape := [n; ch;
                       (h - SlidingLayer.kH g + 2 * SlidingLayer.padH g) / SlidingLayer.dH g + 1;
                       (w - SlidingLayer.kW g + 2 * SlidingLayer.padW g) / SlidingLayer.dW g + 1] |}) /\
  (w < SlidingLayer.kW g \/ h < SlidingLayer.kH g ->
   Pooling.configure x (p, d) = (Raise AssertionError, (p, d))).
Proof.
  intros g Hx HaH HaW.
  unfold Pooling.configure. st_unfold. fold g. rewrite Hx. cbn [lookup list_lookup].
  split.
  - intros [HgeW HgeH].
    destruct (Z.leb_spec (SlidingLayer.kW g) w); [|lia].
    destruct (Z.leb_spec (SlidingLayer.kH g) h); [|lia].
    rewrite (pool_out_dim_axis w _ _ _ HaW HgeW).
    rewrite (pool_out_dim_axis h _ _ _ HaH HgeH).
    split; reflexivity.
  - intros Hlt.
    destruct (Z.leb_spec (SlidingLayer.kW g) w); [|reflexivity].
    destruct (Z.leb_spec (SlidingLayer.kH g) h); [|reflexivity].
    lia.
Qed.

(** [np.prod] agrees with the element count as long as that fits in 64 bits. *)
Lemma wrap64_mul (a d : Z) : wrap64 (wrap64 a * d) = wrap64 (a * d).
Proof.
  unfold wrap64. f_equal.
  rewrite (Z.mod_eq (a + 2 ^ 63) (2 ^ 64)) by lia.
  replace ((a + 2 ^ 63 - 2 ^ 64 * ((a + 2 ^ 63) / 2 ^ 64) - 2 ^ 63) * d + 2 ^ 63)
    with (a * d + 2 ^ 63 + (- ((a + 2 ^ 63) / 2 ^ 64) * d) * 2 ^ 64) by ring.
  apply Z.mod_add. lia.
Qed.

Lemma wrap64_small (a : Z) : - 2 ^ 63 <= a < 2 ^ 63 -> wrap64 a = a.
Proof. intros H. unfold wrap64. rewrite Z.mod_small; lia. Qed.

Lemma np_prod_fold (l : list Z) : forall a,
  fold_left (fun acc d => wrap64 (acc * d)) l (wrap64 a) = wrap64 (fold_left Z.mul l a).
Proof.
  induction l as [|x l IH]; intros a; cbn [fold_left]; [reflexivity|].
  rewrite wrap64_mul. apply IH.
Qed.

Lemma np_prod_shape_size (s : list Z) :
  - 2 ^ 63 <= shape_size s < 2 ^ 63 -> np_prod s = shape_size s.
Proof.
  intros H. unfold np_prod, shape_size in *.
  change 1 with (wrap64 1) at 1. rewrite np_prod_fold. apply wrap64_small. exact H.
Qed.

(** C8. A Linear layer with a weight matrix of shape (outFeatures,
    inFeatures), configured on an input with [product(inputShape)] elements:
    when the product differs from inFeatures the assertion fails and nothing
    changes; when it is equal, the layer's output is a freshly allocated
    tensor of shape (1, outFeatures, 1, 1). *)
Theorem Linear_configure_shape
    (l : Linear.t) (x : GPUTensor) (d : Device) (outF inF : Z) (rest : list Z) :
  shape (Linear.W l) = outF :: inF :: rest ->
  0 <= shape_size (shape x) < 2 ^ 63 ->
  (shape_size (shape x) <> inF ->
   Linear.configure x (l, d) = (Raise AssertionError, (l, d))) /\
  (shape_size (shape x) = inF ->
   Linear.configure x (l, d) =
     (Ok tt, (Linear.set_output {| ptr := brk d; shape := [1; outF; 1; 1] |} l,
              {| mem := mem d; brk := S (brk d) |}))).
Proof.
  intros HW Hsz. unfold Linear.configure. st_unfold.
  rewrite HW, np_prod_shape_size by lia. cbn [lookup list_lookup].
  split; intros H.
  - destruct (Z.eqb_spec (shape_size (shape x)) inF); [contradiction|reflexivity].
  - destruct (Z.eqb_spec (shape_size (shape x)) inF); [reflexivity|contradiction].
Qed.

(** A matrix with [m] rows and [k] columns, row-major in [a], times the
    vector [v]: entry [i] is the sum over [l] of [a[i][l] * v[l]]. *)
Definition matvec (m k : nat) (a v : list elem) : list elem :=
  map (fun i =>
         fold_left
           (fun acc l =>
              elem_add acc (elem_mul (default elem_zero (a !! (i * k + l)%nat))
                                     (default elem_zero (v !! l))))
           (seq 0 k) elem_zero)
      (seq 0 m).

Lemma fold_left_pointwise {A C : Type} (f g : A -> C -> A) (l : list C) :
  (forall a x, f a x = g a x) -> forall a, fold_left f l a = fold_left g l a.
Proof.
  intros H. induction l as [|x l IH]; intros a; cbn [fold_left]; [reflexivity|].
  rewrite H. apply IH.
Qed.

Lemma flat_map_single {A C : Type} (f : A -> C) (L : list A) :
  flat_map (fun i => [f i]) L = map f L.
Proof. induction L as [|i L IH]; [reflexivity|]. cbn. rewrite IH. reflexivity. Qed.

Lemma gemm_data_matvec (m k : nat) (a v : list elem) :
  gemm_data m k 1 a v = matvec m k a v.
Proof.
  unfold gemm_data, matvec.
  change (seq 0 1) with [0%nat].
  change (fun i : nat => map (gemm_entry k 1 a v i) [0%nat])
    with (fun i : nat => [gemm_entry k 1 a v i 0%nat]).
  rewrite flat_map_single. apply List.map_ext. intros i.
  unfold gemm_entry. apply fold_left_pointwise.
  intros acc j. rewrite Nat.mul_1_r, Nat.add_0_r. reflexivity.
Qed.

(** C3. The forward pass of a configured Linear layer writes [W x], the
    product of the weight matrix with the flattened input, into the layer's
    output buffer, and nothing else; the bias takes no part: the result is
    the same whatever bias tensor the layer holds. *)
Theorem Linear_fprop_matvec
    (l : Linear.t) (x out : GPUTensor) (d : Device) (outF inF : Z) :
  shape (Linear.W l) = [outF; inF] ->
  Linear.output l = Some out ->
  shape_size (shape x) = inF ->
  shape_size (shape out) = outF ->
  Linear.fprop x (l, d) =
    (Ok tt, (l, {| mem := <[ptr out :=
                     matvec (Z.to_nat outF) (Z.to_nat inF)
                       (read d (ptr (Linear.W l))) (read d (ptr x))]> (mem d);
                   brk := brk d |})) /\
  forall b : GPUTensor,
    snd (snd (Linear.fprop x (Linear.set_bias b l, d))) =
    snd (snd (Linear.fprop x (l, d))).
Proof.
  intros HW Hout Hx Ho.
  assert (E : forall l', Linear.W l' = Linear.W l -> Linear.output l' = Some out ->
    Linear.fprop x (l', d) =
    (Ok tt, (l', {| mem := <[ptr out :=
                     matvec (Z.to_nat outF) (Z.to_nat inF)
                       (read d (ptr (Linear.W l))) (read d (ptr x))]> (mem d);
                   brk := brk d |}))).
  { intros l' EW Eo. unfold Linear.fprop, reshape, cublas_gemm, write. st_unfold.
    rewrite EW, Eo, HW, Hx, Ho. cbn [lookup list_lookup].
    unfold shape_size at 1. cbn [fold_left]. rewrite Z.mul_1_l, Z.mul_1_r, Z.eqb_refl.
    unfold shape_size at 1. cbn [fold_left]. rewrite Z.mul_1_l, Z.mul_1_r, Z.eqb_refl.
    cbn [ptr shape lookup list_lookup].
    change (Z.to_nat 1) with 1%nat. rewrite gemm_data_matvec. reflexivity. }
  split.
  - apply E; auto.
  - intros b. rewrite (E l), (E (Linear.set_bias b l)); auto.
Qed.

End Claims.

Section Dispatch.
Context {B : Backend}.

(** The layer class the dispatch of [instantiate_layer] gives a type tag;
    [None] for a tag with no implementation. *)
Definition kind_of_type (ty : json) : option LayerKind :=
  if py_eq_str ty "SpatialConvolution" then Some KConvolution
  else if py_eq_str ty "ReLU" then Some KActivation
  else if py_eq_str ty "Threshold" then Some KActivation
  else if py_eq_str ty "SpatialMaxPooling" then Some KPooling
  else if py_eq_str ty "Dropout" then Some KDropout
  else if py_eq_str ty "Linear" then Some KLinear
  else if py_eq_str ty "LogSoftMax" then Some KSoftMax
  else None.

Definition record_kind (rc : dict) : option LayerKind :=
  match rc !! "type" with
  | Some ty => kind_of_type ty
  | None => None
  end.

(** The no-op reshape records. *)
Definition is_view (rc : dict) : bool :=
  match rc !! "type" with
  | Some ty => py_eq_str ty "View"
  | None => false
  end.

Lemma instantiate_layer_kind files (layer : dict) (d d' : Device) (l : Layer) :
  Model.instantiate_layer files layer d = (Ok l, d') ->
  record_kind layer = Some (Layer_kind l).
Proof.
  unfold Model.instantiate_layer, record_kind, kind_of_type, getitem. st_unfold.
  destruct (layer !! "type") as [ty|]; [|discriminate].
  repeat match goal with
         | |- context [if ?b then _ else _] => destruct b
         end;
    try discriminate;
    repeat match goal with
           | |- context [match ?e with _ => _ end] => destruct e
           end;
    intros H; try discriminate; inversion H; reflexivity.
Qed.

Lemma build_layers_kinds files path (recs : list dict) :
  forall (d d' : Device) (ls : list Layer),
  Model.build_layers files path recs d = (Ok ls, d') ->
  map record_kind (List.filter (fun rc => negb (is_view rc)) recs) =
  map (fun l => Some (Layer_kind l)) ls.
Proof.
  induction recs as [|rc rest IH]; intros d d' ls H.
  - inversion H. reflexivity.
  - cbn [Model.build_layers List.filter] in *. unfold is_view at 1.
    unfold getitem in H. st_unfold.
    destruct (rc !! "type") as [ty|] eqn:Ety; cbn [fst snd] in H; [|discriminate H].
    destruct (py_eq_str ty "View") eqn:Ev; cbn [negb].
    + eapply IH. exact H.
    + destruct (Model.instantiate_layer files _ d) as [[l|e] d1] eqn:Ei; [|discriminate H].
      destruct (Model.build_layers files path rest d1) as [[ls'|e] d2] eqn:Eb; [|discriminate H].
      inversion H; subst. cbn [map]. f_equal.
      * apply instantiate_layer_kind in Ei. rewrite <- Ei.
        unfold record_kind. rewrite lookup_insert_ne by discriminate. reflexivity.
      * eapply IH. exact Eb.
Qed.

(** C9. Model construction dispatches on each record's type tag: when
    construction succeeds, the layers are, in file order, those of the
    records other than ["View"], each of the class its tag names; and a
    record whose tag is neither ["View"] nor implemented makes construction
    fail (it is not skipped). *)
Theorem Model_init_dispatch
    (files : Files) (path name : string) (recs : list dict) (d : Device) :
  let r := fst (Model.init files path
                  {| Model.modelName := Some name; Model.jlayers := Some recs |} d) in
  (forall m, r = Ok m ->
     map record_kind (List.filter (fun rc => negb (is_view rc)) recs) =
     map (fun l => Some (Layer_kind l)) (Model.layers m)) /\
  (Exists (fun rc => is_view rc = false /\ record_kind rc = None) recs ->
   exists e, r = Raise e).
Proof.
  intros r.
  assert (H1 : forall m, r = Ok m ->
     map record_kind (List.filter (fun rc => negb (is_view rc)) recs) =
     map (fun l => Some (Layer_kind l)) (Model.layers m)).
  { intros m Hr. subst r. unfold Model.init in Hr. st_unfold.
    cbn [Model.modelName Model.jlayers] in Hr.
    destruct (Model.build_layers files path recs d) as [[ls|e] d'] eqn:Eb;
      cbn [fst snd] in Hr; [|discriminate Hr].
    inversion Hr; subst. cbn [Model.layers]. eapply build_layers_kinds. exact Eb. }
  split; [exact H1|].
  intros Hex. apply List.Exists_exists in Hex as (rc & Hin & Hv & Hk).
  destruct r as [m|e] eqn:Er; [|eauto].
  exfalso. specialize (H1 m eq_refl).
  assert (In (record_kind rc)
            (map record_kind (List.filter (fun rc => negb (is_view rc)) recs))) as Hi.
  { apply List.in_map. apply List.filter_In. rewrite Hv. auto. }
  rewrite H1, Hk in Hi. apply List.in_map_iff in Hi as (l & Hl & _). discriminate.
Qed.

End Dispatch.

Section Forward.
Context {B : Backend}.

Definition allocated (d : Device) (t : GPUTensor) : Prop := (ptr t < brk d)%nat.

(** The parameter tensors a layer reads in its forward pass. *)
Definition Layer_weights (l : Layer) : list GPUTensor :=
  match l with
  | LConvolution c => [Convolution.W c]
  | LLinear c => [Linear.W c]
  | _ => []
  end.

(** The operation an in-place layer applies to the shared buffer. *)
Definition inplace_op (l : Layer) : option (list elem -> list elem) :=
  match l with
  | LActivation c =>
      match Activation.inout_desc c with
      | Some desc =>
          Some (fun data =>
                  cudnnActivationForward CUDNN_ACTIVATION_RELU (Activation.alpha c)
                    desc data (Activation.beta c) desc)
      | None => None
      end
  | LDropout c =>
      match as_float (Dropout.p c) with
      | Ok s => Some (map (elem_scale s))
      | Raise _ => None
      end
  | LSoftMax c =>
      match SoftMax.in_desc c with
      | Some desc =>
          Some (fun data =>
                  cudnnSoftmaxForward CUDNN_SOFTMAX_LOG CUDNN_SOFTMAX_MODE_CHANNEL
                    float_one desc data float_zero desc)
      | None => None
      end
  | _ => None
  end.

Lemma read_write_eq (m : gmap nat (list elem)) (b : nat) (p : nat) (v : list elem) :
  read {| mem := <[p := v]> m; brk := b |} p = v.
Proof. unfold read. cbn [mem]. rewrite lookup_insert_eq. reflexivity. Qed.

Lemma read_write_ne (m : gmap nat (list elem)) (b b' : nat) (p q : nat) (v : list elem) :
  p <> q -> read {| mem := <[p := v]> m; brk := b |} q = read {| mem := m; brk := b' |} q.
Proof. intros H. unfold read. cbn [mem]. rewrite lookup_insert_ne by exact H. reflexivity. Qed.

Lemma read_mem (d : Device) (q : nat) :
  read {| mem := mem d; brk := brk d |} q = read d q.
Proof. reflexivity. Qed.

Ltac destruct_matches H :=
  repeat (cbn [fst snd] in H;
          match type of H with
          | context [match ?e with _ => _ end] =>
              lazymatch e with
              | context [match _ with _ => _ end] => fail
              | _ => destruct e eqn:?
              end
          end).

Lemma Convolution_configure_ok (c0 c : Convolution.t) (x : GPUTensor) (d0 d1 : Device) :
  Convolution.configure x (c0, d0) = (Ok tt, (c, d1)) ->
  Convolution.W c = Convolution.W c0 /\
  exists s, Convolution.output c = Some {| ptr := brk d0; shape := s |}.
Proof.
  unfold Convolution.configure, GPUTensor_new, mem_alloc. st_unfold. intros H.
  destruct_matches H; try discriminate H;
    inversion H; subst; cbn; eauto.
Qed.

Lemma Pooling_configure_ok (c0 c : Pooling.t) (x : GPUTensor) (d0 d1 : Device) :
  Pooling.configure x (c0, d0) = (Ok tt, (c, d1)) ->
  exists s, Pooling.output c = Some {| ptr := brk d0; shape := s |}.
Proof.
  unfold Pooling.configure, GPUTensor_new. st_unfold. intros H.
  destruct_matches H; try discriminate H;
    inversion H; subst; cbn; eauto.
Qed.

Lemma Linear_configure_ok (c0 c : Linear.t) (x : GPUTensor) (d0 d1 : Device) :
  Linear.configure x (c0, d0) = (Ok tt, (c, d1)) ->
  Linear.W c = Linear.W c0 /\
  exists s, Linear.output c = Some {| ptr := brk d0; shape := s |}.
Proof.
  unfold Linear.configure, GPUTensor_new. st_unfold. intros H.
  destruct_matches H; try discriminate H;
    inversion H; subst; cbn; eauto.
Qed.

(** C5, as amended. For a configured Convolution, Pooling or Linear layer
    (whose output is a buffer of its own), two consecutive forward passes on
    the same input leave the output equal to what a single pass produces.
    Activation, Dropout and SoftMax have the input tensor itself as output
    and transform it in place at every pass: with [f] the layer's operation,
    the buffer holds [f x] after one pass and [f (f x)] after two. *)
Theorem Layer_fprop_twice
    (l0 l : Layer) (x : GPUTensor) (d0 d1 d : Device) :
  allocated d0 x ->
  Forall (allocated d0) (Layer_weights l0) ->
  Layer_configure x (l0, d0) = (Ok tt, (l, d1)) ->
  let s1 := Layer_fprop x (l, d) in
  let s2 := Layer_fprop x (l, snd (snd s1)) in
  fst s1 = Ok tt ->
  fst s2 = Ok tt ->
  fst (snd s1) = l /\
  exists out, Layer_output l = Some out /\
    match Layer_kind l with
    | KConvolution | KPooling | KLinear =>
        read (snd (snd s2)) (ptr out) = read (snd (snd s1)) (ptr out)
    | KActivation | KDropout | KSoftMax =>
        out = x /\
        exists f, inplace_op l = Some f /\
          read (snd (snd s1)) (ptr out) = f (read d (ptr x)) /\
          read (snd (snd s2)) (ptr out) = f (f (read d (ptr x)))
    end.
Proof.
  intros Hx Hw Hc s1 s2 H1 H2. subst s1 s2. unfold allocated in *.
  destruct l0 as [c0|c0|c0|c0|c0|c0];
    unfold Layer_configure, as_layer in Hc; cbn [fst snd] in Hc.
  - (* Convolution *)
    destruct (Convolution.configure x (c0, d0)) as [r [c d1']] eqn:E.
    inversion Hc; subst. clear Hc.
    destruct (Convolution_configure_ok _ _ _ _ _ E) as (EW & s & Eo).
    cbn [Layer_weights] in Hw. apply List.Forall_inv in Hw. rewrite <- EW in Hw.
    revert H1 H2.
    unfold Layer_fprop, as_layer, Convolution.fprop, write. st_unfold.
    cbn [Layer_output Layer_kind]. rewrite Eo.
    destruct (Convolution.ws_ptr c), (Convolution.ws_size c),
      (Convolution.in_desc c), (Convolution.filt_desc c),
      (Convolution.conv_desc c), (Convolution.algo c),
      (Convolution.out_desc c); cbn [fst snd]; try discriminate.
    intros _ _. split; [reflexivity|].
    eexists. split; [reflexivity|]. cbn [ptr mem brk].
    rewrite !read_write_eq.
    rewrite !(read_write_ne _ _ (brk d) (brk d0)) by lia. reflexivity.
  - (* Pooling *)
    destruct (Pooling.configure x (c0, d0)) as [r [c d1']] eqn:E.
    inversion Hc; subst. clear Hc.
    destruct (Pooling_configure_ok _ _ _ _ _ E) as (s & Eo).
    revert H1 H2.
    unfold Layer_fprop, as_layer, Pooling.fprop, write. st_unfold.
    cbn [Layer_output Layer_kind]. rewrite Eo.
    destruct (Pooling.pool_desc c), (Pooling.in_desc c), (Pooling.out_desc c);
      cbn [fst snd]; try discriminate.
    intros _ _. split; [reflexivity|].
    eexists. split; [reflexivity|]. cbn [ptr mem brk].
    rewrite !read_write_eq.
    rewrite !(read_write_ne _ _ (brk d) (brk d0)) by lia. reflexivity.
  - (* Activation *)
    inversion Hc; subst. clear Hc.
    revert H1 H2.
    unfold Layer_fprop, as_layer, Activation.fprop, write. st_unfold.
    cbn [Layer_output Layer_kind inplace_op Activation.output Activation.inout_desc
         Activation.alpha Activation.beta fst snd].
    intros _ _. split; [reflexivity|].
    eexists. split; [reflexivity|]. split; [reflexivity|].
    eexists. split; [reflexivity|]. cbn [ptr mem brk].
    rewrite !read_write_eq. split; reflexivity.
  - (* Dropout *)
    inversion Hc; subst. clear Hc.
    revert H1 H2.
    unfold Layer_fprop, as_layer, Dropout.fprop, write. st_unfold.
    cbn [Layer_output Layer_kind inplace_op Dropout.output Dropout.p fst snd].
    destruct (as_float (Dropout.p c0)) as [sc|e]; cbn [fst snd]; try discriminate.
    intros _ _. split; [reflexivity|].
    eexists. split; [reflexivity|]. split; [reflexivity|].
    eexists. split; [reflexivity|]. cbn [ptr mem brk].
    rewrite !read_write_eq. split; reflexivity.
  - (* Linear *)
    destruct (Linear.configure x (c0, d0)) as [r [c d1']] eqn:E.
    inversion Hc; subst. clear Hc.
    destruct (Linear_configure_ok _ _ _ _ _ E) as (EW & s & Eo).
    cbn [Layer_weights] in Hw. apply List.Forall_inv in Hw. rewrite <- EW in Hw.
    revert H1 H2.
    unfold Layer_fprop, as_layer, Linear.fprop, reshape, cublas_gemm, write. st_unfold.
    cbn [Layer_output Layer_kind]. rewrite Eo. cbn [shape].
    destruct (shape (Linear.W c) !! 1%nat) as [inF|]; cbn [fst snd]; try discriminate.
    destruct (shape_size [inF; 1] =? shape_size (shape x)); cbn [fst snd]; try discriminate.
    destruct (shape (Linear.W c) !! 0%nat) as [outF|]; cbn [fst snd]; try discriminate.
    destruct (shape_size [outF; 1] =? shape_size s); cbn [fst snd shape lookup list_lookup];
      try discriminate.
    intros _ _. split; [reflexivity|].
    eexists. split; [reflexivity|]. cbn [ptr mem brk].
    rewrite !read_write_eq.
    rewrite !(read_write_ne _ _ (brk d) (brk d0)) by lia. reflexivity.
  - (* SoftMax *)
    inversion Hc; subst. clear Hc.
    revert H1 H2.
    unfold Layer_fprop, as_layer, SoftMax.fprop, write. st_unfold.
    cbn [Layer_output Layer_kind inplace_op SoftMax.output SoftMax.in_desc fst snd].
    intros _ _. split; [reflexivity|].
    eexists. split; [reflexivity|]. split; [reflexivity|].
    eexists. split; [reflexivity|]. cbn [ptr mem brk].
    rewrite !read_write_eq. split; reflexivity.
Qed.

End Forward.

(** ** Concrete runs on the computing backend *)

(** The integer [n] as a binary32 number. *)
Definition f32 (n : Z) : spec_float := binary_normalize 24 128 n 0 false.

(** A 3x3 convolution, stride 1, padding 1, with 4 filters over 3 channels,
    and an 8x8 input with 3 channels. *)
Definition ex_conv : Convolution.t :=
  {| Convolution.base :=
       {| SlidingLayer.name := "Convolution";
          SlidingLayer.kW := 3; SlidingLayer.kH := 3;
          SlidingLayer.dH := 1; SlidingLayer.dW := 1;
          SlidingLayer.padH := 1; SlidingLayer.padW := 1 |};
     Convolution.output := None;
     Convolution.W := {| ptr := 0; shape := [4; 3; 3; 3] |};
     Convolution.bias := {| ptr := 1; shape := [4] |};
     Convolution.alpha := float_one; Convolution.beta := float_zero;
     Convolution.in_desc := None; Convolution.out_desc := None;
     Convolution.filt_desc := None; Convolution.conv_desc := None;
     Convolution.algo := None; Convolution.ws_size := None;
     Convolution.ws_ptr := None |}.

Definition ex_image : GPUTensor := {| ptr := 2; shape := [1; 3; 8; 8] |}.
Definition ex_image5 : GPUTensor := {| ptr := 2; shape := [1; 5; 8; 8] |}.

Definition ex_dev : @Device test_backend := {| mem := ∅; brk := 3 |}.

(** A 2x2 max pooling with stride 2. *)
Definition ex_pool : Pooling.t :=
  {| Pooling.base :=
       {| SlidingLayer.name := "Pooling";
          SlidingLayer.kW := 2; SlidingLayer.kH := 2;
          SlidingLayer.dH := 2; SlidingLayer.dW := 2;
          SlidingLayer.padH := 0; SlidingLayer.padW := 0 |};
     Pooling.mode := Pooling.MAX;
     Pooling.alpha := float_one; Pooling.beta := float_zero;
     Pooling.pool_desc := None; Pooling.in_desc := None;
     Pooling.out_desc := None; Pooling.output := None |}.

Definition ex_pool_config : dict :=
  <["kW" := JInt 2]> (<["kH" := JInt 2]> (<["dH" := JInt 2]> (<["dW" := JInt 2]>
  (<["padH" := JInt 0]> (<["padW" := JInt 0]> (<["ceil_mode" := JBool true]> ∅)))))).

(** A fully connected layer with weights ((1, 2), (3, 4)) and bias
    (100, 100), and the input vector (1, 1). *)
Definition ex_linear : Linear.t :=
  {| Linear.name := "Linear";
     Linear.W := {| ptr := 0; shape := [2; 2] |};
     Linear.bias := {| ptr := 1; shape := [2] |};
     Linear.output := None |}.

Definition ex_vector : GPUTensor := {| ptr := 2; shape := [1; 2; 1; 1] |}.
Definition ex_vector3 : GPUTensor := {| ptr := 2; shape := [1; 3; 1; 1] |}.
Definition ex_out : GPUTensor := {| ptr := 3; shape := [1; 2; 1; 1] |}.

Definition ex_linear_dev : @Device test_backend :=
  {| mem := <[0%nat := [f32 1; f32 2; f32 3; f32 4]]>
            (<[1%nat := [f32 100; f32 100]]> (<[2%nat := [f32 1; f32 1]]> ∅));
     brk := 3 |}.

(** A dropout layer with [p = 0.5] on a one-element tensor holding [1.0]. *)
Definition ex_dropout : Layer := LDropout (Dropout.init (JFloat f64_half)).
Definition ex_scalar : GPUTensor := {| ptr := 0; shape := [1; 1; 1; 1] |}.
Definition ex_scalar_dev : @Device test_backend :=
  {| mem := <[0%nat := [f32_1]]> ∅; brk := 1 |}.

Lemma ex_conv_axis : axis_ok 8 1 3 1.
Proof. vm_compute. repeat split; try reflexivity; discriminate. Defined.

Lemma ex_pool_axis : axis_ok 8 0 2 2.
Proof. vm_compute. repeat split; try reflexivity; discriminate. Defined.

Lemma le_3_10 : 3 <= 8 + 2 * 1.
Proof. discriminate. Defined.

Lemma le_2_8 : 2 <= 8.
Proof. discriminate. Defined.

(** C1 at the 3x3, stride 1, padding 1 convolution on the 8x8 input: the
    output is the fresh tensor of shape (1, 4, 8, 8), and [configure]
    returns. *)
Lemma Convolution_configure_output_shape_witness :
  Convolution.output
    (fst (snd (Convolution.configure (B := test_backend) ex_image (ex_conv, ex_dev)))) =
    Some {| ptr := 3; shape := [1; 4; 8; 8] |} /\
  fst (Convolution.configure (B := test_backend) ex_image (ex_conv, ex_dev)) = Ok tt.
Proof.
  pose proof (Convolution_configure_output_shape (B := test_backend)
                ex_conv ex_image ex_dev 1 3 8 8 4 [3; 3] eq_refl eq_refl
                ex_conv_axis ex_conv_axis le_3_10 le_3_10) as [H1 H2].
  split; [exact H1|exact (H2 1 4 eq_refl)].
Defined.

(** C1, the claim as stated, at a kernel of 8 with padding [2^52 - 1] and
    stride [2^53 - 1] on the 8x8 input: [in + 2p >= k] holds and the formula
    gives 1, but the quotient [(2^53 - 2) / (2^53 - 1)] plus one rounds to
    2.0 in binary64, and the output tensor is allocated with spatial size 2. *)
Definition ex_wide : SlidingLayer.t :=
  {| SlidingLayer.name := "wide";
     SlidingLayer.kW := 8; SlidingLayer.kH := 8;
     SlidingLayer.dH := 2 ^ 53 - 1; SlidingLayer.dW := 2 ^ 53 - 1;
     SlidingLayer.padH := 2 ^ 52 - 1; SlidingLayer.padW := 2 ^ 52 - 1 |}.

Definition ex_conv_wide : Convolution.t :=
  {| Convolution.base := ex_wide;
     Convolution.output := None;
     Convolution.W := {| ptr := 0; shape := [4; 3; 8; 8] |};
     Convolution.bias := {| ptr := 1; shape := [4] |};
     Convolution.alpha := float_one; Convolution.beta := float_zero;
     Convolution.in_desc := None; Convolution.out_desc := None;
     Convolution.filt_desc := None; Convolution.conv_desc := None;
     Convolution.algo := None; Convolution.ws_size := None;
     Convolution.ws_ptr := None |}.

Definition ex_pool_wide : Pooling.t :=
  {| Pooling.base := ex_wide;
     Pooling.mode := Pooling.MAX;
     Pooling.alpha := float_one; Pooling.beta := float_zero;
     Pooling.pool_desc := None; Pooling.in_desc := None;
     Pooling.out_desc := None; Pooling.output := None |}.

Lemma Convolution_configure_inexact :
  shape ex_image = [1; 3; 8; 8] /\
  SlidingLayer.kW ex_wide <= 8 + 2 * SlidingLayer.padW ex_wide /\
  (8 + 2 * SlidingLayer.padW ex_wide - SlidingLayer.kW ex_wide) / SlidingLayer.dW ex_wide + 1 = 1 /\
  Convolution.output
    (fst (snd (Convolution.configure (B := test_backend) ex_image (ex_conv_wide, ex_dev)))) =
    Some {| ptr := 3; shape := [1; 4; 2; 2] |}.
Proof.
  split; [reflexivity|]. split; [discriminate|]. split; vm_compute; reflexivity.
Qed.

(** C2 at the 2x2, stride 2 pooling on the 8x8 input: the output is the
    fresh tensor of shape (1, 3, 4, 4). *)
Lemma Pooling_configure_output_shape_witness :
  fst (Pooling.configure (B := test_backend) ex_image (ex_pool, ex_dev)) = Ok tt /\
  Pooling.output
    (fst (snd (Pooling.configure (B := test_backend) ex_image (ex_pool, ex_dev)))) =
  Some {| ptr := 3; shape := [1; 3; 4; 4] |}.
Proof.
  exact (proj1 (Pooling_configure_output_shape (B := test_backend)
                  ex_pool ex_image ex_dev 1 3 8 8 eq_refl
                  ex_pool_axis ex_pool_axis)
               (conj le_2_8 le_2_8)).
Defined.

(** C2, the claim as stated, at the same sizes: [in >= k] holds, the formula
    gives 1, and [configure] succeeds with an output of spatial size 2. *)
Lemma Pooling_configure_inexact :
  shape ex_image = [1; 3; 8; 8] /\
  SlidingLayer.kW ex_wide <= 8 /\
  (8 - SlidingLayer.kW ex_wide + 2 * SlidingLayer.padW ex_wide) / SlidingLayer.dW ex_wide + 1 = 1 /\
  fst (Pooling.configure (B := test_backend) ex_image (ex_pool_wide, ex_dev)) = Ok tt /\
  Pooling.output
    (fst (snd (Pooling.configure (B := test_backend) ex_image (ex_pool_wide, ex_dev)))) =
    Some {| ptr := 3; shape := [1; 3; 2; 2] |}.
Proof.
  split; [reflexivity|]. split; [discriminate|]. repeat split; vm_compute; reflexivity.
Qed.

(** C3 at the 2x2 example: the output buffer holds (3, 7); the bias
    (100, 100) is not added. *)
Lemma Linear_fprop_matvec_witness :
  read (snd (snd (Linear.fprop (B := test_backend) ex_vector
                    (Linear.set_output ex_out ex_linear, ex_linear_dev))))
       (ptr ex_out) = [f32 3; f32 7].
Proof.
  rewrite (proj1 (Linear_fprop_matvec (B := test_backend)
                    (Linear.set_output ex_out ex_linear) ex_vector ex_out
                    ex_linear_dev 2 2 eq_refl eq_refl eq_refl eq_refl)).
  vm_compute. reflexivity.
Defined.

(** C6 at a 5-channel input for the 3-channel filters. *)
Lemma Convolution_configure_channel_mismatch_witness :
  Convolution.configure (B := test_backend) ex_image5 (ex_conv, ex_dev) =
  (Raise AssertionError, (ex_conv, ex_dev)).
Proof.
  exact (Convolution_configure_channel_mismatch (B := test_backend)
           ex_conv ex_image5 ex_dev 1 5 8 8 4 3 [] [3; 3] eq_refl eq_refl
           ltac:(discriminate)).
Defined.

(** C7 at a complete pooling record that asks for ceiling rounding. *)
Lemma Pooling_init_ceil_mode_witness :
  Pooling.init Pooling.MAX ex_pool_config "Pooling" = Raise AssertionError.
Proof.
  rewrite (Pooling_init_ceil_mode Pooling.MAX ex_pool_config "Pooling" eq_refl).
  reflexivity.
Defined.

(** C8 at the 2x2 weights: a 2-element input is accepted and gives an output
    of shape (1, 2, 1, 1); a 3-element input is refused. *)
Lemma Linear_configure_shape_witness :
  Linear.configure (B := test_backend) ex_vector (ex_linear, ex_linear_dev) =
    (Ok tt, (Linear.set_output ex_out ex_linear,
             {| mem := mem ex_linear_dev; brk := 4 |})) /\
  Linear.configure (B := test_backend) ex_vector3 (ex_linear, ex_linear_dev) =
    (Raise AssertionError, (ex_linear, ex_linear_dev)).
Proof.
  split.
  - exact (proj2 (Linear_configure_shape (B := test_backend)
                    ex_linear ex_vector ex_linear_dev 2 2 [] eq_refl
                    ltac:(cbn; lia)) eq_refl).
  - exact (proj1 (Linear_configure_shape (B := test_backend)
                    ex_linear ex_vector3 ex_linear_dev 2 2 [] eq_refl
                    ltac:(cbn; lia)) ltac:(discriminate)).
Defined.

(** C5, the claim as stated, at the dropout layer: one forward pass leaves
    0.5 in the output, a second pass on the same input leaves 0.25. *)
Lemma Dropout_fprop_twice_differs :
  let l := fst (snd (Layer_configure (B := test_backend) ex_scalar
                       (ex_dropout, ex_scalar_dev))) in
  let s1 := Layer_fprop (B := test_backend) ex_scalar (l, ex_scalar_dev) in
  let s2 := Layer_fprop (B := test_backend) ex_scalar (snd s1) in
  fst (Layer_configure (B := test_backend) ex_scalar (ex_dropout, ex_scalar_dev)) = Ok tt /\
  fst s1 = Ok tt /\ fst s2 = Ok tt /\
  Layer_output l = Some ex_scalar /\
  read (snd (snd s1)) (ptr ex_scalar) = [f32_half] /\
  read (snd (snd s2)) (ptr ex_scalar) = [f32_quarter] /\
  read (snd (snd s2)) (ptr ex_scalar) <> read (snd (snd s1)) (ptr ex_scalar).
Proof.
  vm_compute. repeat split; try reflexivity. discriminate.
Qed.

(** C5 as amended, at the fully connected example: a second forward pass
    leaves the output as the first one did. *)
Lemma Layer_fprop_twice_witness :
  let l := LLinear (Linear.set_output ex_out ex_linear) in
  let s1 := Layer_fprop (B := test_backend) ex_vector (l, ex_linear_dev) in
  let s2 := Layer_fprop (B := test_backend) ex_vector (l, snd (snd s1)) in
  read (snd (snd s2)) (ptr ex_out) = read (snd (snd s1)) (ptr ex_out).
Proof.
  intros l s1 s2.
  destruct (Layer_fprop_twice (B := test_backend)
              (LLinear ex_linear) l ex_vector ex_linear_dev
              {| mem := mem ex_linear_dev; brk := 4 |} ex_linear_dev)
    as (_ & out & Ho & H);
    [unfold allocated; cbn; lia | repeat constructor
    | reflexivity | reflexivity | reflexivity | ].
  cbn in Ho. inversion Ho; subst out. exact H.
Defined.

(** C4 at an Activation layer declared [TanH], on a buffer holding -1: the
    forward pass leaves 0, the ReLU of -1, where tanh(-1) is negative. *)
Example Activation_TanH_example :
  let l := {| Activation.func := Activation.TanH;
              Activation.alpha := float_one; Activation.beta := float_zero;
              Activation.output := Some ex_scalar;
              Activation.inout_desc := Some [1; 1; 1; 1] |} in
  let d : @Device test_backend := {| mem := <[0%nat := [f32 (-1)]]> ∅; brk := 1 |} in
  read (snd (snd (Activation.fprop (B := test_backend) ex_scalar (l, d)))) 0 =
  [S754_zero false].
Proof. vm_compute. reflexivity. Qed.

(** C9 on two model files: a ["View"] record is left out and the others
    are built in order; a record of an unknown type stops the construction. *)
Definition ex_record (ty : string) : dict := <["type" := JStr ty]> (<["p" := JFloat f64_half]> ∅).

Example Model_init_example :
  let jm := {| Model.modelName := Some "net";
               Model.jlayers := Some [ex_record "ReLU"; ex_record "View";
                                      ex_record "Dropout"; ex_record "LogSoftMax"] |} in
  match fst (Model.init (B := test_backend) ∅ "models/net.json" jm ex_dev) with
  | Ok m => map Layer_kind (Model.layers m) = [KActivation; KDropout; KSoftMax]
  | Raise _ => False
  end.
Proof. vm_compute. reflexivity. Qed.

Example Model_init_unsupported_example :
  let jm := {| Model.modelName := Some "net";
               Model.jlayers := Some [ex_record "ReLU"; ex_record "SpatialBatchNormalization";
                                      ex_record "LogSoftMax"] |} in
  fst (Model.init (B := test_backend) ∅ "models/net.json" jm ex_dev) = Raise RuntimeError.
Proof. vm_compute. reflexivity. Qed.

(** The two named rows of the convolution table, for sizes that fit a C
    [int]: kernel 1, stride 1, no padding keeps the size; kernel 3, stride 2,
    padding 1 gives [floor((n - 1) / 2) + 1], half of [n] rounded up. *)
Corollary conv_out_dim_same_size (n : Z) :
  c_int n -> 1 <= n -> conv_out_dim n 0 1 1 = Ok n.
Proof.
  intros Hn H1. rewrite conv_out_dim_axis; unfold axis_ok, c_int in *; try lia.
  f_equal. rewrite Z.div_1_r. lia.
Qed.

Corollary conv_out_dim_halving (n : Z) :
  c_int n -> 1 <= n -> conv_out_dim n 1 3 2 = Ok ((n - 1) / 2 + 1).
Proof.
  intros Hn H1. rewrite conv_out_dim_axis; unfold axis_ok, c_int in *; try lia.
  replace (n + 2 * 1 - 3) with (n - 1) by lia. reflexivity.
Qed.

(** * Further properties of the code *)

(** ** The output-size expressions *)

Section Sizes.

Lemma float_of_int_zero : float_of_int 0 = Ok (S754_zero false).
Proof. reflexivity. Qed.

Lemma conv_out_dim_zero_stride (inp pad k : Z) :
  0 <= inp < 2 ^ 53 -> 0 <= 2 * pad < 2 ^ 53 -> 0 <= k < 2 ^ 53 ->
  conv_out_dim inp pad k 0 = Raise ZeroDivisionError.
Proof.
  intros Hi Hp Hk. unfold conv_out_dim.
  destruct (F64.float_of_int_Fint inp Hi) as (fi & -> & _).
  destruct (F64.float_of_int_Fint (2 * pad) Hp) as (fp & -> & _).
  destruct (F64.float_of_int_Fint k Hk) as (fk & -> & _).
  rewrite float_of_int_zero. reflexivity.
Qed.

Lemma pool_out_dim_zero_stride (inp pad k : Z) :
  0 <= pad -> 0 <= k <= inp -> inp + 2 * pad < 2 ^ 53 ->
  pool_out_dim inp pad k 0 = Raise ZeroDivisionError.
Proof.
  intros Hp Hk Hb. unfold pool_out_dim.
  destruct (F64.float_of_int_Fint inp ltac:(lia)) as (fi & -> & Hfi).
  destruct (F64.float_of_int_Fint k ltac:(lia)) as (fk & -> & Hfk).
  destruct (F64.float_of_int_Fint (2 * pad) ltac:(lia)) as (fp & -> & Hfp).
  cbn [bind].
  pose proof (F64.Fint_mul_one _ _ Hfi ltac:(lia)) as Ha.
  pose proof (F64.Fint_sub _ _ _ _ Ha Hfk ltac:(lia)) as Hb'.
  pose proof (F64.Fint_add _ _ _ _ Hb' Hfp ltac:(lia)) as Hc.
  destruct (F64.Fint_trunc _ _ Hc) as [_ ->]. cbn [bind].
  unfold int_truediv. destruct (inp - k + 2 * pad); reflexivity.
Qed.

(** X1. The two layers write the output size differently ([Convolution]
    divides a float numerator, [Pooling] floors the numerator and divides two
    integers), but on every axis in the exact range where the kernel fits the
    input, the two expressions return the same integer. *)
Theorem out_dim_conv_pool_agree (inp pad k d : Z) :
  axis_ok inp pad k d -> k <= inp ->
  conv_out_dim inp pad k d = pool_out_dim inp pad k d.
Proof.
  intros Ha Hk.
  rewrite conv_out_dim_axis, pool_out_dim_axis; try assumption.
  - do 2 f_equal. f_equal. lia.
  - unfold axis_ok in Ha. lia.
Qed.

(** X2. The size that [Convolution.configure] computes is the number of
    kernel placements along the padded axis: it is at least 1, the last
    placement ends inside the padded input, and one more would not. *)
Theorem conv_out_dim_placements (inp pad k d : Z) :
  axis_ok inp pad k d -> k <= inp + 2 * pad ->
  exists o, conv_out_dim inp pad k d = Ok o /\
    1 <= o /\
    (o - 1) * d + k <= inp + 2 * pad < o * d + k.
Proof.
  intros Ha Hk. rewrite (conv_out_dim_axis _ _ _ _ Ha Hk).
  eexists. split; [reflexivity|].
  destruct Ha as (Hi & Hp & Hk0 & Hd & _).
  set (x := inp + 2 * pad - k).
  assert (0 <= x) by (unfold x; lia).
  pose proof (Z.div_pos x d ltac:(lia) Hd).
  pose proof (Z.mul_div_le x d Hd).
  pose proof (Z.mul_succ_div_gt x d Hd).
  unfold x in *. nia.
Qed.

(** The same for the size that [Pooling.configure] computes, where the
    kernel fits the unpadded input. *)
Corollary pool_out_dim_placements (inp pad k d : Z) :
  axis_ok inp pad k d -> k <= inp ->
  exists o, pool_out_dim inp pad k d = Ok o /\
    1 <= o /\
    (o - 1) * d + k <= inp + 2 * pad < o * d + k.
Proof.
  intros Ha Hk. rewrite (pool_out_dim_axis _ _ _ _ Ha Hk).
  eexists. split; [reflexivity|].
  destruct Ha as (Hi & Hp & Hk0 & Hd & _).
  set (x := inp - k + 2 * pad).
  assert (0 <= x) by (unfold x; lia).
  pose proof (Z.div_pos x d ltac:(lia) Hd).
  pose proof (Z.mul_div_le x d Hd).
  pose proof (Z.mul_succ_div_gt x d Hd).
  unfold x in *. nia.
Qed.

End Sizes.

(** ** Single layers *)

Ltac destruct_matches H :=
  repeat (cbn [fst snd] in H;
          match type of H with
          | context [match ?e with _ => _ end] =>
              lazymatch e with
              | context [match _ with _ => _ end] => fail
              | _ => destruct e eqn:?
              end
          end).

Section Layers.
Context {B : Backend}.

(** The geometry of a sliding layer and the spatial size of its input, all
    within what cuDNN takes as a C [int]. *)
Definition c_int_geometry (g : SlidingLayer.t) (h w : Z) : Prop :=
  c_int h /\ c_int w /\
  c_int (SlidingLayer.kH g) /\ c_int (SlidingLayer.kW g) /\
  c_int (SlidingLayer.padH g) /\ c_int (SlidingLayer.padW g) /\
  c_int (SlidingLayer.dH g) /\ c_int (SlidingLayer.dW g).

(** X3. A Convolution with a zero stride on either axis: the division in the
    output-size expression raises [ZeroDivisionError]; nothing has been
    allocated or stored by then. *)
Theorem Convolution_configure_zero_stride
    (c : Convolution.t) (x : GPUTensor) (d : Device)
    (n ch h w fm : Z) (rest : list Z) :
  let g := Convolution.base c in
  shape x = [n; ch; h; w] ->
  shape (Convolution.W c) = fm :: ch :: rest ->
  c_int_geometry g h w ->
  SlidingLayer.kH g <= h + 2 * SlidingLayer.padH g ->
  SlidingLayer.kW g <= w + 2 * SlidingLayer.padW g ->
  SlidingLayer.dH g = 0 \/ SlidingLayer.dW g = 0 ->
  Convolution.configure x (c, d) = (Raise ZeroDivisionError, (c, d)).
Proof.
  intros g Hx HW Hg HkH HkW Hz.
  unfold c_int_geometry, c_int in Hg.
  unfold Convolution.configure. st_unfold. fold g.
  rewrite Hx, HW. cbn [lookup list_lookup]. rewrite Z.eqb_refl.
  destruct (Z.eq_dec (SlidingLayer.dW g) 0) as [E|E].
  - rewrite E, conv_out_dim_zero_stride by lia. reflexivity.
  - rewrite conv_out_dim_axis by (unfold axis_ok; lia).
    destruct Hz as [E'|E']; [|contradiction].
    rewrite E', conv_out_dim_zero_stride by lia. reflexivity.
Qed.

(** X4. A Pooling layer with a zero stride on either axis, on an input that
    passes the two assertions: [configure] raises [ZeroDivisionError] and
    leaves the layer and the device as they were. *)
Theorem Pooling_configure_zero_stride
    (p : Pooling.t) (x : GPUTensor) (d : Device) (n ch h w : Z) :
  let g := Pooling.base p in
  shape x = [n; ch; h; w] ->
  c_int_geometry g h w ->
  SlidingLayer.kH g <= h ->
  SlidingLayer.kW g <= w ->
  SlidingLayer.dH g = 0 \/ SlidingLayer.dW g = 0 ->
  Pooling.configure x (p, d) = (Raise ZeroDivisionError, (p, d)).
Proof.
  intros g Hx Hg HkH HkW Hz.
  unfold c_int_geometry, c_int in Hg.
  unfold Pooling.configure. st_unfold. fold g.
  rewrite Hx. cbn [lookup list_lookup].
  destruct (Z.leb_spec (SlidingLayer.kW g) w); [|lia].
  destruct (Z.leb_spec (SlidingLayer.kH g) h); [|lia].
  destruct (Z.eq_dec (SlidingLayer.dW g) 0) as [E|E].
  - rewrite E, pool_out_dim_zero_stride by lia. reflexivity.
  - rewrite pool_out_dim_axis by (unfold axis_ok; lia).
    destruct Hz as [E'|E']; [|contradiction].
    rewrite E', pool_out_dim_zero_stride by lia. reflexivity.
Qed.

(** X5. A Convolution or Pooling layer configured on a tensor with fewer
    than four axes: reading the shape raises [IndexError] before the layer or
    the device is touched. *)
Theorem sliding_configure_rank (l : Layer) (x : GPUTensor) (d : Device) :
  Layer_kind l = KConvolution \/ Layer_kind l = KPooling ->
  (length (shape x) < 4)%nat ->
  Layer_configure x (l, d) = (Raise IndexError, (l, d)).
Proof.
  intros Hk Hlen.
  destruct l as [c|c|c|c|c|c]; cbn [Layer_kind] in Hk;
    try (destruct Hk; discriminate);
    unfold Layer_configure, as_layer; cbn [fst snd];
    [unfold Convolution.configure | unfold Pooling.configure]; st_unfold;
    destruct (shape x) as [|a [|b [|e [|f s]]]]; cbn in Hlen |- *;
    try reflexivity; lia.
Qed.

(** X6. What a successful [Convolution.configure] leaves behind: the output
    tensor is the one fresh buffer, the descriptors are those of the input,
    the output and the layer's geometry (cross-correlation, no upscaling),
    the workspace is allocated only when the backend asks for a positive size
    and is the null pointer otherwise; the contents of the device memory and
    the layer's parameters are untouched. *)
Theorem Convolution_configure_plan
    (c c' : Convolution.t) (x : GPUTensor) (d d' : Device) :
  Convolution.configure x (c, d) = (Ok tt, (c', d')) ->
  exists out sz,
    Convolution.output c' = Some out /\ ptr out = brk d /\
    Convolution.in_desc c' = Some (shape x) /\
    Convolution.out_desc c' = Some (shape out) /\
    Convolution.conv_desc c' =
      Some {| c_pad_h := SlidingLayer.padH (Convolution.base c);
              c_pad_w := SlidingLayer.padW (Convolution.base c);
              c_u := SlidingLayer.dH (Convolution.base c);
              c_v := SlidingLayer.dW (Convolution.base c);
              c_upscale_x := 1; c_upscale_y := 1;
              c_mode := CUDNN_CROSS_CORRELATION |} /\
    Convolution.ws_size c' = Some sz /\
    Convolution.ws_ptr c' = Some (if 0 <? sz then Z.of_nat (S (brk d)) else 0) /\
    brk d' = (if 0 <? sz then S (S (brk d)) else S (brk d)) /\
    mem d' = mem d /\
    Convolution.W c' = Convolution.W c /\
    Convolution.bias c' = Convolution.bias c /\
    Convolution.base c' = Convolution.base c.
Proof.
  unfold Convolution.configure, GPUTensor_new, mem_alloc. st_unfold. intros H.
  destruct_matches H; try discriminate H.
  all: inversion H; subst; clear H; cbn in *.
  all: do 2 eexists; repeat split; try reflexivity.
  all: match goal with E : (0 <? _) = _ |- _ => rewrite E end; reflexivity.
Qed.

(** X7. The pooling mode the layer was constructed with is not what
    [configure] hands to cuDNN: for [AVG] as for [MAX] the descriptor it
    builds is a max-pooling descriptor, with the layer's kernel, padding and
    stride; the mode field itself is kept. *)
Theorem Pooling_configure_descriptor
    (p p' : Pooling.t) (x : GPUTensor) (d d' : Device) :
  Pooling.configure x (p, d) = (Ok tt, (p', d')) ->
  Pooling.pool_desc p' =
    Some {| p_mode := CUDNN_POOLING_MAX;
            p_h := SlidingLayer.kH (Pooling.base p);
            p_w := SlidingLayer.kW (Pooling.base p);
            p_pad_h := SlidingLayer.padH (Pooling.base p);
            p_pad_w := SlidingLayer.padW (Pooling.base p);
            p_stride_h := SlidingLayer.dH (Pooling.base p);
            p_stride_w := SlidingLayer.dW (Pooling.base p) |} /\
  Pooling.mode p' = Pooling.mode p /\
  Pooling.in_desc p' = Some (shape x) /\
  (exists out, Pooling.output p' = Some out /\ ptr out = brk d /\
               Pooling.out_desc p' = Some (shape out)) /\
  d' = {| mem := mem d; brk := S (brk d) |}.
Proof.
  unfold Pooling.configure, GPUTensor_new. st_unfold. intros H.
  destruct_matches H; try discriminate H.
  inversion H; subst; clear H; cbn.
  repeat split; try reflexivity. eexists. repeat split; reflexivity.
Qed.

(** X8. The algorithm selector of a SoftMax layer is not read either: for
    [FAST] as for [LOG], configuring the layer on a tensor and running it
    writes the backend's log-soft-max over the channel axis of the tensor's
    data back into the tensor's own buffer. *)
Theorem SoftMax_fprop_runs_log (mode : SoftMax.Mode) (x : GPUTensor) (d : Device) :
  let s := snd (SoftMax.configure x (SoftMax.init mode, d)) in
  SoftMax.output (fst s) = Some x /\
  SoftMax.fprop x s =
    (Ok tt, (fst s,
             {| mem := <[ptr x :=
                  cudnnSoftmaxForward CUDNN_SOFTMAX_LOG CUDNN_SOFTMAX_MODE_CHANNEL
                    float_one (shape x) (read d (ptr x)) float_zero (shape x)]> (mem d);
                brk := brk d |})).
Proof. split; reflexivity. Qed.

(** X9. A Linear layer that [configure] accepted can run: on the tensor it
    was configured with (of fewer than [2^63] elements), and whatever the
    device holds by then, [fprop] succeeds and leaves the product of the
    weight matrix with the flattened input in the buffer that [configure]
    allocated. *)
Theorem Linear_configure_then_fprop
    (l l' : Linear.t) (x : GPUTensor) (d d' d1 : Device) (outF inF : Z) :
  shape (Linear.W l) = [outF; inF] ->
  0 <= shape_size (shape x) < 2 ^ 63 ->
  Linear.configure x (l, d) = (Ok tt, (l', d')) ->
  Linear.fprop x (l', d1) =
    (Ok tt, (l', {| mem := <[brk d :=
                     matvec (Z.to_nat outF) (Z.to_nat inF)
                       (read d1 (ptr (Linear.W l))) (read d1 (ptr x))]> (mem d1);
                   brk := brk d1 |})).
Proof.
  intros HW Hsz. unfold Linear.configure, GPUTensor_new. st_unfold.
  rewrite HW, np_prod_shape_size by lia. cbn [lookup list_lookup].
  destruct (Z.eqb_spec (shape_size (shape x)) inF) as [E|E]; [|discriminate].
  cbn [fst snd]. intros H. inversion H; subst l' d'. clear H.
  unfold Linear.fprop, reshape, cublas_gemm, write. st_unfold.
  cbn [Linear.set_output Linear.W Linear.output]. rewrite HW. cbn [lookup list_lookup].
  rewrite E.
  unfold shape_size at 1. cbn [fold_left]. rewrite Z.mul_1_l, Z.mul_1_r, Z.eqb_refl.
  replace (shape_size [outF; 1] =? shape_size (shape {| ptr := brk d; shape := [1; outF; 1; 1] |}))
    with true by (symmetry; apply Z.eqb_eq; unfold shape_size; cbn; lia).
  cbn [ptr shape lookup list_lookup fst snd].
  change (Z.to_nat 1) with 1%nat. rewrite gemm_data_matvec. reflexivity.
Qed.

End Layers.

(** ** Construction from the model file *)

Section Construction.
Context {B : Backend}.

(** The keys that [SlidingLayer.__init__] copies from the record. *)
Definition geometry_keys : list string := ["kW"; "kH"; "dH"; "dW"; "padH"; "padW"].

(** X10. [SlidingLayer.__init__] on a record whose geometry entries are
    integers: either all six keys are present and each field of the layer is
    the entry of its own key, or a key is missing and the constructor raises
    [KeyError]. *)
Theorem SlidingLayer_init_keys (config : dict) (name : string) :
  (forall k v, In k geometry_keys -> config !! k = Some v -> exists n, v = JInt n) ->
  match SlidingLayer.init config name with
  | Ok g =>
      SlidingLayer.name g = name /\
      config !! "kW" = Some (JInt (SlidingLayer.kW g)) /\
      config !! "kH" = Some (JInt (SlidingLayer.kH g)) /\
      config !! "dH" = Some (JInt (SlidingLayer.dH g)) /\
      config !! "dW" = Some (JInt (SlidingLayer.dW g)) /\
      config !! "padH" = Some (JInt (SlidingLayer.padH g)) /\
      config !! "padW" = Some (JInt (SlidingLayer.padW g))
  | Raise e => e = KeyError /\ exists k, In k geometry_keys /\ config !! k = None
  end.
Proof.
  intros Hint. unfold SlidingLayer.init, SlidingLayer.geti, getitem.
  assert (Hk : forall k, In k geometry_keys ->
            config !! k = None \/ exists n, config !! k = Some (JInt n)).
  { intros k Hin. destruct (config !! k) as [v|] eqn:E; [right|left; reflexivity].
    destruct (Hint k v Hin E) as (n & ->). eauto. }
  unfold geometry_keys in Hk.
  destruct (Hk "kW") as [E1|(n1 & E1)]; [cbn; tauto| |]; rewrite E1; cbn [bind as_int];
    [split; [reflexivity|]; exists "kW"; split; [cbn; tauto|assumption]|].
  destruct (Hk "kH") as [E2|(n2 & E2)]; [cbn; tauto| |]; rewrite E2; cbn [bind as_int];
    [split; [reflexivity|]; exists "kH"; split; [cbn; tauto|assumption]|].
  destruct (Hk "dH") as [E3|(n3 & E3)]; [cbn; tauto| |]; rewrite E3; cbn [bind as_int];
    [split; [reflexivity|]; exists "dH"; split; [cbn; tauto|assumption]|].
  destruct (Hk "dW") as [E4|(n4 & E4)]; [cbn; tauto| |]; rewrite E4; cbn [bind as_int];
    [split; [reflexivity|]; exists "dW"; split; [cbn; tauto|assumption]|].
  destruct (Hk "padH") as [E5|(n5 & E5)]; [cbn; tauto| |]; rewrite E5; cbn [bind as_int];
    [split; [reflexivity|]; exists "padH"; split; [cbn; tauto|assumption]|].
  destruct (Hk "padW") as [E6|(n6 & E6)]; [cbn; tauto| |]; rewrite E6; cbn [bind as_int];
    [split; [reflexivity|]; exists "padW"; split; [cbn; tauto|assumption]|].
  cbn. auto 10.
Qed.

(** X11. Where the parameters of a fully connected layer come from: for a
    model file at [path] with one ["Linear"] record naming the files [fw]
    and [fb], the weights are read from [fw] and the bias from [fb], both
    taken relative to the directory of the model file (whatever ["baseDir"]
    the record may carry itself), into two fresh buffers in that order. A file
    that does not exist stops the construction; the weights loaded before a
    missing bias file stay on the device. *)
Theorem Model_init_parameter_files
    (files : Files) (path name fw fb : string) (more : list json) (rc : dict)
    (d : Device) :
  rc !! "type" = Some (JStr "Linear") ->
  rc !! "parameterFiles" = Some (JList (JStr fw :: JStr fb :: more)) ->
  let dir := os_path_dirname path in
  Model.init files path
    {| Model.modelName := Some name; Model.jlayers := Some [rc] |} d =
  match files !! os_path_join dir fw with
  | None => (Raise FileNotFoundError, d)
  | Some (sw, dw) =>
      let d1 := {| mem := <[brk d := dw]> (mem d); brk := S (brk d) |} in
      match files !! os_path_join dir fb with
      | None => (Raise FileNotFoundError, d1)
      | Some (sb, db) =>
          (Ok {| Model.layers :=
                   [LLinear {| Linear.name := "Linear";
                               Linear.W := {| ptr := brk d; shape := sw |};
                               Linear.bias := {| ptr := S (brk d); shape := sb |};
                               Linear.output := None |}];
                 Model.input := None; Model.name := name |},
           {| mem := <[S (brk d) := db]> (mem d1); brk := S (S (brk d)) |})
      end
  end.
Proof.
  intros Hty Hpf dir.
  unfold Model.init. st_unfold.
  cbn [Model.modelName Model.jlayers Model.build_layers fst snd].
  unfold Model.instantiate_layer, Linear.init, param_path, getitem, GPUTensor_load.
  st_unfold.
  rewrite Hty. cbn [py_eq_str String.eqb Ascii.eqb Bool.eqb fst snd].
  rewrite !lookup_insert_ne by discriminate. rewrite Hty.
  cbn [py_eq_str String.eqb Ascii.eqb Bool.eqb fst snd].
  rewrite lookup_insert_eq. rewrite !lookup_insert_ne by discriminate. rewrite Hpf.
  cbn [json_index lookup list_lookup as_str fst snd]. fold dir.
  destruct (files !! os_path_join dir fw) as [[sw dw]|]; [|reflexivity].
  cbn [fst snd brk mem].
  destruct (files !! os_path_join dir fb) as [[sb db]|]; reflexivity.
Qed.

End Construction.

(** ** The configure / evaluate protocol *)

Section Protocol.
Context {B : Backend}.

(** The layers whose output is their input tensor. *)
Definition inplace (l : Layer) : bool :=
  match l with
  | LActivation _ | LDropout _ | LSoftMax _ => true
  | _ => false
  end.

(** The parameter tensors a layer holds. *)
Definition Layer_params (l : Layer) : list GPUTensor :=
  match l with
  | LConvolution c => [Convolution.W c; Convolution.bias c]
  | LLinear c => [Linear.W c; Linear.bias c]
  | _ => []
  end.

(** The attributes that [fprop] reads are set. *)
Definition ready (l : Layer) : Prop :=
  match l with
  | LConvolution c =>
      is_Some (Convolution.output c) /\ is_Some (Convolution.ws_ptr c) /\
      is_Some (Convolution.ws_size c) /\ is_Some (Convolution.in_desc c) /\
      is_Some (Convolution.filt_desc c) /\ is_Some (Convolution.conv_desc c) /\
      is_Some (Convolution.algo c) /\ is_Some (Convolution.out_desc c)
  | LPooling c =>
      is_Some (Pooling.output c) /\ is_Some (Pooling.pool_desc c) /\
      is_Some (Pooling.in_desc c) /\ is_Some (Pooling.out_desc c)
  | LActivation c => is_Some (Activation.inout_desc c)
  | LDropout c => True
  | LLinear c =>
      is_Some (Linear.output c) /\
      is_Some (shape (Linear.W c) !! 0%nat) /\ is_Some (shape (Linear.W c) !! 1%nat)
  | LSoftMax c => is_Some (SoftMax.in_desc c) /\ is_Some (SoftMax.output c)
  end.

(** What [configure] on the tensor [x] establishes. *)
Definition configured_with (x : GPUTensor) (l : Layer) : Prop :=
  ready l /\ is_Some (Layer_output l) /\
  match l with
  | LActivation _ | LDropout _ | LSoftMax _ => Layer_output l = Some x
  | LLinear c =>
      exists p outF,
        shape (Linear.W c) !! 0%nat = Some outF /\
        shape (Linear.W c) !! 1%nat = Some (np_prod (shape x)) /\
        Linear.output c = Some {| ptr := p; shape := [1; outF; 1; 1] |}
  | _ => True
  end.

(** A chain of layers, each configured with the output of the one before. *)
Fixpoint wired (x : GPUTensor) (ls : list Layer) : Prop :=
  match ls with
  | [] => True
  | l :: rest =>
      configured_with x l /\
      exists o, Layer_output l = Some o /\ wired o rest
  end.

(** A device pointer that is the buffer of some layer's output. *)
Definition is_output (ls : list Layer) (p : nat) : Prop :=
  exists l o, In l ls /\ Layer_output l = Some o /\ ptr o = p.

Ltac attr_case t :=
  destruct t eqn:?; [|left; eexists; intros ?; reflexivity].
Ltac attr_case_as t v :=
  destruct t as [v|] eqn:?; [|left; eexists; intros ?; reflexivity].

(** The forward pass of one layer, whatever the device holds: it raises, and
    then changes nothing, or it overwrites one buffer (the input's or the
    output's) with a function of the input buffer and of one parameter
    buffer. Which of the two does not depend on the device. *)
Lemma Layer_fprop_cases (x : GPUTensor) (l : Layer) :
  (exists e, forall d, Layer_fprop x (l, d) = (Raise e, (l, d))) \/
  (exists pw f q,
     (forall d, Layer_fprop x (l, d) =
        (Ok tt, (l, {| mem := <[pw := f (read d (ptr x)) (read d q)]> (mem d);
                       brk := brk d |}))) /\
     (pw = ptr x /\ inplace l = true \/
      exists o, Layer_output l = Some o /\ ptr o = pw) /\
     (q = ptr x \/ exists w, In w (Layer_weights l) /\ ptr w = q)).
Proof.
  destruct l as [c|c|c|c|c|c]; unfold Layer_fprop, as_layer; cbn [fst snd].
  - unfold Convolution.fprop, write. st_unfold.
    attr_case (Convolution.output c). attr_case (Convolution.ws_ptr c).
    attr_case (Convolution.ws_size c). attr_case (Convolution.in_desc c).
    attr_case (Convolution.filt_desc c). attr_case (Convolution.conv_desc c).
    attr_case (Convolution.algo c). attr_case (Convolution.out_desc c).
    right. eexists (ptr _), (fun a b => cudnnConvolutionForward _ _ a _ b _ _ _ _), _.
    split; [intros d; reflexivity|].
    split; [right; cbn; eauto|right; cbn; eauto].
  - unfold Pooling.fprop, write. st_unfold.
    attr_case (Pooling.output c). attr_case (Pooling.pool_desc c).
    attr_case (Pooling.in_desc c). attr_case (Pooling.out_desc c).
    right. eexists (ptr _), (fun a _ => cudnnPoolingForward _ _ _ a _ _), (ptr x).
    split; [intros d; reflexivity|].
    split; [right; cbn; eauto|left; reflexivity].
  - unfold Activation.fprop, write. st_unfold.
    attr_case (Activation.inout_desc c).
    right. eexists (ptr x), (fun a _ => cudnnActivationForward _ _ _ a _ _), (ptr x).
    split; [intros d; reflexivity|].
    split; [left; split; reflexivity|left; reflexivity].
  - unfold Dropout.fprop, write. st_unfold.
    attr_case (as_float (Dropout.p c)).
    right. eexists (ptr x), (fun a _ => map (elem_scale _) a), (ptr x).
    split; [intros d; reflexivity|].
    split; [left; split; reflexivity|left; reflexivity].
  - unfold Linear.fprop, write. st_unfold.
    attr_case_as (shape (Linear.W c) !! 1%nat) inF.
    attr_case_as (reshape x [inF; 1]) x2.
    attr_case_as (Linear.output c) out.
    attr_case_as (shape (Linear.W c) !! 0%nat) outF.
    attr_case_as (reshape out [outF; 1]) out2.
    unfold reshape in *.
    repeat match goal with
           | H : (if ?b then _ else _) = Ok _ |- _ =>
               destruct b; [inversion H; subst; clear H|discriminate H]
           end.
    unfold cublas_gemm, write. st_unfold. cbn [shape ptr lookup list_lookup].
    match goal with H : shape _ !! 0%nat = _ |- _ => rewrite H end.
    match goal with H : shape _ !! 1%nat = _ |- _ => rewrite H end.
    cbn [fst snd].
    right. eexists (ptr _), (fun a b => gemm_data _ _ _ b a), (ptr (Linear.W c)).
    split; [intros d; reflexivity|].
    split; [right; cbn; eauto|right; cbn; eauto].
  - unfold SoftMax.fprop, write. st_unfold.
    attr_case (SoftMax.in_desc c). attr_case (SoftMax.output c).
    right. eexists (ptr _), (fun a _ => cudnnSoftmaxForward _ _ _ _ a _ _), (ptr x).
    split; [intros d; reflexivity|].
    split; [right; cbn; eauto|left; reflexivity].
Qed.

Lemma Layer_configure_frame (x : GPUTensor) (l l' : Layer) (d d' : Device) r :
  Layer_configure x (l, d) = (r, (l', d')) ->
  Layer_kind l' = Layer_kind l /\ Layer_params l' = Layer_params l /\
  Layer_weights l' = Layer_weights l /\
  mem d' = mem d /\ (brk d <= brk d')%nat.
Proof.
  destruct l as [c|c|c|c|c|c]; unfold Layer_configure, as_layer; cbn [fst snd];
    [unfold Convolution.configure | unfold Pooling.configure
    | unfold Activation.configure | unfold Dropout.configure
    | unfold Linear.configure | unfold SoftMax.configure];
    unfold GPUTensor_new, mem_alloc; st_unfold; intros H;
    destruct_matches H; inversion H; subst; cbn; repeat split; lia.
Qed.

Lemma Layer_configure_spec (x : GPUTensor) (l l' : Layer) (d d' : Device) :
  Layer_configure x (l, d) = (Ok tt, (l', d')) ->
  configured_with x l' /\
  (inplace l' = false ->
   exists o, Layer_output l' = Some o /\ (brk d <= ptr o < brk d')%nat).
Proof.
  destruct l as [c|c|c|c|c|c]; unfold Layer_configure, as_layer; cbn [fst snd];
    [unfold Convolution.configure | unfold Pooling.configure
    | unfold Activation.configure | unfold Dropout.configure
    | unfold Linear.configure | unfold SoftMax.configure];
    unfold GPUTensor_new, mem_alloc; st_unfold; intros H;
    destruct_matches H; try discriminate H; inversion H; subst; clear H;
    unfold configured_with, ready, is_Some; cbn;
    (split; [repeat split; eauto|]); try discriminate;
    try (intros _; eexists; split; [reflexivity|cbn; lia]).
  all: try match goal with
           | H : (_ =? _) = true |- _ => apply Z.eqb_eq in H
           end.
  all: repeat match goal with
              | H : shape _ !! _ = Some _ |- _ => rewrite H
              end.
  all: try (cbn; lia).
  all: try (do 2 eexists; repeat split; try reflexivity; congruence).
Qed.

Lemma as_float_exn (v : json) (e : exn) :
  as_float v = Raise e -> e = TypeError \/ e = OverflowError.
Proof.
  destruct v as [|b|n|f|s|l]; cbn [as_float]; unfold float_of_int;
    try (intros H; inversion H; auto; fail);
    match goal with |- context [match ?t with _ => _ end] => destruct t end;
    intros H; inversion H; auto.
Qed.

(** A layer that holds what [fprop] reads raises neither [AttributeError]
    nor [IndexError]. *)
Lemma Layer_fprop_benign (l : Layer) (x : GPUTensor) (d : Device) :
  ready l ->
  fst (Layer_fprop x (l, d)) <> Raise AttributeError /\
  fst (Layer_fprop x (l, d)) <> Raise IndexError.
Proof.
  destruct l as [c|c|c|c|c|c]; unfold ready, is_Some; intros Hr;
    unfold Layer_fprop, as_layer; cbn [fst snd].
  - destruct Hr as ([? E1] & [? E2] & [? E3] & [? E4] & [? E5] & [? E6] & [? E7] & [? E8]).
    unfold Convolution.fprop, write. st_unfold.
    rewrite E1, E2, E3, E4, E5, E6, E7, E8. cbn. split; discriminate.
  - destruct Hr as ([? E1] & [? E2] & [? E3] & [? E4]).
    unfold Pooling.fprop, write. st_unfold.
    rewrite E1, E2, E3, E4. cbn. split; discriminate.
  - destruct Hr as [? E1].
    unfold Activation.fprop, write. st_unfold.
    rewrite E1. cbn. split; discriminate.
  - unfold Dropout.fprop, write. st_unfold.
    destruct (as_float (Dropout.p c)) as [sc|e] eqn:E; cbn; [split; discriminate|].
    apply as_float_exn in E. destruct E; subst; split; discriminate.
  - destruct Hr as ([out E1] & [outF E2] & [inF E3]).
    unfold Linear.fprop, reshape, cublas_gemm, write. st_unfold.
    rewrite E1, E2, E3. cbn [fst snd].
    destruct (shape_size [inF; 1] =? shape_size (shape x)); cbn [fst snd shape];
      [|split; discriminate].
    destruct (shape_size [outF; 1] =? shape_size (shape out));
      cbn [fst snd shape lookup list_lookup]; [|split; discriminate].
    cbn. split; discriminate.
  - destruct Hr as ([? E1] & [? E2]).
    unfold SoftMax.fprop, write. st_unfold.
    rewrite E1, E2. cbn. split; discriminate.
Qed.

(** A layer configured with [x] runs on [x], given that a Linear layer's
    input has fewer than [2^63] elements and that a Dropout layer's factor is
    a number in the float range. *)
Lemma Layer_fprop_runs (l : Layer) (x : GPUTensor) (d : Device) :
  configured_with x l ->
  (Layer_kind l = KLinear -> 0 <= shape_size (shape x) < 2 ^ 63) ->
  (forall c, l = LDropout c -> exists s, as_float (Dropout.p c) = Ok s) ->
  fst (Layer_fprop x (l, d)) = Ok tt.
Proof.
  intros (Hr & _ & Hc) Hsz Hp.
  destruct l as [c|c|c|c|c|c]; unfold ready, is_Some in Hr;
    unfold Layer_fprop, as_layer; cbn [fst snd].
  - destruct Hr as ([? E1] & [? E2] & [? E3] & [? E4] & [? E5] & [? E6] & [? E7] & [? E8]).
    unfold Convolution.fprop, write. st_unfold.
    rewrite E1, E2, E3, E4, E5, E6, E7, E8. reflexivity.
  - destruct Hr as ([? E1] & [? E2] & [? E3] & [? E4]).
    unfold Pooling.fprop, write. st_unfold.
    rewrite E1, E2, E3, E4. reflexivity.
  - destruct Hr as [? E1].
    unfold Activation.fprop, write. st_unfold.
    rewrite E1. reflexivity.
  - destruct (Hp c eq_refl) as [sc E].
    unfold Dropout.fprop, write. st_unfold. rewrite E. reflexivity.
  - destruct Hc as (p & outF & E0 & E1 & Eo).
    unfold Linear.fprop, reshape, cublas_gemm, write. st_unfold.
    rewrite E0, E1, Eo. cbn [fst snd shape].
    rewrite np_prod_shape_size by (specialize (Hsz eq_refl); lia).
    replace (shape_size [shape_size (shape x); 1] =? shape_size (shape x))
      with true by (symmetry; apply Z.eqb_eq; unfold shape_size at 1; cbn; lia).
    replace (shape_size [outF; 1] =? shape_size [1; outF; 1; 1])
      with true by (symmetry; apply Z.eqb_eq; unfold shape_size; cbn; lia).
    cbn [fst snd shape lookup list_lookup]. reflexivity.
  - destruct Hr as ([? E1] & [? E2]).
    unfold SoftMax.fprop, write. st_unfold.
    rewrite E1, E2. reflexivity.
Qed.

(** For a layer configured with [x], the buffer that a forward pass on [x]
    overwrites is the buffer of the layer's output. *)
Lemma Layer_fprop_writes_output (l : Layer) (x o : GPUTensor) (pw : nat) :
  configured_with x l -> Layer_output l = Some o ->
  (pw = ptr x /\ inplace l = true \/
   exists o', Layer_output l = Some o' /\ ptr o' = pw) ->
  pw = ptr o.
Proof.
  intros (_ & _ & Hc) Ho [[-> Hi]|(o' & Ho' & <-)].
  - destruct l; try discriminate Hi; rewrite Hc in Ho; congruence.
  - congruence.
Qed.

Lemma configure_chain_frame (ls : list Layer) :
  forall (x : GPUTensor) (d d' : Device) r (ls' : list Layer),
  Model.configure_chain ls x d = (r, (ls', d')) ->
  map Layer_kind ls' = map Layer_kind ls /\
  map Layer_params ls' = map Layer_params ls /\
  map Layer_weights ls' = map Layer_weights ls /\
  mem d' = mem d /\ (brk d <= brk d')%nat.
Proof.
  induction ls as [|l rest IH]; intros x d d' r ls' H; cbn [Model.configure_chain] in H.
  - inversion H; subst. repeat split; lia.
  - destruct (Layer_configure x (l, d)) as [[[]|e] [l1 d1]] eqn:E;
      apply Layer_configure_frame in E as (Ek & Ep & Ew & Em & Eb).
    + destruct rest as [|l2 rest'].
      * inversion H; subst. cbn [map]. rewrite Ek, Ep, Ew. repeat split; assumption.
      * destruct (Layer_output l1) as [o|].
        -- destruct (Model.configure_chain (l2 :: rest') o d1) as [r' [rest1 d2]] eqn:E2.
           apply IH in E2 as (Ik & Ip & Iw & Im & Ib).
           inversion H; subst. cbn [map] in *. rewrite Ek, Ep, Ew, Ik, Ip, Iw.
           repeat split; [congruence|lia].
        -- inversion H; subst. cbn [map]. rewrite Ek, Ep, Ew. repeat split; assumption.
    + inversion H; subst. cbn [map]. rewrite Ek, Ep, Ew. repeat split; assumption.
Qed.

Lemma configure_chain_wired (ls : list Layer) :
  forall (x : GPUTensor) (d d' : Device) (ls' : list Layer),
  Model.configure_chain ls x d = (Ok tt, (ls', d')) ->
  wired x ls' /\
  Forall (fun l => exists o, Layer_output l = Some o /\
                     (o = x \/ (brk d <= ptr o < brk d')%nat)) ls'.
Proof.
  induction ls as [|l rest IH]; intros x d d' ls' H; cbn [Model.configure_chain] in H.
  - inversion H; subst. split; constructor.
  - destruct (Layer_configure x (l, d)) as [[[]|e] [l1 d1]] eqn:E; [|discriminate H].
    pose proof (Layer_configure_frame _ _ _ _ _ _ E) as (_ & _ & _ & _ & Eb).
    apply Layer_configure_spec in E as (Hc & Hf).
    assert (Ho : exists o, Layer_output l1 = Some o /\
                   (o = x \/ (brk d <= ptr o < brk d1)%nat)).
    { destruct (inplace l1) eqn:Ei.
      - destruct Hc as (_ & _ & Hc). exists x. split; [|auto].
        destruct l1; try discriminate Ei; exact Hc.
      - destruct (Hf eq_refl) as (o & Eo & Hp). eauto. }
    destruct Ho as (o & Eo & Hp).
    destruct rest as [|l2 rest'].
    + inversion H; subst. split.
      * cbn [wired]. split; [exact Hc|]. exists o. split; [exact Eo|exact I].
      * constructor; [|constructor]. eauto.
    + rewrite Eo in H.
      destruct (Model.configure_chain (l2 :: rest') o d1) as [r' [rest1 d2]] eqn:E2.
      inversion H; subst. clear H.
      pose proof (configure_chain_frame _ _ _ _ _ _ E2) as (_ & _ & _ & _ & Eb2).
      apply IH in E2 as (Hw & Hall). split.
      * cbn [wired]. split; [exact Hc|]. exists o. split; [exact Eo|exact Hw].
      * constructor.
        -- exists o. split; [exact Eo|]. destruct Hp as [->|Hp]; [auto|right; lia].
        -- eapply Forall_impl; [exact Hall|]. cbn beta.
           intros l' (o' & Eo' & [E'|Hp']); exists o'; (split; [exact Eo'|]).
           ++ subst o'. destruct Hp as [->|Hp]; [auto|right; lia].
           ++ right. lia.
Qed.

Lemma is_output_cons (l : Layer) (rest : list Layer) (p : nat) :
  is_output (l :: rest) p <->
  (exists o, Layer_output l = Some o /\ ptr o = p) \/ is_output rest p.
Proof.
  unfold is_output. split.
  - intros (l' & o & [<-|Hin] & Ho & Hp); [left; eauto|right; eauto].
  - intros [(o & Ho & Hp)|(l' & o & Hin & Ho & Hp)].
    + exists l, o. cbn. auto.
    + exists l', o. cbn. auto.
Qed.

(** The forward pass over the chain changes no layer, allocates nothing,
    and writes only to the input buffer and to output buffers. *)
Lemma fprop_chain_frame (ls : list Layer) :
  forall (x : GPUTensor) (d : Device),
  fst (snd (Model.fprop_chain ls x d)) = ls /\
  brk (snd (snd (Model.fprop_chain ls x d))) = brk d /\
  forall p, p <> ptr x -> ~ is_output ls p ->
    mem (snd (snd (Model.fprop_chain ls x d))) !! p = mem d !! p.
Proof.
  induction ls as [|l rest IH]; intros x d; cbn [Model.fprop_chain].
  - cbn. auto.
  - destruct (Layer_fprop_cases x l) as [(e & E)|(pw & f & q & E & Hpw & _)];
      rewrite E; [cbn; auto|].
    set (d1 := {| mem := _; brk := brk d |}).
    assert (Hd1 : forall p, p <> ptr x -> ~ is_output (l :: rest) p ->
                    mem d1 !! p = mem d !! p).
    { intros p Hx Hno. unfold d1. cbn [mem]. apply lookup_insert_ne.
      intros <-. destruct Hpw as [[-> _]|(o & Ho & Hp)]; [congruence|].
      apply Hno. apply is_output_cons. left. eauto. }
    destruct rest as [|l2 rest']; [cbn; auto|].
    destruct (Layer_output l) as [o|] eqn:Eo; [|cbn; auto].
    specialize (IH o d1). destruct IH as (I1 & I2 & I3).
    destruct (Model.fprop_chain (l2 :: rest') o d1) as [r' [rest1 d2]].
    cbn [fst snd] in *. subst rest1. split; [reflexivity|]. split; [exact I2|].
    intros p Hx Hno. rewrite I3.
    + apply Hd1; assumption.
    + intros ->. apply Hno. apply is_output_cons. left. eauto.
    + intros Hr. apply Hno. apply is_output_cons. right. exact Hr.
Qed.

(** After [configure], no forward pass fails for a missing attribute or a
    missing axis. *)
Lemma fprop_chain_benign (ls : list Layer) :
  forall (xc x : GPUTensor) (d : Device),
  wired xc ls ->
  fst (Model.fprop_chain ls x d) <> Raise AttributeError /\
  fst (Model.fprop_chain ls x d) <> Raise IndexError.
Proof.
  induction ls as [|l rest IH]; intros xc x d Hw; cbn [Model.fprop_chain].
  - cbn. split; discriminate.
  - destruct Hw as (Hc & o & Eo & Hw).
    pose proof (Layer_fprop_benign l x d (proj1 Hc)) as Hb.
    destruct (Layer_fprop_cases x l) as [(e & E)|(pw & f & q & E & _)];
      rewrite E in *; [exact Hb|].
    destruct rest as [|l2 rest']; [cbn; split; discriminate|].
    rewrite Eo.
    specialize (IH o o {| mem := <[pw := f (read d (ptr x)) (read d q)]> (mem d);
                          brk := brk d |} Hw).
    destruct (Model.fprop_chain (l2 :: rest') o _) as [r' [rest1 d2]].
    exact IH.
Qed.

(** After [configure], the forward pass over the chain runs through, given
    that every tensor has fewer than [2^63] elements and every Dropout factor
    is a number in the float range. *)
Lemma fprop_chain_runs (ls : list Layer) :
  forall (x : GPUTensor) (d : Device),
  wired x ls ->
  0 <= shape_size (shape x) < 2 ^ 63 ->
  (forall l o, In l ls -> Layer_output l = Some o ->
     0 <= shape_size (shape o) < 2 ^ 63) ->
  (forall c, In (LDropout c) ls -> exists s, as_float (Dropout.p c) = Ok s) ->
  fst (Model.fprop_chain ls x d) = Ok tt.
Proof.
  induction ls as [|l rest IH]; intros x d Hw Hx Hsz Hp; cbn [Model.fprop_chain].
  - reflexivity.
  - destruct Hw as (Hc & o & Eo & Hw).
    pose proof (Layer_fprop_runs l x d Hc (fun _ => Hx)) as Hr.
    destruct (Layer_fprop_cases x l) as [(e & E)|(pw & f & q & E & _)];
      rewrite E in *.
    { cbn in Hr. exfalso.
      assert (Raise e = Ok tt :> result unit); [|discriminate].
      apply Hr. intros c ->. apply Hp. left. reflexivity. }
    destruct rest as [|l2 rest']; [reflexivity|].
    rewrite Eo.
    specialize (IH o {| mem := <[pw := f (read d (ptr x)) (read d q)]> (mem d);
                        brk := brk d |} Hw).
    destruct (Model.fprop_chain (l2 :: rest') o _) as [r' [rest1 d2]].
    cbn [fst] in *. apply IH.
    + apply (Hsz l o); [left; reflexivity|exact Eo].
    + intros l' o' Hin. apply Hsz. right. exact Hin.
    + intros c Hin. apply Hp. right. exact Hin.
Qed.

Lemma read_agree (d1 d2 : Device) (p : nat) :
  mem d1 !! p = mem d2 !! p -> read d1 p = read d2 p.
Proof. unfold read. intros ->. reflexivity. Qed.

(** In a configured chain every write goes to an output buffer. *)
Lemma fprop_chain_frame_wired (ls : list Layer) :
  forall (x : GPUTensor) (d : Device),
  wired x ls ->
  forall p, ~ is_output ls p ->
    mem (snd (snd (Model.fprop_chain ls x d))) !! p = mem d !! p.
Proof.
  induction ls as [|l rest IH]; intros x d Hw p Hno; cbn [Model.fprop_chain].
  - reflexivity.
  - destruct Hw as (Hc & o & Eo & Hw).
    destruct (Layer_fprop_cases x l) as [(e & E)|(pw & f & q & E & Hpw & _)];
      rewrite E; [reflexivity|].
    pose proof (Layer_fprop_writes_output l x o pw Hc Eo Hpw) as ->.
    assert (Hp : p <> ptr o).
    { intros ->. apply Hno. apply is_output_cons. left. eauto. }
    destruct rest as [|l2 rest'].
    + cbn [fst snd mem]. apply lookup_insert_ne. congruence.
    + rewrite Eo.
      specialize (IH o {| mem := <[ptr o := f (read d (ptr x)) (read d q)]> (mem d);
                          brk := brk d |} Hw p).
      destruct (Model.fprop_chain (l2 :: rest') o _) as [r' [rest1 d2]].
      cbn [fst snd mem] in *. rewrite IH.
      * apply lookup_insert_ne. congruence.
      * intros Hr. apply Hno. apply is_output_cons. right. exact Hr.
Qed.

(** Two runs of a configured chain from devices that agree on the input
    buffer and on the weights: the runs end alike, they agree wherever the
    devices agreed, and every buffer is either equal after the two runs or
    untouched by both. *)
Lemma fprop_chain_agree (ls : list Layer) :
  forall (x : GPUTensor) (clean : nat -> Prop) (d1 d2 : Device),
  wired x ls ->
  clean (ptr x) ->
  (forall l w, In l ls -> In w (Layer_weights l) -> clean (ptr w)) ->
  (forall p, clean p -> mem d1 !! p = mem d2 !! p) ->
  fst (Model.fprop_chain ls x d1) = fst (Model.fprop_chain ls x d2) /\
  (forall p, clean p ->
     mem (snd (snd (Model.fprop_chain ls x d1))) !! p =
     mem (snd (snd (Model.fprop_chain ls x d2))) !! p) /\
  (forall p,
     mem (snd (snd (Model.fprop_chain ls x d1))) !! p =
     mem (snd (snd (Model.fprop_chain ls x d2))) !! p \/
     (mem (snd (snd (Model.fprop_chain ls x d1))) !! p = mem d1 !! p /\
      mem (snd (snd (Model.fprop_chain ls x d2))) !! p = mem d2 !! p)).
Proof.
  induction ls as [|l rest IH]; intros x clean d1 d2 Hw Hx HW Hag;
    cbn [Model.fprop_chain].
  - cbn. auto.
  - destruct Hw as (Hc & o & Eo & Hw).
    destruct (Layer_fprop_cases x l) as [(e & E)|(pw & f & q & E & Hpw & Hq)];
      rewrite !E; [cbn; auto|].
    pose proof (Layer_fprop_writes_output l x o pw Hc Eo Hpw) as ->.
    assert (Hrx : read d1 (ptr x) = read d2 (ptr x)) by (apply read_agree; auto).
    assert (Hrq : read d1 q = read d2 q).
    { apply read_agree. apply Hag. destruct Hq as [->|(w & Hin & <-)]; [exact Hx|].
      apply (HW l w); [left; reflexivity|exact Hin]. }
    rewrite Hrx, Hrq.
    set (v := f (read d2 (ptr x)) (read d2 q)).
    assert (Hstep : forall p,
              (clean p \/ p = ptr o ->
               (<[ptr o := v]> (mem d1) : gmap nat (list elem)) !! p =
               (<[ptr o := v]> (mem d2) : gmap nat (list elem)) !! p) /\
              (p <> ptr o ->
               (<[ptr o := v]> (mem d1) : gmap nat (list elem)) !! p = mem d1 !! p /\
               (<[ptr o := v]> (mem d2) : gmap nat (list elem)) !! p = mem d2 !! p)).
    { intros p. split.
      - intros Hp. destruct (decide (p = ptr o)) as [->|Hne].
        + rewrite !lookup_insert_eq. reflexivity.
        + rewrite !lookup_insert_ne by congruence.
          destruct Hp as [Hp|Hp]; [auto|contradiction].
      - intros Hne. rewrite !lookup_insert_ne by congruence. auto. }
    destruct rest as [|l2 rest'].
    + cbn [fst snd mem]. split; [reflexivity|]. split.
      * intros p Hp. apply Hstep. auto.
      * intros p. destruct (decide (p = ptr o)) as [->|Hne].
        -- left. apply Hstep. auto.
        -- right. apply Hstep. exact Hne.
    + rewrite Eo.
      specialize (IH o (fun p => clean p \/ p = ptr o)
                    {| mem := <[ptr o := v]> (mem d1); brk := brk d1 |}
                    {| mem := <[ptr o := v]> (mem d2); brk := brk d2 |} Hw).
      destruct IH as (I1 & I2 & I3).
      { right. reflexivity. }
      { intros l' w Hin Hin'. left. apply (HW l' w); [right; exact Hin|exact Hin']. }
      { intros p Hp. cbn [mem]. apply Hstep. exact Hp. }
      destruct (Model.fprop_chain (l2 :: rest') o
                  {| mem := <[ptr o := v]> (mem d1); brk := brk d1 |}) as [r1 [ls1 f1]].
      destruct (Model.fprop_chain (l2 :: rest') o
                  {| mem := <[ptr o := v]> (mem d2); brk := brk d2 |}) as [r2 [ls2 f2]].
      cbn [fst snd mem] in *. split; [exact I1|]. split.
      * intros p Hp. apply I2. left. exact Hp.
      * intros p. destruct (I3 p) as [H|[H1 H2]]; [left; exact H|].
        destruct (decide (p = ptr o)) as [->|Hne].
        -- left. rewrite H1, H2. apply Hstep. auto.
        -- right. rewrite H1, H2. apply Hstep. exact Hne.
Qed.

Lemma wired_outputs (ls : list Layer) :
  forall x, wired x ls -> Forall (fun l => is_Some (Layer_output l)) ls.
Proof.
  induction ls as [|l rest IH]; intros x Hw; constructor.
  - destruct Hw as ((_ & Ho & _) & _). exact Ho.
  - destruct Hw as (_ & o & _ & Hw). exact (IH o Hw).
Qed.

Lemma wired_alias (ls : list Layer) :
  forall x, wired x ls ->
  (forall l, ls !! 0%nat = Some l -> inplace l = true -> Layer_output l = Some x) /\
  (forall i l l', ls !! i = Some l -> ls !! S i = Some l' -> inplace l' = true ->
     Layer_output l' = Layer_output l).
Proof.
  induction ls as [|l0 rest IH]; intros x Hw.
  - split; intros; discriminate.
  - destruct Hw as ((_ & _ & Hc) & o & Eo & Hw). destruct (IH o Hw) as (I1 & I2). split.
    + intros l E Hi. inversion E; subst l. destruct l0; try discriminate Hi; exact Hc.
    + intros [|i] l l' E E' Hi; cbn in E, E'.
      * inversion E; subst l. rewrite Eo. apply I1; assumption.
      * eapply I2; eassumption.
Qed.

Lemma Model_configure_chain (m : Model.t) (x : GPUTensor) (d : Device) :
  Model.configure x (m, d) =
  (fst (Model.configure_chain (Model.layers m) x d),
   ({| Model.layers := fst (snd (Model.configure_chain (Model.layers m) x d));
       Model.input := Some x; Model.name := Model.name m |},
    snd (snd (Model.configure_chain (Model.layers m) x d)))).
Proof.
  unfold Model.configure. cbn [fst snd Model.layers Model.input Model.name].
  destruct (Model.layers m) as [|l rest] eqn:E; [reflexivity|].
  destruct (Model.configure_chain (l :: rest) x d) as [r [ls d']]. reflexivity.
Qed.

Lemma Model_evaluate_chain (m : Model.t) (x : GPUTensor) (d : Device) :
  Model.layers m <> [] ->
  Model.evaluate x (m, d) =
  let s := Model.fprop_chain (Model.layers m) x d in
  let m' := {| Model.layers := fst (snd s); Model.input := Model.input m;
               Model.name := Model.name m |} in
  match fst s with
  | Raise e => (Raise e, (m', snd (snd s)))
  | Ok _ =>
      match last (fst (snd s)) with
      | None => (Raise IndexError, (m', snd (snd s)))
      | Some l =>
          match Layer_output l with
          | None => (Raise AttributeError, (m', snd (snd s)))
          | Some o => (Ok (read (snd (snd s)) (ptr o)), (m', snd (snd s)))
          end
      end
  end.
Proof.
  intros Hne. unfold Model.evaluate. cbn [fst snd].
  destruct (Model.layers m) as [|l rest] eqn:E; [contradiction|].
  destruct (Model.fprop_chain (l :: rest) x d) as [r [ls d']]. reflexivity.
Qed.

Lemma Model_evaluate_state (m : Model.t) (x : GPUTensor) (d : Device) :
  snd (Model.evaluate x (m, d)) =
  (m, snd (snd (Model.fprop_chain (Model.layers m) x d))).
Proof.
  destruct m as [ls inp nm]. destruct ls as [|l rest]; [reflexivity|].
  rewrite Model_evaluate_chain by discriminate.
  cbn [Model.layers Model.input Model.name].
  pose proof (fprop_chain_frame (l :: rest) x d) as (F1 & _).
  destruct (Model.fprop_chain (l :: rest) x d) as [r [ls' d']].
  cbn [fst snd] in *. subst ls'.
  destruct r as [[]|e]; [|reflexivity].
  destruct (last (l :: rest)) as [l'|]; [|reflexivity].
  destruct (Layer_output l'); reflexivity.
Qed.


(** X13. What [Model.configure] does to the model and the device, whether it
    returns or raises: the input is recorded, the layers keep their number,
    order, classes and parameters, the contents of the device memory are
    untouched, and buffers are only added. When it returns, every layer has
    an output tensor, which is the model input itself or a buffer allocated
    during the call. *)
Theorem Model_configure_allocates (m : Model.t) (x : GPUTensor) (d : Device) :
  let s := Model.configure x (m, d) in
  Model.input (fst (snd s)) = Some x /\
  Model.name (fst (snd s)) = Model.name m /\
  map Layer_kind (Model.layers (fst (snd s))) = map Layer_kind (Model.layers m) /\
  map Layer_params (Model.layers (fst (snd s))) = map Layer_params (Model.layers m) /\
  mem (snd (snd s)) = mem d /\
  (brk d <= brk (snd (snd s)))%nat /\
  (fst s = Ok tt ->
   Forall (fun l => exists o, Layer_output l = Some o /\
                      (o = x \/ (brk d <= ptr o < brk (snd (snd s)))%nat))
          (Model.layers (fst (snd s)))).
Proof.
  cbv zeta. rewrite Model_configure_chain.
  cbn [fst snd Model.input Model.name Model.layers].
  destruct (Model.configure_chain (Model.layers m) x d) as [r [ls d']] eqn:E.
  cbn [fst snd].
  pose proof (configure_chain_frame _ _ _ _ _ _ E) as (Hk & Hp & _ & Hm & Hb).
  repeat (split; [assumption || reflexivity|]).
  intros ->. apply configure_chain_wired in E. apply E.
Qed.

(** X14. How [Model.configure] wires the in-place layers: after a successful
    call, an Activation, Dropout or SoftMax layer has as its output the very
    tensor that the layer before it has as output, and the model input if it
    is the first layer; so these layers overwrite the data of their
    predecessor. *)
Theorem Model_configure_wiring (m m' : Model.t) (x : GPUTensor) (d d' : Device) :
  Model.configure x (m, d) = (Ok tt, (m', d')) ->
  (forall l, Model.layers m' !! 0%nat = Some l -> inplace l = true ->
     Layer_output l = Some x) /\
  (forall i l l',
     Model.layers m' !! i = Some l -> Model.layers m' !! S i = Some l' ->
     inplace l' = true -> Layer_output l' = Layer_output l).
Proof.
  rewrite Model_configure_chain. intros H.
  destruct (Model.configure_chain (Model.layers m) x d) as [r [ls d1]] eqn:E.
  cbn [fst snd] in H. inversion H; subst. cbn [Model.layers].
  apply configure_chain_wired in E as (Hw & _). apply wired_alias. exact Hw.
Qed.

Lemma In_map_eq {A C : Type} (f : A -> C) (ls ls' : list A) (a : A) :
  map f ls' = map f ls -> In a ls' -> exists a', In a' ls /\ f a' = f a.
Proof.
  intros E Hin. apply (List.in_map f) in Hin. rewrite E in Hin.
  apply List.in_map_iff in Hin as (a' & Ea & Hin). eauto.
Qed.

(** X15. Inference does not alter the parameters: for a model configured on
    a device where its parameter tensors were already allocated, apart from
    the input, [evaluate] leaves the contents of every weight and bias buffer
    as they were, whatever else the device holds and however the call ends. *)
Theorem Model_evaluate_keeps_parameters
    (m m' : Model.t) (x : GPUTensor) (d d' : Device) :
  Model.configure x (m, d) = (Ok tt, (m', d')) ->
  (forall l w, In l (Model.layers m) -> In w (Layer_params l) ->
     (ptr w < brk d)%nat /\ ptr w <> ptr x) ->
  forall (d1 : Device) l w,
    In l (Model.layers m') -> In w (Layer_params l) ->
    read (snd (snd (Model.evaluate x (m', d1)))) (ptr w) = read d1 (ptr w).
Proof.
  rewrite Model_configure_chain. intros Hc Hp d1 l w Hl Hw.
  destruct (Model.configure_chain (Model.layers m) x d) as [r [ls d2]] eqn:E.
  cbn [fst snd] in Hc. inversion Hc; subst. clear Hc. cbn [Model.layers] in Hl.
  pose proof (configure_chain_frame _ _ _ _ _ _ E) as (_ & Hpar & _).
  apply configure_chain_wired in E as (_ & Hout).
  destruct (In_map_eq _ _ _ _ Hpar Hl) as (l0 & Hl0 & El0).
  rewrite <- El0 in Hw. destruct (Hp l0 w Hl0 Hw) as (Hlt & Hne).
  apply read_agree. rewrite Model_evaluate_state. cbn [fst snd Model.layers].
  apply fprop_chain_frame; [exact Hne|].
  intros (l1 & o & Hin & Ho & Ep).
  rewrite Forall_forall in Hout. destruct (Hout l1) as (o' & Ho' & Hfresh).
  { apply list_elem_of_In. exact Hin. }
  rewrite Ho in Ho'. inversion Ho'; subst o'.
  destruct Hfresh as [->|Hfresh]; [congruence|lia].
Qed.

Lemma configure_chain_nonempty (ls ls' : list Layer) (x : GPUTensor) (d d' : Device) r :
  Model.configure_chain ls x d = (r, (ls', d')) -> ls <> [] -> ls' <> [].
Proof.
  intros E Hne. apply configure_chain_frame in E as (Hk & _).
  intros ->. destruct ls; [contradiction|discriminate Hk].
Qed.

Lemma last_In {A : Type} (l : list A) (a : A) : last l = Some a -> In a l.
Proof.
  intros H. apply last_Some in H as (l' & ->). apply List.in_or_app. right. left. reflexivity.
Qed.

(** X16. After a successful [Model.configure] of a model with at least one
    layer, [evaluate] never fails for a missing attribute or a missing index,
    on whatever input and device it is called: every attribute and every
    axis that the forward passes read has been set. *)
Theorem Model_evaluate_configured_errors
    (m m' : Model.t) (x : GPUTensor) (d d' : Device) :
  Model.configure x (m, d) = (Ok tt, (m', d')) ->
  Model.layers m <> [] ->
  forall (x1 : GPUTensor) (d1 : Device),
    fst (Model.evaluate x1 (m', d1)) <> Raise AttributeError /\
    fst (Model.evaluate x1 (m', d1)) <> Raise IndexError.
Proof.
  rewrite Model_configure_chain. intros Hc Hne x1 d1.
  destruct (Model.configure_chain (Model.layers m) x d) as [r [ls d2]] eqn:E.
  cbn [fst snd] in Hc. inversion Hc; subst. clear Hc.
  pose proof (configure_chain_nonempty _ _ _ _ _ _ E Hne) as Hne'.
  apply configure_chain_wired in E as (Hw & _).
  rewrite Model_evaluate_chain by exact Hne'. cbn [Model.layers Model.input Model.name].
  pose proof (fprop_chain_benign ls x x1 d1 Hw) as Hb.
  pose proof (fprop_chain_frame ls x1 d1) as (Hls & _).
  destruct (Model.fprop_chain ls x1 d1) as [r' [ls' d3]]. cbn [fst snd] in *. subst ls'.
  destruct r' as [[]|e].
  2:{ destruct Hb as [H1 H2]. cbn [fst].
      split; intros H; inversion H; subst; [apply H1|apply H2]; reflexivity. }
  destruct (last ls) as [l|] eqn:El.
  - apply last_In in El. pose proof (wired_outputs ls x Hw) as Ho.
    rewrite Forall_forall in Ho. destruct (Ho l) as [o Eo].
    { apply list_elem_of_In. exact El. }
    rewrite Eo. cbn. split; discriminate.
  - apply last_None in El. contradiction.
Qed.

(** X17. The configure / evaluate protocol: after a successful
    [Model.configure] on [x], where every tensor has fewer than [2^63]
    elements and every Dropout factor is a number in the float range,
    [evaluate] on [x] returns, whatever the device holds; its result is the
    contents of the last layer's output buffer, the model is unchanged and
    nothing is allocated. *)
Theorem Model_configure_then_evaluate
    (m m' : Model.t) (x : GPUTensor) (d d' : Device) :
  Model.configure x (m, d) = (Ok tt, (m', d')) ->
  Model.layers m <> [] ->
  0 <= shape_size (shape x) < 2 ^ 63 ->
  (forall l o, In l (Model.layers m') -> Layer_output l = Some o ->
     0 <= shape_size (shape o) < 2 ^ 63) ->
  (forall c, In (LDropout c) (Model.layers m') ->
     exists s, as_float (Dropout.p c) = Ok s) ->
  forall d1 : Device,
  exists l out d2,
    last (Model.layers m') = Some l /\ Layer_output l = Some out /\
    Model.evaluate x (m', d1) = (Ok (read d2 (ptr out)), (m', d2)) /\
    brk d2 = brk d1.
Proof.
  rewrite Model_configure_chain. intros Hc Hne Hx Hsz Hp d1.
  destruct (Model.configure_chain (Model.layers m) x d) as [r [ls d2]] eqn:E.
  cbn [fst snd] in Hc. inversion Hc; subst. clear Hc. cbn [Model.layers] in *.
  pose proof (configure_chain_nonempty _ _ _ _ _ _ E Hne) as Hne'.
  apply configure_chain_wired in E as (Hw & _).
  rewrite Model_evaluate_chain by exact Hne'. cbn [Model.layers Model.input Model.name].
  pose proof (fprop_chain_runs ls x d1 Hw Hx Hsz Hp) as Hr.
  pose proof (fprop_chain_frame ls x d1) as (Hls & Hb & _).
  destruct (Model.fprop_chain ls x d1) as [r' [ls' d3]]. cbn [fst snd] in *.
  subst ls' r'.
  destruct (last ls) as [l|] eqn:El; [|apply last_None in El; contradiction].
  pose proof (wired_outputs ls x Hw) as Ho.
  rewrite Forall_forall in Ho. destruct (Ho l) as [o Eo].
  { apply list_elem_of_In. apply last_In. exact El. }
  rewrite Eo. exists l, o, d3. auto.
Qed.

(** A layer as its constructor leaves it. *)
Definition unconfigured (l : Layer) : Prop :=
  match l with
  | LConvolution c => Convolution.output c = None
  | LPooling c => Pooling.output c = None
  | LActivation c => Activation.output c = None /\ Activation.inout_desc c = None
  | LDropout c => Dropout.output c = None
  | LLinear c => Linear.output c = None
  | LSoftMax c => SoftMax.output c = None /\ SoftMax.in_desc c = None
  end.

Lemma instantiate_layer_fresh files (layer : dict) (d d' : Device) (l : Layer) :
  Model.instantiate_layer files layer d = (Ok l, d') -> unconfigured l.
Proof.
  unfold Model.instantiate_layer, Convolution.init, Linear.init, Pooling.init,
    GPUTensor_load. st_unfold. intros H.
  destruct_matches H; try discriminate H; inversion H; subst; cbn; auto.
Qed.

Lemma build_layers_fresh files path (recs : list dict) :
  forall (d d' : Device) (ls : list Layer),
  Model.build_layers files path recs d = (Ok ls, d') -> Forall unconfigured ls.
Proof.
  induction recs as [|rc rest IH]; intros d d' ls H.
  - inversion H. constructor.
  - cbn [Model.build_layers] in H. st_unfold.
    destruct (getitem rc "type") as [ty|e]; cbn [fst snd] in H; [|discriminate H].
    destruct (py_eq_str ty "View").
    + eapply IH. exact H.
    + destruct (Model.instantiate_layer files _ d) as [[l|e] d1] eqn:Ei; [|discriminate H].
      destruct (Model.build_layers files path rest d1) as [[ls'|e] d2] eqn:Eb; [|discriminate H].
      inversion H; subst. constructor.
      * eapply instantiate_layer_fresh. exact Ei.
      * eapply IH. exact Eb.
Qed.

Lemma Layer_fprop_fresh (l : Layer) (x : GPUTensor) :
  unconfigured l ->
  match l with
  | LDropout _ => Layer_output l = None
  | _ => exists e, forall d, Layer_fprop x (l, d) = (Raise e, (l, d))
  end.
Proof.
  destruct l as [c|c|c|c|c|c]; cbn [unconfigured]; intros Hf;
    unfold Layer_fprop, as_layer; cbn [fst snd].
  - unfold Convolution.fprop. st_unfold. rewrite Hf. eexists. intros d. reflexivity.
  - unfold Pooling.fprop. st_unfold. rewrite Hf. eexists. intros d. reflexivity.
  - unfold Activation.fprop. st_unfold. rewrite (proj2 Hf). eexists. intros d. reflexivity.
  - exact Hf.
  - unfold Linear.fprop. st_unfold. rewrite Hf.
    destruct (shape (Linear.W c) !! 1%nat) as [inF|];
      [|eexists; intros d; reflexivity].
    destruct (reshape x [inF; 1]); eexists; intros d; reflexivity.
  - unfold SoftMax.fprop. st_unfold. rewrite (proj2 Hf). eexists. intros d. reflexivity.
Qed.

Lemma Model_init_fresh files path (jm : Model.ModelFile) (d0 d1 : Device) (m : Model.t) :
  Model.init files path jm d0 = (Ok m, d1) -> Forall unconfigured (Model.layers m).
Proof.
  unfold Model.init. st_unfold. intros H.
  destruct (Model.modelName jm); cbn [fst snd] in H; [|discriminate H].
  destruct (Model.jlayers jm) as [recs|]; cbn [fst snd] in H; [|discriminate H].
  destruct (Model.build_layers files path recs d0) as [[ls|e] d'] eqn:E;
    cbn [fst snd] in H; [|discriminate H].
  inversion H; subst. cbn [Model.layers]. eapply build_layers_fresh. exact E.
Qed.

(** X18. [evaluate] does not configure: on a model as [Model.__init__]
    leaves it, it always raises, whatever the input. Unless the first layer
    is a Dropout layer (which scales the input before the failure), the
    model and the device are left untouched. *)
Theorem Model_evaluate_before_configure
    (files : Files) (path : string) (jm : Model.ModelFile) (d0 d1 : Device)
    (m : Model.t) :
  Model.init files path jm d0 = (Ok m, d1) ->
  forall (x : GPUTensor) (d : Device),
    (exists e, fst (Model.evaluate x (m, d)) = Raise e) /\
    (hd_error (map Layer_kind (Model.layers m)) <> Some KDropout ->
     snd (Model.evaluate x (m, d)) = (m, d)).
Proof.
  intros H x d. apply Model_init_fresh in H. rename H into Hf.
  destruct m as [ls inp nm]. cbn [Model.layers] in *.
  destruct ls as [|l rest]; [split; [eexists; reflexivity|reflexivity]|].
  rewrite Model_evaluate_state.
  rewrite Model_evaluate_chain by discriminate.
  cbn [Model.layers Model.input Model.name Model.fprop_chain map hd_error].
  apply Forall_cons in Hf as (Hl & _).
  pose proof (Layer_fprop_fresh l x Hl) as Hx.
  destruct l as [c|c|c|c|c|c];
    try (destruct Hx as (e & E); rewrite E; cbn [fst snd];
         split; [eexists; reflexivity|reflexivity]).
  split; [|intros Hk; contradiction Hk; reflexivity].
  destruct (Layer_fprop_cases x (LDropout c)) as [(e & E)|(pw & f & q & E & _)];
    rewrite E; [eexists; reflexivity|].
  destruct rest as [|l2 rest']; cbn [fst snd last]; rewrite Hx;
    eexists; reflexivity.
Qed.

Lemma inplace_kind (l l' : Layer) :
  Layer_kind l' = Layer_kind l -> inplace l' = inplace l.
Proof. destruct l, l'; intros H; try discriminate H; reflexivity. Qed.

(** When the first layer has a buffer of its own, so has every layer. *)
Lemma configure_chain_fresh (l : Layer) (rest ls' : list Layer)
    (x : GPUTensor) (d d' : Device) :
  Model.configure_chain (l :: rest) x d = (Ok tt, (ls', d')) ->
  inplace l = false ->
  Forall (fun l => exists o, Layer_output l = Some o /\
                     (brk d <= ptr o < brk d')%nat) ls'.
Proof.
  cbn [Model.configure_chain]. intros H Hi.
  destruct (Layer_configure x (l, d)) as [[[]|e] [l1 d1]] eqn:E; [|discriminate H].
  pose proof (Layer_configure_frame _ _ _ _ _ _ E) as (Ek & _ & _ & _ & Eb).
  apply Layer_configure_spec in E as (_ & Hf).
  destruct Hf as (o & Eo & Hp); [rewrite (inplace_kind _ _ Ek); exact Hi|].
  destruct rest as [|l2 rest'].
  - inversion H; subst. constructor; [eauto|constructor].
  - rewrite Eo in H.
    destruct (Model.configure_chain (l2 :: rest') o d1) as [r' [rest1 d2]] eqn:E2.
    inversion H; subst. clear H.
    pose proof (configure_chain_frame _ _ _ _ _ _ E2) as (_ & _ & _ & _ & Eb2).
    apply configure_chain_wired in E2 as (_ & Hall).
    constructor.
    + exists o. split; [exact Eo|lia].
    + eapply Forall_impl; [exact Hall|]. cbn beta.
      intros l' (o' & Eo' & [E'|Hp']); exists o'; (split; [exact Eo'|]).
      * subst o'. lia.
      * lia.
Qed.

(** X19. At the level of the model, a second evaluation repeats the first:
    when the first layer has an output buffer of its own (it is a
    Convolution, Pooling or Linear layer) and the input and the weights were
    allocated before [configure], evaluating twice on the configured input
    gives the same result and the same device state as evaluating once,
    although the in-place layers further down overwrite their data at every
    pass. *)
Theorem Model_evaluate_twice (m m' : Model.t) (x : GPUTensor) (d d' : Device) :
  Model.configure x (m, d) = (Ok tt, (m', d')) ->
  (ptr x < brk d)%nat ->
  (forall l w, In l (Model.layers m) -> In w (Layer_weights l) -> (ptr w < brk d)%nat) ->
  hd_error (map inplace (Model.layers m)) = Some false ->
  forall d1 : Device,
    Model.evaluate x (snd (Model.evaluate x (m', d1))) = Model.evaluate x (m', d1).
Proof.
  rewrite Model_configure_chain. intros Hc Hx HW Hhd d1.
  destruct (Model.layers m) as [|l rest] eqn:El; [discriminate Hhd|].
  cbn [map hd_error] in Hhd. inversion Hhd as [Hi]. clear Hhd.
  destruct (Model.configure_chain (l :: rest) x d) as [r [ls d2]] eqn:E.
  cbn [fst snd] in Hc. inversion Hc; subst. clear Hc.
  assert (Hne : ls <> []) by (eapply configure_chain_nonempty; [exact E|discriminate]).
  pose proof (configure_chain_frame _ _ _ _ _ _ E) as (_ & _ & Hwt & _).
  pose proof (configure_chain_fresh _ _ _ _ _ _ E Hi) as Hfresh.
  apply configure_chain_wired in E as (Hw & _).
  assert (Hclean : forall p, (p < brk d)%nat -> ~ is_output ls p).
  { intros p Hp (l1 & o & Hin & Ho & Ep).
    rewrite Forall_forall in Hfresh. destruct (Hfresh l1) as (o' & Ho' & Hr).
    { apply list_elem_of_In. exact Hin. }
    rewrite Ho in Ho'. inversion Ho'; subst o'. lia. }
  set (c1 := Model.fprop_chain ls x d1).
  assert (Hc2 : Model.fprop_chain ls x (snd (snd c1)) = c1).
  { destruct (fprop_chain_agree ls x (fun p => ~ is_output ls p) d1 (snd (snd c1)) Hw)
      as (A1 & _ & A3).
    - apply Hclean. exact Hx.
    - intros l1 w Hin Hin'. apply Hclean.
      destruct (In_map_eq _ _ _ _ Hwt Hin) as (l0 & Hl0 & El0).
      rewrite <- El0 in Hin'. exact (HW l0 w Hl0 Hin').
    - intros p Hp. symmetry. apply fprop_chain_frame_wired; assumption.
    - pose proof (fprop_chain_frame ls x d1) as (F1 & F2 & _).
      pose proof (fprop_chain_frame ls x (snd (snd c1))) as (G1 & G2 & _).
      fold c1 in A1, A3, F1, F2.
      destruct (Model.fprop_chain ls x (snd (snd c1))) as [r2 [ls2 g2]].
      destruct c1 as [r1 [ls1 g1]]. cbn [fst snd] in *. subst.
      f_equal. f_equal. destruct g1 as [m1 b1], g2 as [m2 b2]. cbn [mem brk] in *.
      subst b2. f_equal. apply map_eq. intros p.
      destruct (A3 p) as [H|[_ H]]; congruence. }
  rewrite Model_evaluate_state. cbn [Model.layers]. fold c1.
  rewrite !Model_evaluate_chain by exact Hne. cbn [Model.layers Model.input Model.name].
  fold c1. rewrite Hc2. reflexivity.
Qed.

Lemma instantiate_layer_alloc files (layer : dict) (d d' : Device) r :
  Model.instantiate_layer files layer d = (r, d') ->
  (brk d <= brk d')%nat /\
  (forall p, (p < brk d)%nat -> mem d' !! p = mem d !! p) /\
  forall l, r = Ok l ->
    (forall w, In w (Layer_params l) -> (brk d <= ptr w < brk d')%nat) /\
    NoDup (map ptr (Layer_params l)).
Proof.
  unfold Model.instantiate_layer, Convolution.init, Linear.init, Pooling.init,
    GPUTensor_load. st_unfold. intros H.
  destruct_matches H; inversion H; subst; clear H; cbn [mem brk];
    (split; [lia|]);
    (split; [intros p Hp; rewrite ?lookup_insert_ne by lia; reflexivity|]);
    intros l' El; try discriminate El; inversion El; subst; clear El;
    cbn [Layer_params map Convolution.W Convolution.bias Linear.W Linear.bias ptr];
    (split; [intros w Hw; cbn in Hw; repeat (destruct Hw as [<-|Hw]; [cbn; lia|]);
             contradiction|]).
  all: repeat (apply NoDup_cons; split; [rewrite ?elem_of_cons, ?elem_of_nil; lia|]).
  all: apply NoDup_nil_2.
Qed.

Lemma build_layers_alloc files path (recs : list dict) :
  forall (d d' : Device) r,
  Model.build_layers files path recs d = (r, d') ->
  (brk d <= brk d')%nat /\
  (forall p, (p < brk d)%nat -> mem d' !! p = mem d !! p) /\
  forall ls, r = Ok ls ->
    (forall l w, In l ls -> In w (Layer_params l) -> (brk d <= ptr w < brk d')%nat) /\
    NoDup (map ptr (flat_map Layer_params ls)).
Proof.
  induction recs as [|rc rest IH]; intros d d' r H.
  - inversion H; subst. split; [lia|]. split; [reflexivity|].
    intros ls E. inversion E; subst. split; [intros l w []|apply NoDup_nil_2].
  - cbn [Model.build_layers] in H. st_unfold.
    destruct (getitem rc "type") as [ty|e]; cbn [fst snd] in H.
    2:{ inversion H; subst. split; [lia|]. split; [reflexivity|]. discriminate. }
    destruct (py_eq_str ty "View"); [exact (IH _ _ _ H)|].
    destruct (Model.instantiate_layer files _ d) as [r1 d1] eqn:Ei.
    apply instantiate_layer_alloc in Ei as (Hb1 & Hm1 & Hl1).
    destruct r1 as [l|e]; cbn [fst snd] in H.
    2:{ inversion H; subst. split; [lia|]. split; [exact Hm1|]. discriminate. }
    destruct (Model.build_layers files path rest d1) as [r2 d2] eqn:Eb.
    apply IH in Eb as (Hb2 & Hm2 & Hl2).
    destruct (Hl1 l eq_refl) as (Hp1 & Hn1).
    destruct r2 as [ls'|e]; cbn [fst snd] in H; inversion H; subst; clear H.
    + split; [lia|]. split; [intros p Hp; rewrite Hm2 by lia; apply Hm1; exact Hp|].
      intros ls E. inversion E; subst. clear E.
      destruct (Hl2 ls' eq_refl) as (Hp2 & Hn2). split.
      * intros l0 w [<-|Hin] Hw.
        -- specialize (Hp1 w Hw). lia.
        -- specialize (Hp2 l0 w Hin Hw). lia.
      * cbn [flat_map]. rewrite map_app. apply NoDup_app. split; [exact Hn1|].
        split; [|exact Hn2].
        intros p Hp Hp'.
        apply list_elem_of_In, List.in_map_iff in Hp as (w & <- & Hw).
        apply list_elem_of_In, List.in_map_iff in Hp' as (w' & E' & Hw').
        apply List.in_flat_map in Hw' as (l0 & Hl0 & Hw').
        specialize (Hp1 w Hw). specialize (Hp2 l0 w' Hl0 Hw'). lia.
    + split; [lia|]. split; [intros p Hp; rewrite Hm2 by lia; apply Hm1; exact Hp|].
      discriminate.
Qed.

(** X20. What [Model.__init__] does to the device, whether it returns or
    raises: buffers are only added and the existing ones keep their contents.
    When it returns, every weight and bias tensor of the model has a buffer
    allocated during the call, and no two of them share a buffer. *)
Theorem Model_init_allocates
    (files : Files) (path : string) (jm : Model.ModelFile) (d : Device) :
  let s := Model.init files path jm d in
  (brk d <= brk (snd s))%nat /\
  (forall p, (p < brk d)%nat -> mem (snd s) !! p = mem d !! p) /\
  forall m, fst s = Ok m ->
    (forall l w, In l (Model.layers m) -> In w (Layer_params l) ->
       (brk d <= ptr w < brk (snd s))%nat) /\
    NoDup (map ptr (flat_map Layer_params (Model.layers m))).
Proof.
  cbv zeta. unfold Model.init. st_unfold.
  destruct (Model.modelName jm); cbn [fst snd];
    [|split; [lia|]; split; [reflexivity|discriminate]].
  destruct (Model.jlayers jm) as [recs|]; cbn [fst snd];
    [|split; [lia|]; split; [reflexivity|discriminate]].
  destruct (Model.build_layers files path recs d) as [r d'] eqn:E.
  apply build_layers_alloc in E as (Hb & Hm & Hl).
  destruct r as [ls|e]; cbn [fst snd].
  - split; [exact Hb|]. split; [exact Hm|].
    intros m Em. inversion Em; subst. cbn [Model.layers]. apply Hl. reflexivity.
  - split; [exact Hb|]. split; [exact Hm|]. discriminate.
Qed.

End Protocol.

(** ** Concrete runs of the further properties *)

(** A small network on the 8x8 input: the 3x3 convolution, a ReLU, the 2x2
    pooling, a fully connected layer of 64 inputs and 2 outputs, a dropout
    and the log-soft-max. The parameters are buffers 0, 1, 3 and 4, the input
    is buffer 2. *)
Definition ex_fc : Linear.t :=
  {| Linear.name := "Linear";
     Linear.W := {| ptr := 3; shape := [2; 64] |};
     Linear.bias := {| ptr := 4; shape := [2] |};
     Linear.output := None |}.

Definition ex_net : Model.t :=
  {| Model.layers :=
       [LConvolution ex_conv; LActivation (Activation.init Activation.ReLU);
        LPooling ex_pool; LLinear ex_fc;
        LDropout (Dropout.init (JFloat f64_half)); LSoftMax (SoftMax.init SoftMax.LOG)];
     Model.input := None; Model.name := "net" |}.

Definition ex_net_dev : @Device test_backend := {| mem := ∅; brk := 5 |}.

Definition ex_net_configured : Model.t :=
  Eval vm_compute in
    fst (snd (Model.configure (B := test_backend) ex_image (ex_net, ex_net_dev))).

Definition ex_net_dev' : @Device test_backend := {| mem := ∅; brk := 8 |}.

Lemma ex_net_configure :
  Model.configure (B := test_backend) ex_image (ex_net, ex_net_dev) =
  (Ok tt, (ex_net_configured, ex_net_dev')).
Proof. reflexivity. Defined.

(** X1 at the 2x2, stride 2 window on an axis of 8. *)
Lemma out_dim_conv_pool_agree_witness : conv_out_dim 8 0 2 2 = pool_out_dim 8 0 2 2.
Proof. exact (out_dim_conv_pool_agree 8 0 2 2 ex_pool_axis le_2_8). Defined.

(** X2 at the 3x3 convolution with padding 1 on an axis of 8: 8 placements. *)
Lemma conv_out_dim_placements_witness :
  exists o, conv_out_dim 8 1 3 1 = Ok o /\ 1 <= o /\
    (o - 1) * 1 + 3 <= 8 + 2 * 1 < o * 1 + 3.
Proof. exact (conv_out_dim_placements 8 1 3 1 ex_conv_axis le_3_10). Defined.

(** The 3x3 convolution and the 2x2 pooling with the stride of the width
    set to zero. *)
Definition ex_still : SlidingLayer.t :=
  {| SlidingLayer.name := "still";
     SlidingLayer.kW := 3; SlidingLayer.kH := 3;
     SlidingLayer.dH := 1; SlidingLayer.dW := 0;
     SlidingLayer.padH := 1; SlidingLayer.padW := 1 |}.

Definition ex_conv_still : Convolution.t :=
  {| Convolution.base := ex_still;
     Convolution.output := None;
     Convolution.W := {| ptr := 0; shape := [4; 3; 3; 3] |};
     Convolution.bias := {| ptr := 1; shape := [4] |};
     Convolution.alpha := float_one; Convolution.beta := float_zero;
     Convolution.in_desc := None; Convolution.out_desc := None;
     Convolution.filt_desc := None; Convolution.conv_desc := None;
     Convolution.algo := None; Convolution.ws_size := None;
     Convolution.ws_ptr := None |}.

Definition ex_pool_still : Pooling.t :=
  {| Pooling.base := ex_still;
     Pooling.mode := Pooling.AVG;
     Pooling.alpha := float_one; Pooling.beta := float_zero;
     Pooling.pool_desc := None; Pooling.in_desc := None;
     Pooling.out_desc := None; Pooling.output := None |}.

Lemma ex_still_geometry : c_int_geometry ex_still 8 8.
Proof. vm_compute. repeat split; try reflexivity; discriminate. Defined.

Lemma le_3_8 : 3 <= 8.
Proof. discriminate. Defined.

(** X3 at the convolution with stride 0 along the width. *)
Lemma Convolution_configure_zero_stride_witness :
  Convolution.configure (B := test_backend) ex_image (ex_conv_still, ex_dev) =
  (Raise ZeroDivisionError, (ex_conv_still, ex_dev)).
Proof.
  exact (Convolution_configure_zero_stride (B := test_backend)
           ex_conv_still ex_image ex_dev 1 3 8 8 4 [3; 3] eq_refl eq_refl
           ex_still_geometry le_3_10 le_3_10 (or_intror eq_refl)).
Defined.

(** X4 at the pooling with stride 0 along the width. *)
Lemma Pooling_configure_zero_stride_witness :
  Pooling.configure (B := test_backend) ex_image (ex_pool_still, ex_dev) =
  (Raise ZeroDivisionError, (ex_pool_still, ex_dev)).
Proof.
  exact (Pooling_configure_zero_stride (B := test_backend)
           ex_pool_still ex_image ex_dev 1 3 8 8 eq_refl
           ex_still_geometry le_3_8 le_3_8 (or_intror eq_refl)).
Defined.

(** X5 at the pooling layer on a tensor of shape (3, 8, 8). *)
Lemma sliding_configure_rank_witness :
  Layer_configure (B := test_backend) {| ptr := 2; shape := [3; 8; 8] |}
    (LPooling ex_pool, ex_dev) =
  (Raise IndexError, (LPooling ex_pool, ex_dev)).
Proof.
  apply (sliding_configure_rank (B := test_backend)); [right; reflexivity|].
  cbn. lia.
Defined.

(** The states that the convolution, the pooling (declared [AVG]) and the
    fully connected layer of the earlier examples reach by [configure]. *)
Definition ex_pool_avg : Pooling.t :=
  {| Pooling.base := Pooling.base ex_pool;
     Pooling.mode := Pooling.AVG;
     Pooling.alpha := float_one; Pooling.beta := float_zero;
     Pooling.pool_desc := None; Pooling.in_desc := None;
     Pooling.out_desc := None; Pooling.output := None |}.

Definition ex_conv_configured : Convolution.t :=
  Eval vm_compute in
    fst (snd (Convolution.configure (B := test_backend) ex_image (ex_conv, ex_dev))).

Definition ex_pool_avg_configured : Pooling.t :=
  Eval vm_compute in
    fst (snd (Pooling.configure (B := test_backend) ex_image (ex_pool_avg, ex_dev))).

Definition ex_dev' : @Device test_backend := {| mem := ∅; brk := 4 |}.

Lemma ex_conv_configure :
  Convolution.configure (B := test_backend) ex_image (ex_conv, ex_dev) =
  (Ok tt, (ex_conv_configured, ex_dev')).
Proof. reflexivity. Defined.

Lemma ex_pool_avg_configure :
  Pooling.configure (B := test_backend) ex_image (ex_pool_avg, ex_dev) =
  (Ok tt, (ex_pool_avg_configured, ex_dev')).
Proof. reflexivity. Defined.

Lemma ex_linear_configure :
  Linear.configure (B := test_backend) ex_vector (ex_linear, ex_linear_dev) =
  (Ok tt, (Linear.set_output ex_out ex_linear,
           {| mem := mem ex_linear_dev; brk := 4 |})).
Proof. reflexivity. Defined.

(** X6 at the 3x3 convolution: the backend of the examples needs no
    workspace, so one buffer is allocated and the workspace pointer is 0. *)
Lemma Convolution_configure_plan_witness :
  Convolution.ws_ptr ex_conv_configured = Some 0 /\
  brk ex_dev' = 4%nat /\ mem ex_dev' = mem ex_dev /\
  Convolution.W ex_conv_configured = Convolution.W ex_conv.
Proof.
  destruct (Convolution_configure_plan (B := test_backend) ex_conv ex_conv_configured
              ex_image ex_dev ex_dev' ex_conv_configure)
    as (out & sz & _ & _ & _ & _ & _ & Hsz & Hp & Hb & Hm & HW & _).
  vm_compute in Hsz. inversion Hsz; subst sz.
  repeat split; assumption.
Defined.

(** X7 at the 2x2 pooling declared [AVG]: the descriptor is a max-pooling
    descriptor. *)
Lemma Pooling_configure_descriptor_witness :
  Pooling.pool_desc ex_pool_avg_configured =
    Some {| p_mode := CUDNN_POOLING_MAX; p_h := 2; p_w := 2;
            p_pad_h := 0; p_pad_w := 0; p_stride_h := 2; p_stride_w := 2 |} /\
  Pooling.mode ex_pool_avg_configured = Pooling.AVG.
Proof.
  destruct (Pooling_configure_descriptor (B := test_backend) ex_pool_avg
              ex_pool_avg_configured ex_image ex_dev ex_dev' ex_pool_avg_configure)
    as (Hd & Hm & _).
  split; assumption.
Defined.

(** X9 at the 2x2 weights ((1, 2), (3, 4)) and the input (1, 1): after
    [configure], the forward pass leaves (3, 7) in buffer 3. *)
Lemma Linear_configure_then_fprop_witness :
  Linear.fprop (B := test_backend) ex_vector
    (Linear.set_output ex_out ex_linear, ex_linear_dev) =
  (Ok tt, (Linear.set_output ex_out ex_linear,
           {| mem := <[3%nat := [f32 3; f32 7]]> (mem ex_linear_dev); brk := 3 |})).
Proof.
  rewrite (Linear_configure_then_fprop (B := test_backend) ex_linear
             (Linear.set_output ex_out ex_linear) ex_vector
             ex_linear_dev {| mem := mem ex_linear_dev; brk := 4 |} ex_linear_dev
             2 2 eq_refl ltac:(cbn; lia) ex_linear_configure).
  reflexivity.
Defined.

(** X10 at the pooling record of the earlier example: the six fields are the
    six entries. *)
Lemma SlidingLayer_init_keys_witness :
  match SlidingLayer.init ex_pool_config "Pooling" with
  | Ok g =>
      SlidingLayer.name g = "Pooling" /\
      ex_pool_config !! "kW" = Some (JInt (SlidingLayer.kW g)) /\
      ex_pool_config !! "kH" = Some (JInt (SlidingLayer.kH g)) /\
      ex_pool_config !! "dH" = Some (JInt (SlidingLayer.dH g)) /\
      ex_pool_config !! "dW" = Some (JInt (SlidingLayer.dW g)) /\
      ex_pool_config !! "padH" = Some (JInt (SlidingLayer.padH g)) /\
      ex_pool_config !! "padW" = Some (JInt (SlidingLayer.padW g))
  | Raise e => e = KeyError /\ exists k, In k geometry_keys /\ ex_pool_config !! k = None
  end.
Proof.
  apply SlidingLayer_init_keys.
  intros k v Hk. cbn in Hk.
  repeat (destruct Hk as [<-|Hk]; [vm_compute; intros H; inversion H; eauto|]).
  contradiction.
Defined.

(** A model file [models/net.json] with one fully connected layer whose
    record names [fc_w.npy] and [fc_b.npy] and carries a ["baseDir"] of its
    own; the two files exist beside the model file. *)
Definition ex_fc_record : dict :=
  <["type" := JStr "Linear"]>
    (<["parameterFiles" := JList [JStr "fc_w.npy"; JStr "fc_b.npy"]]>
       (<["baseDir" := JStr "elsewhere"]> ∅)).

Definition ex_files : gmap string (list Z * list (@elem test_backend)) :=
  <["models/fc_w.npy" := ([2; 2], [f32 1; f32 2; f32 3; f32 4])]>
    (<["models/fc_b.npy" := ([2], [f32 100; f32 100])]> ∅).

(** X11 on that model file: the weights and the bias are read from
    [models/], into buffers 3 and 4. *)
Lemma Model_init_parameter_files_witness :
  Model.init (B := test_backend) ex_files "models/net.json"
    {| Model.modelName := Some "net"; Model.jlayers := Some [ex_fc_record] |} ex_dev =
  (Ok {| Model.layers :=
           [LLinear {| Linear.name := "Linear";
                       Linear.W := {| ptr := 3; shape := [2; 2] |};
                       Linear.bias := {| ptr := 4; shape := [2] |};
                       Linear.output := None |}];
         Model.input := None; Model.name := "net" |},
   {| mem := <[4%nat := [f32 100; f32 100]]>
               (<[3%nat := [f32 1; f32 2; f32 3; f32 4]]> ∅);
      brk := 5 |}).
Proof.
  rewrite (Model_init_parameter_files (B := test_backend) ex_files "models/net.json"
             "net" "fc_w.npy" "fc_b.npy" [] ex_fc_record ex_dev eq_refl eq_refl).
  reflexivity.
Defined.

(** X14 on the small network: the ReLU after the convolution has the
    convolution's output tensor as its own output. *)
Lemma Model_configure_wiring_witness :
  Layer_output <$> (Model.layers ex_net_configured !! 1%nat) =
  Layer_output <$> (Model.layers ex_net_configured !! 0%nat).
Proof.
  pose proof (proj2 (Model_configure_wiring (B := test_backend) ex_net ex_net_configured
                       ex_image ex_net_dev ex_net_dev' ex_net_configure) 0%nat) as H.
  destruct (Model.layers ex_net_configured !! 0%nat) as [l|] eqn:E0; [|discriminate E0].
  destruct (Model.layers ex_net_configured !! 1%nat) as [l'|] eqn:E1; [|discriminate E1].
  cbn [fmap option_fmap option_map]. f_equal.
  apply (H l l' eq_refl eq_refl).
  vm_compute in E1. inversion E1. reflexivity.
Defined.

Lemma ex_net_params :
  forall l w, In l (Model.layers ex_net) -> In w (Layer_params l) ->
    (ptr w < brk ex_net_dev)%nat /\ ptr w <> ptr ex_image.
Proof.
  intros l w Hl Hw. cbn in Hl.
  repeat (destruct Hl as [<-|Hl];
          [cbn in Hw; repeat (destruct Hw as [<-|Hw]; [cbn; split; [lia|discriminate]|]);
           contradiction|]).
  contradiction.
Defined.

Lemma ex_net_weights :
  forall l w, In l (Model.layers ex_net) -> In w (Layer_weights l) ->
    (ptr w < brk ex_net_dev)%nat.
Proof.
  intros l w Hl Hw. cbn in Hl.
  repeat (destruct Hl as [<-|Hl];
          [cbn in Hw; repeat (destruct Hw as [<-|Hw]; [cbn; lia|]); contradiction|]).
  contradiction.
Defined.

Lemma ex_net_sizes :
  forall l o, In l (Model.layers ex_net_configured) -> Layer_output l = Some o ->
    0 <= shape_size (shape o) < 2 ^ 63.
Proof.
  intros l o Hl Ho. cbn in Hl.
  repeat (destruct Hl as [<-|Hl];
          [vm_compute in Ho; inversion Ho; vm_compute; split; [discriminate|reflexivity]|]).
  contradiction.
Defined.

Lemma ex_net_factors :
  forall c, In (LDropout c) (Model.layers ex_net_configured) ->
    exists s, as_float (Dropout.p c) = Ok s.
Proof.
  intros c Hc. cbn in Hc.
  repeat (destruct Hc as [E|Hc]; [try discriminate E; inversion E; cbn; eauto|]).
  contradiction.
Defined.

(** A device holding the weights of the fully connected layer and an input
    image of ones. *)
Definition ex_net_data : @Device test_backend :=
  {| mem := <[2%nat := repeat (f32 1) 64]> (<[3%nat := repeat (f32 1) 128]> ∅);
     brk := 9 |}.

(** X15 on the small network: the weights of the fully connected layer are
    as before the evaluation. *)
Lemma Model_evaluate_keeps_parameters_witness :
  read (snd (snd (Model.evaluate (B := test_backend) ex_image
                    (ex_net_configured, ex_net_data)))) 3 =
  read ex_net_data 3.
Proof.
  apply (Model_evaluate_keeps_parameters (B := test_backend) ex_net ex_net_configured
           ex_image ex_net_dev ex_net_dev' ex_net_configure ex_net_params
           ex_net_data (LLinear (Linear.set_output {| ptr := 7; shape := [1; 2; 1; 1] |} ex_fc))
           (Linear.W ex_fc)).
  - vm_compute. auto 10.
  - left. reflexivity.
Defined.

(** X16 on the small network, evaluated on another tensor. *)
Lemma Model_evaluate_configured_errors_witness :
  fst (Model.evaluate (B := test_backend) ex_image5 (ex_net_configured, ex_net_data))
    <> Raise AttributeError /\
  fst (Model.evaluate (B := test_backend) ex_image5 (ex_net_configured, ex_net_data))
    <> Raise IndexError.
Proof.
  apply (Model_evaluate_configured_errors (B := test_backend) ex_net ex_net_configured
           ex_image ex_net_dev ex_net_dev' ex_net_configure).
  discriminate.
Defined.

(** X17 on the small network: the evaluation returns the two numbers of the
    last output buffer. *)
Lemma Model_configure_then_evaluate_witness :
  exists l out d2,
    last (Model.layers ex_net_configured) = Some l /\ Layer_output l = Some out /\
    Model.evaluate (B := test_backend) ex_image (ex_net_configured, ex_net_data) =
      (Ok (read d2 (ptr out)), (ex_net_configured, d2)) /\
    brk d2 = brk ex_net_data.
Proof.
  apply (Model_configure_then_evaluate (B := test_backend) ex_net ex_net_configured
           ex_image ex_net_dev ex_net_dev' ex_net_configure).
  - discriminate.
  - vm_compute. split; [discriminate|reflexivity].
  - exact ex_net_sizes.
  - exact ex_net_factors.
Defined.

(** A model as the constructor leaves it, from a file with a ReLU and a
    log-soft-max record. *)
Definition ex_model_file : Model.ModelFile :=
  {| Model.modelName := Some "net";
     Model.jlayers := Some [ex_record "ReLU"; ex_record "LogSoftMax"] |}.

Definition ex_model_fresh : Model.t :=
  {| Model.layers := [LActivation (Activation.init Activation.ReLU);
                      LSoftMax (SoftMax.init SoftMax.LOG)];
     Model.input := None; Model.name := "net" |}.

Lemma ex_model_init :
  Model.init (B := test_backend) ∅ "models/net.json" ex_model_file ex_dev =
  (Ok ex_model_fresh, ex_dev).
Proof. reflexivity. Defined.

(** X18 on that model: [evaluate] raises and changes nothing. *)
Lemma Model_evaluate_before_configure_witness :
  (exists e, fst (Model.evaluate (B := test_backend) ex_scalar
                    (ex_model_fresh, ex_scalar_dev)) = Raise e) /\
  snd (Model.evaluate (B := test_backend) ex_scalar (ex_model_fresh, ex_scalar_dev)) =
    (ex_model_fresh, ex_scalar_dev).
Proof.
  destruct (Model_evaluate_before_configure (B := test_backend) ∅ "models/net.json"
              ex_model_file ex_dev ex_dev ex_model_fresh ex_model_init
              ex_scalar ex_scalar_dev) as (H1 & H2).
  split; [exact H1|]. apply H2. discriminate.
Defined.

(** X19 on the small network: the second evaluation repeats the first. *)
Lemma Model_evaluate_twice_witness :
  Model.evaluate (B := test_backend) ex_image
    (snd (Model.evaluate (B := test_backend) ex_image (ex_net_configured, ex_net_data))) =
  Model.evaluate (B := test_backend) ex_image (ex_net_configured, ex_net_data).
Proof.
  apply (Model_evaluate_twice (B := test_backend) ex_net ex_net_configured
           ex_image ex_net_dev ex_net_dev' ex_net_configure).
  - cbn. lia.
  - exact ex_net_weights.
  - reflexivity.
Defined.
